(** * AutoBatchTask: submission and monitoring of AWS batch jobs

    A shallow embedding of [production/luigihacks/autobatch.py].

    The task talks to four things it does not control: the wall clock
    ([time.time], [time.sleep]), the shell ([subprocess.check_output]), the
    batch client ([batchclient.BatchClient]) and the [combine] of the
    subclass.  They are modelled by a [backend]: a record of answer
    functions indexed by the number of interactions made so far (the [tick]
    of the [world]).  Every interaction is appended to a [log], so that
    statements such as "no terminate call is issued" are statements about
    the log.  What the library calls of the task raise by themselves is
    part of the model: [decode] on bytes that are not UTF-8, [time.sleep] on
    a length of time it does not accept.

    Python [float]s are IEEE 754 binary64 numbers; they are modelled by
    Rocq's primitive floats, whose operations are specified by the Standard
    Library's [FloatAxioms] against [SpecFloat].

    The [while] loop of the monitoring takes fuel, and a result that says the
    run ends is proved for every amount of fuel above a bound.  The calls to
    [logging] are left out, except for the readings of the clock they
    make. *)

From Stdlib Require Import ZArith Lia List Floats.
From stdpp Require Import gmap strings list fin_maps pretty.

Set Warnings "-clear-no-such-hyp".

Open Scope Z_scope.

(** ** Python values *)

(** The values that occur in the dictionaries returned by [prepare]. *)
Inductive pyval :=
| PyNone
| PyBool (b : bool)
| PyInt (z : Z)
| PyStr (s : string).

(** Truth value of [if v:]. *)
Definition truthy (v : pyval) : bool :=
  match v with
  | PyNone => false
  | PyBool b => b
  | PyInt z => negb (z =? 0)
  | PyStr s => negb (String.eqb s "")
  end.

(** [str(v)]. *)
Definition py_str (v : pyval) : string :=
  match v with
  | PyNone => "None"
  | PyBool true => "True"
  | PyBool false => "False"
  | PyInt z => pretty z
  | PyStr s => s
  end.

(** A [dict] with string keys, in insertion order. *)
Definition pydict := list (string * pyval).

Fixpoint dict_get (k : string) (d : pydict) : option pyval :=
  match d with
  | [] => None
  | (k', v) :: d' => if String.eqb k k' then Some v else dict_get k d'
  end.

(** ** Exceptions, events and the world *)

Inductive exn :=
| BatchJobException (reason : string)
| CalledProcessError
| KeyError (key : string)
| IndexError
| UnicodeDecodeError
| ZeroDivisionError
| ValueError
| OverflowError
| BackendError (msg : string).

(** What a call to the batch client or to the shell answers: a value, or the
    message of the error it raises. *)
Definition reply := (string + string)%type.

(** One row of the [environment] list of the container overrides. *)
Record env_var := { name : string; value : string }.

(** The [containerOverrides] argument of [submit_job]. *)
Record overrides := {
  environment : list env_var;
  ov_memory : Z;
  ov_vcpus : Z
}.

(** The keyword arguments of [submit_job]. *)
Record submission := {
  jobDefinition : string;
  jobName : string;
  jobQueue : string;
  attemptDurationSeconds : Z;
  containerOverrides : overrides
}.

Inductive event :=
| EvClock (t : float)
| EvSleep (secs : Z)
| EvCommand (cmd : string) (out : reply)
| EvSubmit (i : nat) (job : submission) (r : reply)
| EvQuery (id : string) (r : reply)
| EvTerminate (id reason : string)
| EvHardTerminate (ids : list string) (reason : string)
| EvCombine (job_params : list pydict).

(** The environment of a run: what the clock, the shell and the batch client
    answer at the [n]-th interaction, and the exception, if any, that the
    [combine] of the subclass ends with when it is called there.  The shell
    answers the bytes a command prints, or the message of its failure. *)
Record backend := {
  clock : nat -> float;
  shell : nat -> string -> reply;
  submit_reply : nat -> submission -> reply;
  status_reply : nat -> string -> reply;
  combine_raises : nat -> list pydict -> option exn
}.

Record world := { tick : nat; log : list event }.

Definition emit (e : event) (w : world) : world :=
  {| tick := S (tick w); log := log w ++ [e] |}.

(** ** The monad of the embedding: state, exceptions and fuel *)

Inductive outcome (A : Type) :=
| Ret (a : A)
| Raise (e : exn)
| OutOfFuel.
Arguments Ret {A} a.
Arguments Raise {A} e.
Arguments OutOfFuel {A}.

Definition M (A : Type) := world -> outcome A * world.

Definition ret {A} (a : A) : M A := fun w => (Ret a, w).
Definition raise {A} (e : exn) : M A := fun w => (Raise e, w).
Definition out_of_fuel {A} : M A := fun w => (OutOfFuel, w).

Definition bind {A B} (m : M A) (k : A -> M B) : M B :=
  fun w =>
    match m w with
    | (Ret a, w') => k a w'
    | (Raise e, w') => (Raise e, w')
    | (OutOfFuel, w') => (OutOfFuel, w')
    end.

(** [try: m except CalledProcessError: h]. *)
Definition catch_called_process_error {A} (m : M A) (h : M A) : M A :=
  fun w =>
    match m w with
    | (Raise CalledProcessError, w') => h w'
    | r => r
    end.

Declare Scope py_scope.
Delimit Scope py_scope with py.
Notation "x <- m ;; k" := (bind m (fun x => k))
  (at level 100, m at next level, right associativity) : py_scope.
Notation "m ;;; k" := (bind m (fun _ => k))
  (at level 100, right associativity) : py_scope.
Open Scope py_scope.

(** Lifting an answer of the environment. *)
Definition of_reply (r : reply) : M string :=
  match r with
  | inl v => ret v
  | inr msg => raise (BackendError msg)
  end.

(** ** Python numbers *)

(** [float(z)] for a Python [int].  [of_uint63] rounds to nearest, ties to
    even, like CPython; the conversion through [Uint63.of_Z] is the one of
    Python for [|z| < 2^63], which covers every count of jobs. *)
Definition float_of_int (z : Z) : float :=
  if z <? 0 then (- of_uint63 (Uint63.of_Z (- z)))%float
  else of_uint63 (Uint63.of_Z z).

(** [a / b] on two Python [int]s: the correctly rounded quotient, which for
    operands below [2^53] is the binary64 quotient of the two conversions. *)
Definition py_truediv (a b : Z) : M float :=
  if b =? 0 then raise ZeroDivisionError
  else ret (float_of_int a / float_of_int b)%float.

(** [int(x)] on a [float]: truncation towards zero; [nan] and the
    infinities raise. *)
Definition py_int (x : float) : M Z :=
  match Prim2SF x with
  | S754_zero _ => ret 0
  | S754_finite s m e => ret (cond_Zopp s (Z.shiftl (Zpos m) e))
  | S754_infinity _ => raise OverflowError
  | S754_nan => raise ValueError
  end.

(** ** [defaultdict(int)] *)

(** [stats[k]] read on a [defaultdict(int)]. *)
Definition dd_get (k : string) (stats : gmap string Z) : Z :=
  default 0 (stats !! k).

(** [stats[k] += 1]. *)
Definition dd_incr (k : string) (stats : gmap string Z) : gmap string Z :=
  <[k := dd_get k stats + 1]> stats.

(** [sum(stats.values())]. *)
Definition sum_values (stats : gmap string Z) : Z :=
  map_fold (fun _ v acc => v + acc) 0 stats.

(** ** Strings *)

(** A Python [str] is represented by its encoding in UTF-8, a [bytes] by
    its bytes: both are strings of 8-bit characters.  A line feed is the
    byte 10 in both, since in well-formed UTF-8 that byte occurs only as the
    encoding of the line feed. *)

Definition continuation_byte (x : N) : bool := ((128 <=? x) && (x <=? 191))%N.

(** The second byte of a sequence of three bytes led by [x0]: no overlong
    encoding and no surrogate. *)
Definition second_of_three (x0 x1 : N) : bool :=
  (if x0 =? 224 then (160 <=? x1) && (x1 <=? 191)
   else if x0 =? 237 then (128 <=? x1) && (x1 <=? 159)
   else continuation_byte x1)%N.

(** The second byte of a sequence of four bytes led by [x0]: no overlong
    encoding and nothing above [U+10FFFF]. *)
Definition second_of_four (x0 x1 : N) : bool :=
  (if x0 =? 240 then (144 <=? x1) && (x1 <=? 191)
   else if x0 =? 244 then (128 <=? x1) && (x1 <=? 143)
   else continuation_byte x1)%N.

(** Whether [out.decode("utf-8")] succeeds: the bytes are well-formed
    UTF-8, which the strict decoder of Python requires. *)
Fixpoint valid_utf8 (s : string) : bool :=
  match s with
  | EmptyString => true
  | String c0 s0 =>
      let x0 := Ascii.N_of_ascii c0 in
      if (x0 <? 128)%N then valid_utf8 s0
      else
        match s0 with
        | EmptyString => false
        | String c1 s1 =>
            let x1 := Ascii.N_of_ascii c1 in
            if ((194 <=? x0) && (x0 <=? 223))%N then
              continuation_byte x1 && valid_utf8 s1
            else
              match s1 with
              | EmptyString => false
              | String c2 s2 =>
                  let x2 := Ascii.N_of_ascii c2 in
                  if ((224 <=? x0) && (x0 <=? 239))%N then
                    second_of_three x0 x1 && continuation_byte x2
                    && valid_utf8 s2
                  else
                    match s2 with
                    | EmptyString => false
                    | String c3 s3 =>
                        ((240 <=? x0) && (x0 <=? 244))%N
                        && second_of_four x0 x1 && continuation_byte x2
                        && continuation_byte (Ascii.N_of_ascii c3)
                        && valid_utf8 s3
                    end
              end
        end
  end.

(** [s.split("\n")]. *)
Fixpoint split_newline (s : string) : list string :=
  match s with
  | EmptyString => [EmptyString]
  | String c s' =>
      if Ascii.eqb c (Ascii.ascii_of_nat 10) then EmptyString :: split_newline s'
      else match split_newline s' with
           | [] => [String c EmptyString]
           | l :: ls => String c l :: ls
           end
  end.

(** [" ".join(l)]. *)
Fixpoint join_spaces (l : list string) : string :=
  match l with
  | [] => ""
  | [s] => s
  | s :: l' => s +:+ " " +:+ join_spaces l'
  end.

(** ** The task *)

(** The parameters of an [AutoBatchTask], and [int(_config["timeout"])] of
    the [worker] section of [luigi.cfg]. *)
Record task := {
  batchable : string;
  job_def : string;
  job_name : string;
  job_queue : string;
  region_name : string;
  env_files : list string;
  vcpus : Z;
  memory : Z;
  max_runs : option Z;
  timeout : Z;
  poll_time : Z;
  success_rate : float;
  test : bool;
  config_timeout : Z
}.

(** The declared defaults of the optional parameters. *)
Definition default_env_files : list string := [].
Definition default_vcpus : Z := 1.
Definition default_memory : Z := 512.
Definition default_max_runs : option Z := None.
Definition default_timeout : Z := 21600.
Definition default_poll_time : Z := 60.
(** [0.95], that is the binary64 number nearest to it. *)
Definition default_success_rate : float := 0x1.e666666666666p-1%float.
Definition default_test : bool := true.

Definition SUCCEEDED : string := "SUCCEEDED".
Definition FAILED : string := "FAILED".
Definition RUNNING : string := "RUNNING".

Definition reason_unexplained : string := "Jobs should no longer be running".
Definition reason_timeout : string :=
  "Impending worker timeout, so killing live tasks".
Definition reason_failure_rate (pct : Z) : string :=
  "Exiting due to high failure rate: " +:+ pretty pct +:+ "%".

(** [status not in ("SUCCEEDED", "FAILED", "RUNNING")] negated. *)
Definition is_tallied (status : string) : bool :=
  bool_decide (status = SUCCEEDED) || bool_decide (status = FAILED)
  || bool_decide (status = RUNNING).

(** [status not in ("SUCCEEDED", "FAILED")] negated. *)
Definition is_terminal (status : string) : bool :=
  bool_decide (status = SUCCEEDED) || bool_decide (status = FAILED).

(** The body of the polling loop after the status is known: the new tally
    and the new set of done jobs. *)
Definition tally_status (id status : string)
  (acc : gmap string Z * gset string) : gmap string Z * gset string :=
  let '(stats, done_jobs) := acc in
  if negb (is_tallied status) then (stats, done_jobs)
  else
    let stats := dd_incr status stats in
    if bool_decide (status = RUNNING) then (stats, done_jobs)
    else (stats, {[id]} ∪ done_jobs).

Section AutoBatchTask.

Variable b : backend.
Variable self : task.
(** [self.TIMEOUT], set by [run]. *)
Variable TIMEOUT : float.

(** *** Interactions *)

(** [time.time()]. *)
Definition time_time : M float :=
  fun w => let t := clock b (tick w) in (Ret t, emit (EvClock t) w).

(** The largest number of seconds that CPython converts to its 64-bit count
    of nanoseconds. *)
Definition max_sleep : Z := 9223372036.

(** [time.sleep(secs)] on a Python [int]: CPython first converts the
    seconds to nanoseconds, which raises [OverflowError] beyond
    [max_sleep] in absolute value, and then refuses a negative length with
    [ValueError]; in both cases before it sleeps. *)
Definition time_sleep (secs : Z) : M unit :=
  if (secs <? - max_sleep) || (max_sleep <? secs) then raise OverflowError
  else if secs <? 0 then raise ValueError
  else fun w => (Ret tt, emit (EvSleep secs) w).

(** [command_line(command, verbose)]: the second last line of the output;
    [check_output] raises [CalledProcessError] when the command fails, and
    [decode] raises [UnicodeDecodeError] when the output is not UTF-8. *)
Definition command_line (command : string) : M string :=
  fun w =>
    let r := shell b (tick w) command in
    let w' := emit (EvCommand command r) w in
    match r with
    | inr _ => (Raise CalledProcessError, w')
    | inl out =>
        if valid_utf8 out then
          match rev (split_newline out) with
          | _ :: l :: _ => (Ret l, w')
          | _ => (Raise IndexError, w')
          end
        else (Raise UnicodeDecodeError, w')
    end.

(** [batch_client.submit_job(...)]: the handle the batch client answers, or
    the error it raises.  The event keeps the position [i] of the descriptor
    the call is made for. *)
Definition submit_job (i : nat) (job : submission) : M string :=
  fun w =>
    let r := submit_reply b (tick w) job in
    of_reply r (emit (EvSubmit i job r) w).

(** [batch_client.get_job_status(id_)]: the status the batch client answers,
    or the error it raises. *)
Definition get_job_status (id : string) : M string :=
  fun w =>
    let r := status_reply b (tick w) id in
    of_reply r (emit (EvQuery id r) w).

(** Modelled from the spec: [BatchClient.terminate_job] is not part of the
    sources at hand.  The spec has termination best effort and never raising:
    the call is recorded and returns. *)
Definition terminate_job (id reason : string) : M unit :=
  fun w => (Ret tt, emit (EvTerminate id reason) w).

(** Modelled from the spec: [BatchClient.hard_terminate] is not part of the
    sources at hand.  The spec has the breaker and the deadline bulk-terminate
    every handle and end the run, the condition propagating to the caller as
    a failed run: one bulk termination, then an exception carrying the
    reason. *)
Definition hard_terminate (job_ids : list string) (reason : string) : M unit :=
  fun w =>
    (Raise (BatchJobException reason), emit (EvHardTerminate job_ids reason) w).

(** *** [_assert_timeout] *)

(** The two first readings of the clock are those of the logged summary. *)
Definition _assert_timeout (job_ids : list string) : M unit :=
  _ <- time_time ;;
  _ <- time_time ;;
  now <- time_time ;;
  if (now <? TIMEOUT)%float then ret tt
  else hard_terminate job_ids reason_timeout.

(** *** [_assert_success] *)

Definition failure_rate (stats : gmap string Z) : M float :=
  let total := sum_values stats in
  py_truediv (dd_get FAILED stats) total.

Definition _assert_success (job_ids : list string) (stats : gmap string Z)
  : M unit :=
  rate <- failure_rate stats ;;
  if (rate <=? 1 - success_rate self)%float then ret tt
  else
    pct <- py_int (rate * 100)%float ;;
    hard_terminate job_ids (reason_failure_rate pct).

(** [if len(stats) > 0: self._assert_success(...)]. *)
Definition check_success_rate (job_ids : list string) (stats : gmap string Z)
  : M unit :=
  if Z.of_nat (size stats) >? 0 then _assert_success job_ids stats
  else ret tt.

(** *** [_monitor_batch_jobs] *)

(** [for id_ in job_ids: ...] of the monitoring loop. *)
Fixpoint poll_jobs (ids : list string) (acc : gmap string Z * gset string)
  : M (gmap string Z * gset string) :=
  match ids with
  | [] => ret acc
  | id :: ids' =>
      status <- get_job_status id ;;
      poll_jobs ids' (tally_status id status acc)
  end.

(** The body of the [while] loop. *)
Definition monitor_cycle (job_ids : list string) (done_jobs : gset string)
  : M (gset string) :=
  _assert_timeout job_ids ;;;
  acc <- poll_jobs job_ids (∅, done_jobs) ;;
  check_success_rate job_ids acc.1 ;;;
  time_sleep (poll_time self) ;;;
  ret acc.2.

(** [len(job_ids) - len(done_jobs) > 0]. *)
Definition jobs_pending (job_ids : list string) (done_jobs : gset string)
  : bool :=
  Z.of_nat (length job_ids) - Z.of_nat (size done_jobs) >? 0.

Fixpoint monitor_while (fuel : nat) (job_ids : list string)
  (done_jobs : gset string) : M (gset string) :=
  match fuel with
  | O => out_of_fuel
  | S fuel' =>
      if jobs_pending job_ids done_jobs then
        done_jobs' <- monitor_cycle job_ids done_jobs ;;
        monitor_while fuel' job_ids done_jobs'
      else ret done_jobs
  end.

(** [for id_ in job_ids: ...] of the last check: the tally and the
    [unexplained_jobs] flag. *)
Fixpoint last_check_jobs (ids : list string) (acc : gmap string Z * bool)
  : M (gmap string Z * bool) :=
  match ids with
  | [] => ret acc
  | id :: ids' =>
      status <- get_job_status id ;;
      if negb (is_terminal status) then
        terminate_job id reason_unexplained ;;;
        last_check_jobs ids' (acc.1, true)
      else last_check_jobs ids' (dd_incr status acc.1, acc.2)
  end.

Definition last_check (job_ids : list string) : M unit :=
  acc <- last_check_jobs job_ids (∅, false) ;;
  if acc.2 : bool then raise (BatchJobException reason_unexplained)
  else check_success_rate job_ids acc.1.

Definition _monitor_batch_jobs (fuel : nat) (job_ids : list string) : M unit :=
  monitor_while fuel job_ids ∅ ;;;
  last_check job_ids.

(** *** [execute] *)

Definition batchpar (kv : string * pyval) : env_var :=
  {| name := "BATCHPAR_" +:+ kv.1; value := py_str kv.2 |}.

Definition env_variables (aws_id aws_secret s3file_timestamp : string)
  (params : pydict) : list env_var :=
  [ {| name := "AWS_ACCESS_KEY_ID"; value := aws_id |};
    {| name := "AWS_SECRET_ACCESS_KEY"; value := aws_secret |};
    {| name := "BATCHPAR_S3FILE_TIMESTAMP"; value := s3file_timestamp |} ]
  ++ map batchpar params.

Definition job_of (aws_id aws_secret s3file_timestamp : string)
  (params : pydict) : submission :=
  {| jobDefinition := job_def self;
     jobName := job_name self;
     jobQueue := job_queue self;
     attemptDurationSeconds := timeout self;
     containerOverrides :=
       {| environment := env_variables aws_id aws_secret s3file_timestamp params;
          ov_memory := memory self;
          ov_vcpus := vcpus self |} |}.

(** [(self.max_runs is not None) and (i >= self.max_runs)]. *)
Definition max_runs_reached (i : nat) : bool :=
  match max_runs self with
  | None => false
  | Some n => Z.of_nat i >=? n
  end.

(** [params["done"]] as a condition. *)
Definition is_done (params : pydict) : M bool :=
  match dict_get "done" params with
  | Some v => ret (truthy v)
  | None => raise (KeyError "done")
  end.

(** [for i, params in enumerate(job_params): ...], from position [i] on,
    with the handles obtained so far. *)
Fixpoint submit_jobs (aws_id aws_secret s3file_timestamp : string)
  (i : nat) (job_params : list pydict) (job_ids : list string)
  : M (list string) :=
  match job_params with
  | [] => ret job_ids
  | params :: rest =>
      _assert_timeout job_ids ;;;
      skip <- is_done params ;;
      if skip : bool then
        submit_jobs aws_id aws_secret s3file_timestamp (S i) rest job_ids
      else if max_runs_reached i then ret job_ids
      else
        id_ <- submit_job i (job_of aws_id aws_secret s3file_timestamp params) ;;
        submit_jobs aws_id aws_secret s3file_timestamp (S i) rest
          (job_ids ++ [id_])
  end.

(** [execute].  The batch client is the capability the spec describes
    (submit, status, terminate); the construction of the [BatchClient]
    object, whose code is not part of the sources at hand, is not an
    interaction of the model. *)
Definition execute (fuel : nat) (job_params : list pydict)
  (s3file_timestamp : string) : M unit :=
  aws_id <- command_line
    "aws --profile default configure get aws_access_key_id" ;;
  aws_secret <- command_line
    "aws --profile default configure get aws_secret_access_key" ;;
  job_ids <- submit_jobs aws_id aws_secret s3file_timestamp 0 job_params [] ;;
  _monitor_batch_jobs fuel job_ids.

End AutoBatchTask.

(** *** [run] *)

(** [combine] is abstract: the embedding records the call, and the
    environment says whether the code of the subclass returns or raises. *)
Definition combine (b : backend) (job_params : list pydict) : M unit :=
  fun w =>
    (match combine_raises b (tick w) job_params with
     | None => Ret tt
     | Some e => Raise e
     end, emit (EvCombine job_params) w).

(** [job_params[0:2]] when [self.test] and the list has more than two
    elements. *)
Definition test_subset (self : task) (job_params : list pydict)
  : list pydict :=
  if test self then
    if Z.of_nat (length job_params) >? 2 then take 2 job_params
    else job_params
  else job_params.

(** [run], given what [prepare] returns. *)
Definition run (b : backend) (self : task) (fuel : nat)
  (prepared : list pydict) : M unit :=
  now <- time_time b ;;
  let TIMEOUT := (now + float_of_int (config_timeout self))%float in
  let job_params := test_subset self prepared in
  let env_files := join_spaces (env_files self) in
  s3file_timestamp <-
    catch_called_process_error
      (command_line b
         ("nesta_prepare_batch " +:+ batchable self +:+ " " +:+ env_files))
      (raise (BatchJobException "Invalid input or environment files")) ;;
  execute b self TIMEOUT fuel job_params s3file_timestamp ;;;
  combine b job_params.

(** ** Observations on a computation *)

(** The world before anything happened. *)
Definition initial_world : world := {| tick := 0; log := [] |}.

(** The events a computation appends to the log of the world it starts in. *)
Definition events_of {A} (m : M A) (w : world) : list event :=
  drop (length (log w)) (log (m w).2).

(** A computation that only ever appends to the log, one tick per event. *)
Definition appends {A} (m : M A) : Prop :=
  forall w,
    log (m w).2 = log w ++ events_of m w /\
    tick (m w).2 = (tick w + length (events_of m w))%nat.

(** Every event a computation appends, from any world, satisfies [P]. *)
Definition all_events (P : event -> Prop) {A} (m : M A) : Prop :=
  forall w, Forall P (events_of m w).

(** A computation that never ends with the exception [e]. *)
Definition never_raises (e : exn) {A} (m : M A) : Prop :=
  forall w, (m w).1 <> Raise e.

(** ** Observations on the events *)

(** The positions of the submission calls. *)
Fixpoint submissions_of (evs : list event) : list nat :=
  match evs with
  | [] => []
  | EvSubmit i _ _ :: evs' => i :: submissions_of evs'
  | _ :: evs' => submissions_of evs'
  end.

(** The positions and handles of the submissions that were accepted. *)
Fixpoint handles_of (evs : list event) : list (nat * string) :=
  match evs with
  | [] => []
  | EvSubmit i _ (inl id) :: evs' => (i, id) :: handles_of evs'
  | _ :: evs' => handles_of evs'
  end.

(** The handles of the status queries, in order. *)
Fixpoint queries_of (evs : list event) : list string :=
  match evs with
  | [] => []
  | EvQuery id _ :: evs' => id :: queries_of evs'
  | _ :: evs' => queries_of evs'
  end.

(** The handles and statuses of the status queries that were answered. *)
Fixpoint answers_of (evs : list event) : list (string * string) :=
  match evs with
  | [] => []
  | EvQuery id (inl status) :: evs' => (id, status) :: answers_of evs'
  | _ :: evs' => answers_of evs'
  end.

(** A termination call, single or bulk. *)
Definition is_terminate (e : event) : bool :=
  match e with
  | EvTerminate _ _ | EvHardTerminate _ _ => true
  | _ => false
  end.

(** From the world [w] the computation [m] returns [a] in the world [w'],
    without any termination call. *)
Definition runs_quietly {A} (m : M A) (w : world) (a : A) (w' : world)
  : Prop :=
  m w = (Ret a, w') /\
  Forall (fun e => is_terminate e = false) (events_of m w) /\
  (tick w <= tick w')%nat.

(** A status query that fails ends the computation there and then, with the
    error of the batch client. *)
Definition query_failure_aborts {A} (m : M A) : Prop :=
  forall w id msg,
    EvQuery id (inr msg) ∈ events_of m w ->
    (m w).1 = Raise (BackendError msg) /\
    last (events_of m w) = Some (EvQuery id (inr msg)).

(** The events of the monitoring phase. *)
Definition is_monitor_event (e : event) : Prop :=
  match e with
  | EvClock _ | EvSleep _ | EvQuery _ _ | EvTerminate _ _
  | EvHardTerminate _ _ => True
  | _ => False
  end.

(** The events of the submission loop started at position [i] of the list
    [job_params]: readings of the clock, the bulk termination of the
    deadline, and submissions of descriptors of the list that are not done
    and that the cap on runs lets through. *)
Definition is_submit_loop_event (self : task)
  (aws_id aws_secret s3file_timestamp : string) (i : nat)
  (job_params : list pydict) (e : event) : Prop :=
  match e with
  | EvClock _ => True
  | EvHardTerminate _ reason => reason = reason_timeout
  | EvSubmit j job _ =>
      exists params v,
        (i <= j)%nat /\
        job_params !! (j - i)%nat = Some params /\
        dict_get "done" params = Some v /\ truthy v = false /\
        max_runs_reached self j = false /\
        job = job_of self aws_id aws_secret s3file_timestamp params
  | _ => False
  end.

(** The events of [execute] on the list [job_params]: the two shell commands
    of the credentials, the events of the submission loop and the events of
    the monitoring. *)
Definition is_execute_event (self : task) (s3file_timestamp : string)
  (job_params : list pydict) (e : event) : Prop :=
  (exists cmd r, e = EvCommand cmd r) \/
  (exists aws_id aws_secret,
     is_submit_loop_event self aws_id aws_secret s3file_timestamp 0
       job_params e) \/
  is_monitor_event e.

(** The events of [run] when [execute] and [combine] get [job_params]. *)
Definition is_run_event (self : task) (job_params : list pydict)
  (e : event) : Prop :=
  (exists ts, is_execute_event self ts job_params e) \/
  e = EvCombine job_params.

(** ** Observations on the monitoring loop *)

(** The value of [done_jobs] when the condition of the [while] loop is
    evaluated for the [k]-th time after the first, if the loop gets there. *)
Fixpoint done_jobs_at (b : backend) (self : task) (TIMEOUT : float)
  (k : nat) (job_ids : list string) (done_jobs : gset string) (w : world)
  : option (gset string) :=
  match k with
  | O => Some done_jobs
  | S k' =>
      if jobs_pending job_ids done_jobs then
        match monitor_cycle b self TIMEOUT job_ids done_jobs w with
        | (Ret done_jobs', w') =>
            done_jobs_at b self TIMEOUT k' job_ids done_jobs' w'
        | _ => None
        end
      else None
  end.

(** The tally and the set of done jobs after the statuses [answers], given
    as pairs of a handle and its status, have gone through the body of the
    polling loop. *)
Definition cycle_tally (answers : list (string * string))
  (done_jobs : gset string) : gmap string Z * gset string :=
  foldl (fun acc p => tally_status p.1 p.2 acc) (∅, done_jobs) answers.

(** How many of the answers are the status [s]. *)
Definition count_status (s : string) (answers : list (string * string)) : Z :=
  Z.of_nat (length (filter (fun p => p.2 = s) answers)).

(** A tally the loops of the monitoring can build. *)
Definition is_tally (stats : gmap string Z) : Prop :=
  exists answers d, stats = (cycle_tally answers d).1.

(** Whether one of the answers is neither [SUCCEEDED] nor [FAILED]. *)
Definition some_unexplained (answers : list (string * string)) : bool :=
  existsb (fun p => negb (is_terminal p.2)) answers.

(** Every job of [done_jobs] has been seen [SUCCEEDED] by the interaction
    number [k] at the latest. *)
Definition seen_succeeded (b : backend) (done_jobs : gset string) (k : nat)
  : Prop :=
  forall id, id ∈ done_jobs ->
    exists k', (k' <= k)%nat /\ status_reply b k' id = inl SUCCEEDED.

(** ** A scripted environment, for the worked examples *)

Definition newline : string := String (Ascii.ascii_of_nat 10) EmptyString.

(** A task with the declared defaults, a required success rate and a cap on
    the number of runs. *)
Definition example_task (rate : float) (cap : option Z) : task :=
  {| batchable := "meetup/country_groups";
     job_def := "standard";
     job_name := "country-groups";
     job_queue := "HighPriority";
     region_name := "eu-west-2";
     env_files := default_env_files;
     vcpus := default_vcpus;
     memory := default_memory;
     max_runs := cap;
     timeout := default_timeout;
     poll_time := default_poll_time;
     success_rate := rate;
     test := default_test;
     config_timeout := 3600 |}.

(** The same task out of test mode. *)
Definition full_run_task (cap : option Z) : task :=
  {| batchable := "meetup/country_groups";
     job_def := "standard";
     job_name := "country-groups";
     job_queue := "HighPriority";
     region_name := "eu-west-2";
     env_files := default_env_files;
     vcpus := default_vcpus;
     memory := default_memory;
     max_runs := cap;
     timeout := default_timeout;
     poll_time := default_poll_time;
     success_rate := default_success_rate;
     test := false;
     config_timeout := 3600 |}.

(** A backend whose clock stands at zero, whose shell prints one line, which
    accepts every submission and whose statuses follow a script. *)
Definition scripted (statuses : nat -> string -> reply) : backend :=
  {| clock := fun _ => 0%float;
     shell := fun _ _ => inl ("20180801" +:+ newline);
     submit_reply := fun n _ => inl ("job-" +:+ pretty n);
     status_reply := statuses;
     combine_raises := fun _ _ => None |}.

(** The same backend with a clock that goes on by one second at every
    interaction. *)
Definition ticking (statuses : nat -> string -> reply) : backend :=
  {| clock := fun n => float_of_int (Z.of_nat n);
     shell := fun _ _ => inl ("20180801" +:+ newline);
     submit_reply := fun n _ => inl ("job-" +:+ pretty n);
     status_reply := statuses;
     combine_raises := fun _ _ => None |}.

(** Every job runs until the interaction number [n0] and has succeeded from
    then on. *)
Definition succeeds_at (n0 : nat) (n : nat) (id : string) : reply :=
  if (n <? n0)%nat then inl RUNNING else inl SUCCEEDED.

(** A deadline the clock of [scripted] never reaches. *)
Definition example_deadline : float := 3600%float.

Definition descriptor (done : bool) (outinfo : string) : pydict :=
  [("done", PyBool done); ("outinfo", PyStr outinfo)].

(** Job [a] has succeeded from the start; job [b] runs until the eighth
    interaction and then has succeeded. *)
Definition two_jobs (n : nat) (id : string) : reply :=
  if bool_decide (id = "a") then inl SUCCEEDED
  else if (n <? 8)%nat then inl RUNNING else inl SUCCEEDED.

(** Both jobs have succeeded from the third interaction on. *)
Definition both_succeed (n : nat) (id : string) : reply :=
  if (n <? 3)%nat then inl "STARTING" else inl SUCCEEDED.

(** The status query of the fourth interaction fails. *)
Definition throttled (n : nat) (id : string) : reply :=
  if (n =? 3)%nat then inr "ThrottlingException" else inl SUCCEEDED.

(** The statuses of a backend that is not consistent: both jobs have
    succeeded, but from the sixth interaction on job [b] is reported as
    waiting to run. *)
Definition lost_job (n : nat) (id : string) : reply :=
  if bool_decide (id = "b") && (6 <=? n)%nat then inl "RUNNABLE"
  else inl SUCCEEDED.

(** Job [a] has failed, the other jobs run. *)
Definition one_failed_one_running (n : nat) (id : string) : reply :=
  if bool_decide (id = "a") then inl FAILED else inl RUNNING.

(** The answers of a cycle in which eighteen jobs run and two have
    failed. *)
Definition two_failures_in_twenty : list (string * string) :=
  replicate 18 ("job-r", RUNNING) ++ replicate 2 ("job-f", FAILED).

(** ** Further observations, on strings, failures and submissions *)

(** Whether a string holds a line feed. *)
Fixpoint has_newline (s : string) : bool :=
  match s with
  | EmptyString => false
  | String c s' => Ascii.eqb c (Ascii.ascii_of_nat 10) || has_newline s'
  end.

(** An output made of the lines [ls], each ended by a line feed, followed by
    the characters [rest] after the last line feed. *)
Definition terminated_lines (ls : list string) (rest : string) : string :=
  foldr (fun l acc => l +:+ newline +:+ acc) rest ls.

(** The exception an interaction that went wrong ends the task with: a shell
    command that fails, a submission or a status query the batch client
    refuses, a bulk termination. *)
Definition failure_of (e : event) : option exn :=
  match e with
  | EvCommand _ (inr _) => Some CalledProcessError
  | EvSubmit _ _ (inr msg) => Some (BackendError msg)
  | EvQuery _ (inr msg) => Some (BackendError msg)
  | EvHardTerminate _ reason => Some (BatchJobException reason)
  | _ => None
  end.

(** A computation that stops at the first interaction that goes wrong, with
    the exception of that interaction: nothing is retried, and nothing
    happens afterwards. *)
Definition fails_fast {A} (m : M A) : Prop :=
  forall w e x,
    e ∈ events_of m w -> failure_of e = Some x ->
    (m w).1 = Raise x /\ last (events_of m w) = Some e.

(** The events of the monitoring of the jobs [job_ids]: readings of the
    clock, sleeps of [poll_time] seconds, status queries and single
    terminations of jobs of the list, bulk terminations of the whole list. *)
Definition is_monitor_event_of (self : task) (job_ids : list string)
  (e : event) : Prop :=
  match e with
  | EvClock _ => True
  | EvSleep secs => secs = poll_time self
  | EvQuery id _ => id ∈ job_ids
  | EvTerminate id reason => id ∈ job_ids /\ reason = reason_unexplained
  | EvHardTerminate ids reason =>
      ids = job_ids /\
      (reason = reason_timeout \/ exists pct, reason = reason_failure_rate pct)
  | _ => False
  end.

(** An event that queries or terminates a single job does so for one of the
    jobs [handles], a single termination is that of the last check, and a
    sleep lasts [poll_time] seconds. *)
Definition touches_only (self : task) (handles : list string) (e : event)
  : Prop :=
  match e with
  | EvSleep secs => secs = poll_time self
  | EvQuery id _ => id ∈ handles
  | EvTerminate id reason => id ∈ handles /\ reason = reason_unexplained
  | _ => True
  end.

(** A backend as [scripted two_jobs], whose batch client refuses the
    submissions from the interaction number [n] on. *)
Definition refusing (n : nat) : backend :=
  {| clock := fun _ => 0%float;
     shell := fun _ _ => inl ("20180801" +:+ newline);
     submit_reply := fun k _ =>
       if (n <=? k)%nat then inr "ClientException"
       else inl ("job-" +:+ pretty k);
     status_reply := two_jobs;
     combine_raises := fun _ _ => None |}.

(** Every job has failed. *)
Definition all_failed (n : nat) (id : string) : reply := inl FAILED.

(** A backend as [scripted two_jobs], whose shell commands all fail. *)
Definition broken_shell : backend :=
  {| clock := fun _ => 0%float;
     shell := fun _ _ => inr "exit status 1";
     submit_reply := fun n _ => inl ("job-" +:+ pretty n);
     status_reply := two_jobs;
     combine_raises := fun _ _ => None |}.

(** Whether a computation came to an end, by returning or by raising, with
    the fuel it was given. *)
Definition ended {A} (o : outcome A) : bool :=
  match o with
  | OutOfFuel => false
  | _ => true
  end.

(** A computation that comes to an end from every world. *)
Definition ends {A} (m : M A) : Prop := forall w, ended (m w).1 = true.

(** [not params["done"]], for a descriptor that has the field. *)
Definition not_done (params : pydict) : bool :=
  match dict_get "done" params with
  | Some v => negb (truthy v)
  | None => false
  end.

(** The positions of the descriptors that are not done, in a list whose
    first element has position [i]. *)
Fixpoint not_done_positions (i : nat) (job_params : list pydict) : list nat :=
  match job_params with
  | [] => []
  | params :: rest =>
      if not_done params then i :: not_done_positions (S i) rest
      else not_done_positions (S i) rest
  end.

(** A tally built from at most [n] answers. *)
Definition is_tally_of_at_most (n : nat) (stats : gmap string Z) : Prop :=
  exists answers d,
    stats = (cycle_tally answers d).1 /\ (length answers <= n)%nat.

(** The exceptions [execute] can end with: those of the shell commands, the
    one of a descriptor without its [done] field, the errors of the batch
    client, [BatchJobException] for the deadline, the breaker and the last
    check, and those of [time.sleep] when [poll_time] is not a length of
    time it accepts. *)
Definition is_execute_exception (self : task) (e : exn) : Prop :=
  match e with
  | CalledProcessError | IndexError | UnicodeDecodeError | BackendError _ =>
      True
  | KeyError key => key = "done"
  | BatchJobException reason =>
      reason = reason_timeout \/ reason = reason_unexplained \/
      exists pct, reason = reason_failure_rate pct
  | OverflowError => poll_time self < - max_sleep \/ max_sleep < poll_time self
  | ValueError => - max_sleep <= poll_time self < 0
  | ZeroDivisionError => False
  end.

(** A computation that raises no other exceptions than those of [Q]. *)
Definition raises_only (Q : exn -> Prop) {A} (m : M A) : Prop :=
  forall w e, (m w).1 = Raise e -> Q e.

(** ** Generic lemmas on the monad *)

Lemma bind_ret_eq {A B} (m : M A) (k : A -> M B) w a w1 :
  m w = (Ret a, w1) -> bind m k w = k a w1.
Proof. intros H. unfold bind. now rewrite H. Qed.

Lemma bind_raise_eq {A B} (m : M A) (k : A -> M B) w e w1 :
  m w = (Raise e, w1) -> bind m k w = (Raise e, w1).
Proof. intros H. unfold bind. now rewrite H. Qed.

Lemma bind_fuel_eq {A B} (m : M A) (k : A -> M B) w w1 :
  m w = (OutOfFuel, w1) -> bind m k w = (OutOfFuel, w1).
Proof. intros H. unfold bind. now rewrite H. Qed.

Lemma bind_inv {A B} (m : M A) (k : A -> M B) w out w' :
  bind m k w = (out, w') ->
  (exists a w1, m w = (Ret a, w1) /\ k a w1 = (out, w')) \/
  (exists e, m w = (Raise e, w') /\ out = Raise e) \/
  (m w = (OutOfFuel, w') /\ out = OutOfFuel).
Proof.
  unfold bind. destruct (m w) as [[a|e|] w1]; intros H.
  - left. eauto.
  - right. left. inversion H; subst. eauto.
  - right. right. inversion H; subst. eauto.
Qed.

Lemma events_of_spec {A} (m : M A) w evs :
  log (m w).2 = log w ++ evs -> events_of m w = evs.
Proof.
  intros H. unfold events_of. rewrite H.
  now rewrite drop_app_length.
Qed.

Lemma appends_intro {A} (m : M A) :
  (forall w, exists evs,
      log (m w).2 = log w ++ evs /\
      tick (m w).2 = (tick w + length evs)%nat) ->
  appends m.
Proof.
  intros H w. destruct (H w) as (evs & Hl & Ht).
  rewrite (events_of_spec _ _ _ Hl). auto.
Qed.

Lemma appends_ret {A} (a : A) : appends (ret a).
Proof.
  apply appends_intro. intros w. exists []. cbn.
  rewrite app_nil_r. split; [easy | lia].
Qed.

Lemma appends_raise {A} e : appends (@raise A e).
Proof.
  apply appends_intro. intros w. exists []. cbn.
  rewrite app_nil_r. split; [easy | lia].
Qed.

Lemma appends_out_of_fuel {A} : appends (@out_of_fuel A).
Proof.
  apply appends_intro. intros w. exists []. cbn.
  rewrite app_nil_r. split; [easy | lia].
Qed.

Lemma appends_emit {A} (f : world -> outcome A) (g : world -> event) :
  appends (fun w => (f w, emit (g w) w)).
Proof.
  apply appends_intro. intros w. exists [g w]. cbn. split; [easy | lia].
Qed.

Lemma events_of_bind {A B} (m : M A) (k : A -> M B) w :
  appends m -> (forall a, appends (k a)) ->
  events_of (bind m k) w =
  events_of m w ++
    match (m w).1 with
    | Ret a => events_of (k a) (m w).2
    | _ => []
    end.
Proof.
  intros Hm Hk. apply events_of_spec.
  destruct (Hm w) as [Hl _]. unfold bind.
  destruct (m w) as [[a|e|] w1]; cbn in *.
  - destruct (Hk a w1) as [Hl1 _]. rewrite Hl1, Hl. now rewrite app_assoc.
  - now rewrite app_nil_r.
  - now rewrite app_nil_r.
Qed.

Lemma appends_bind {A B} (m : M A) (k : A -> M B) :
  appends m -> (forall a, appends (k a)) -> appends (bind m k).
Proof.
  intros Hm Hk. apply appends_intro. intros w.
  destruct (Hm w) as [Hl Ht]. unfold bind.
  destruct (m w) as [[a|e|] w1]; cbn in *.
  - destruct (Hk a w1) as [Hl1 Ht1].
    exists (events_of m w ++ events_of (k a) w1).
    rewrite Hl1, Hl, Ht1, Ht, length_app, app_assoc. split; [easy | lia].
  - eauto.
  - eauto.
Qed.

Lemma appends_catch {A} (m h : M A) :
  appends m -> appends h -> appends (catch_called_process_error m h).
Proof.
  intros Hm Hh. apply appends_intro. intros w.
  destruct (Hm w) as [Hl Ht]. unfold catch_called_process_error.
  destruct (m w) as [[a|e|] w1]; cbn in *; eauto.
  destruct e; eauto.
  destruct (Hh w1) as [Hl1 Ht1].
  exists (events_of m w ++ events_of h w1).
  rewrite Hl1, Hl, Ht1, Ht, length_app, app_assoc. split; [easy | lia].
Qed.

(** ** Binary64 arithmetic

    What the monitor needs to know about the quotient of two counts, about
    [1 - success_rate] and about the comparison of two numbers, derived from
    the specification of the primitive floats. *)

Lemma digits2_pos_bounds (p : positive) :
  2 ^ (Zpos (digits2_pos p) - 1) <= Zpos p < 2 ^ Zpos (digits2_pos p).
Proof.
  induction p as [p IH|p IH|]; cbn [digits2_pos].
  - rewrite Pos2Z.inj_succ, Z.pow_succ_r by lia.
    replace (Z.succ (Z.pos (digits2_pos p)) - 1) with (Z.succ (Z.pos (digits2_pos p) - 1)) by lia.
    rewrite Z.pow_succ_r by lia. lia.
  - rewrite Pos2Z.inj_succ, Z.pow_succ_r by lia.
    replace (Z.succ (Z.pos (digits2_pos p)) - 1) with (Z.succ (Z.pos (digits2_pos p) - 1)) by lia.
    rewrite Z.pow_succ_r by lia. lia.
  - cbn. lia.
Qed.

Lemma Zdigits2_nonneg m : 0 <= Zdigits2 m.
Proof. destruct m; cbn; lia. Qed.

Lemma Zdigits2_upper m : 0 <= m -> m < 2 ^ Zdigits2 m.
Proof.
  destruct m as [|p|p]; cbn; intros H; try lia.
  apply digits2_pos_bounds.
Qed.

Lemma Zdigits2_le m k : 0 <= m -> 0 <= k -> m < 2 ^ k -> Zdigits2 m <= k.
Proof.
  destruct m as [|p|p]; cbn; intros H Hk Hlt; try lia.
  pose proof (digits2_pos_bounds p) as [Hlo _].
  destruct (Z_le_gt_dec (Zpos (digits2_pos p)) k) as [|Hgt]; [easy|].
  exfalso.
  assert (2 ^ k <= 2 ^ (Zpos (digits2_pos p) - 1)) by (apply Z.pow_le_mono_r; lia).
  lia.
Qed.

Lemma iter_xO_spec (d p : positive) :
  Zpos (Pos.iter xO p d) = Zpos p * 2 ^ Zpos d.
Proof.
  induction d as [|d IH] using Pos.peano_ind.
  - cbn. lia.
  - rewrite Pos.iter_succ, Pos2Z.inj_succ, Z.pow_succ_r by lia.
    rewrite Pos2Z.inj_xO, IH. lia.
Qed.

Lemma shr_1_m r : 0 <= shr_m r -> shr_m (shr_1 r) = shr_m r / 2.
Proof.
  destruct r as [m r s]. cbn [shr_m]. intros H.
  destruct m as [|[p|p|]|p]; cbn [shr_1 shr_m]; try lia.
  - reflexivity.
  - rewrite Pos2Z.inj_xI. apply Z.div_unique with 1; lia.
  - rewrite Pos2Z.inj_xO. apply Z.div_unique with 0; lia.
  - reflexivity.
Qed.

Lemma iter_pos_shr_1_m (n : positive) r :
  0 <= shr_m r -> shr_m (SpecFloat.iter_pos shr_1 n r) = shr_m r / 2 ^ Zpos n.
Proof.
  revert r. induction n as [n IH|n IH|]; intros r H; cbn [SpecFloat.iter_pos].
  - assert (H1 : 0 <= shr_m (shr_1 r)) by (rewrite shr_1_m by easy; apply Z.div_pos; lia).
    assert (H2 : 0 <= shr_m (SpecFloat.iter_pos shr_1 n (shr_1 r)))
      by (rewrite IH by easy; apply Z.div_pos; lia).
    rewrite IH, IH, shr_1_m by easy.
    rewrite !Z.div_div by lia.
    f_equal. change 2 with (2 ^ 1) at 1.
    rewrite <- !Z.pow_add_r by lia. f_equal. lia.
  - assert (H2 : 0 <= shr_m (SpecFloat.iter_pos shr_1 n r))
      by (rewrite IH by easy; apply Z.div_pos; lia).
    rewrite IH, IH by easy.
    rewrite !Z.div_div by lia.
    f_equal. rewrite <- Z.pow_add_r by lia. f_equal. lia.
  - rewrite shr_1_m by easy. reflexivity.
Qed.

Lemma shr_record_of_loc_m m l : shr_m (shr_record_of_loc m l) = m.
Proof. destruct l as [|[]]; reflexivity. Qed.

(** What [shr_fexp] does to a mantissa that is not negative. *)
Lemma shr_fexp_spec m e l :
  0 <= m ->
  let e' := Z.max e (fexp prec emax (Zdigits2 m + e)) in
  snd (shr_fexp prec emax m e l) = e' /\
  shr_m (fst (shr_fexp prec emax m e l)) = m / 2 ^ (e' - e).
Proof.
  intros Hm e'. unfold shr_fexp, shr.
  destruct (fexp prec emax (Zdigits2 m + e) - e) as [|n|n] eqn:Hs; cbn [fst snd].
  - replace e' with e by lia. rewrite shr_record_of_loc_m, Z.sub_diag.
    cbn. now rewrite Z.div_1_r.
  - replace e' with (e + Zpos n) by lia.
    rewrite iter_pos_shr_1_m by (rewrite shr_record_of_loc_m; easy).
    rewrite shr_record_of_loc_m. split; [easy|]. do 2 f_equal. lia.
  - replace e' with e by lia. rewrite shr_record_of_loc_m, Z.sub_diag.
    cbn. now rewrite Z.div_1_r.
Qed.

Lemma round_nearest_even_bounds m l :
  m <= round_nearest_even m l <= m + 1.
Proof.
  unfold round_nearest_even. destruct l as [|[]]; try lia.
  destruct (Z.even m); lia.
Qed.

Lemma fexp_eq x : fexp prec emax x = Z.max (x - 53) (-1074).
Proof. reflexivity. Qed.

Lemma shr_fexp_digits m e l :
  0 <= m ->
  0 <= shr_m (fst (shr_fexp prec emax m e l)) < 2 ^ 53.
Proof.
  intros Hm. destruct (shr_fexp_spec m e l Hm) as [_ ->].
  set (s := Z.max e (fexp prec emax (Zdigits2 m + e)) - e).
  assert (Hs : 0 <= s) by (unfold s; lia).
  assert (HD : Zdigits2 m <= 53 + s) by (unfold s; rewrite fexp_eq; lia).
  pose proof (Zdigits2_upper m Hm) as Hup.
  pose proof (Zdigits2_nonneg m) as Hnn.
  assert (Hpow : 2 ^ Zdigits2 m <= 2 ^ (53 + s)) by (apply Z.pow_le_mono_r; lia).
  rewrite Z.pow_add_r in Hpow by lia.
  assert (0 < 2 ^ s) by (apply Z.pow_pos_nonneg; lia).
  split.
  - apply Z.div_pos; lia.
  - apply Z.div_lt_upper_bound; lia.
Qed.

(** Rounding a mantissa that is not negative: never [nan], and the exponent
    of a finite result is bounded. *)
Lemma binary_round_aux_cases sx m e l :
  0 <= m ->
  let e1 := Z.max e (fexp prec emax (Zdigits2 m + e)) in
  binary_round_aux prec emax sx m e l = S754_zero sx \/
  (binary_round_aux prec emax sx m e l = S754_infinity sx /\
   emax - prec < e1 + 1) \/
  exists m' e',
    binary_round_aux prec emax sx m e l = S754_finite sx m' e' /\
    e' <= e1 + 1.
Proof.
  intros Hm e1. unfold binary_round_aux.
  pose proof (shr_fexp_spec m e l Hm) as [He1 _].
  pose proof (shr_fexp_digits m e l Hm) as Hd1.
  destruct (shr_fexp prec emax m e l) as [r1 e1'] eqn:H1. cbn [fst snd] in *.
  set (m1 := round_nearest_even (shr_m r1) (loc_of_shr_record r1)).
  pose proof (round_nearest_even_bounds (shr_m r1) (loc_of_shr_record r1))
    as Hr. fold m1 in Hr.
  assert (Hm1 : 0 <= m1) by lia.
  pose proof (shr_fexp_spec m1 e1' loc_Exact Hm1) as [He2 Hq].
  destruct (shr_fexp prec emax m1 e1' loc_Exact) as [r2 e2] eqn:H2.
  cbn [fst snd] in *.
  assert (HD1 : Zdigits2 m1 <= 54).
  { apply Zdigits2_le; [easy|lia|].
    change (2 ^ 54) with (2 ^ 53 * 2). lia. }
  assert (Hle : e2 <= e1 + 1).
  { subst e2 e1'. unfold e1. rewrite !fexp_eq. lia. }
  assert (Hq0 : 0 <= shr_m r2).
  { rewrite Hq. apply Z.div_pos; [easy|]. apply Z.pow_pos_nonneg; lia. }
  destruct (shr_m r2) as [|p|p]; [now left| |lia].
  destruct (Z.leb_spec e2 (emax - prec)).
  - right. right. eauto.
  - right. left. split; [easy|lia].
Qed.

Lemma binary_round_aux_canonical sx p e :
  fexp prec emax (Zpos (digits2_pos p) + e) = e ->
  e <= emax - prec ->
  binary_round_aux prec emax sx (Zpos p) e loc_Exact = S754_finite sx p e.
Proof.
  intros Hc He. unfold binary_round_aux, shr_fexp. cbn [Zdigits2].
  rewrite Hc, Z.sub_diag. cbn [shr shr_record_of_loc shr_m loc_of_shr_record
    round_nearest_even Zdigits2].
  rewrite Hc, Z.sub_diag. cbn [shr shr_record_of_loc shr_m].
  destruct (Z.leb_spec e (emax - prec)); [easy|lia].
Qed.

Lemma digits2_pos_iter_xO (d p : positive) :
  digits2_pos (Pos.iter xO p d) = (digits2_pos p + d)%positive.
Proof.
  induction d as [|d IH] using Pos.peano_ind.
  - cbn. lia.
  - rewrite Pos.iter_succ. cbn [digits2_pos]. rewrite IH. lia.
Qed.

Lemma float_of_int_zero : Prim2SF (float_of_int 0) = S754_zero false.
Proof. reflexivity. Qed.

(** The conversion of a positive count below [2^53] is exact: a positive
    finite number with an exponent between [-52] and [0]. *)
Lemma float_of_int_pos n :
  0 < n < 2 ^ 53 ->
  exists m e,
    Prim2SF (float_of_int n) = S754_finite false m e /\ -52 <= e <= 0.
Proof.
  intros Hn. unfold float_of_int.
  destruct (Z.ltb_spec n 0); [lia|].
  rewrite of_uint63_spec, Uint63.of_Z_spec.
  rewrite Z.mod_small by (change Uint63.wB with (2 ^ 63); lia).
  destruct n as [|p|p]; try lia. cbn [binary_normalize].
  unfold binary_round, shl_align.
  pose proof (digits2_pos_bounds p) as [Hlo Hhi].
  assert (Hd : Zpos (digits2_pos p) <= 53).
  { apply (Zdigits2_le (Zpos p)); lia. }
  rewrite fexp_eq.
  replace (Z.max (Z.pos (digits2_pos p) + 0 - 53) (-1074))
    with (Zpos (digits2_pos p) - 53) by lia.
  destruct (Zpos (digits2_pos p) - 53 - 0) as [|k|k] eqn:Hk; try lia.
  - exists p, 0. split; [|lia].
    apply binary_round_aux_canonical;
      [rewrite fexp_eq; lia | change (emax - prec) with 971; lia].
  - exists (Pos.iter xO p k), (Zpos (digits2_pos p) - 53). split; [|lia].
    apply binary_round_aux_canonical.
    + rewrite fexp_eq, digits2_pos_iter_xO. lia.
    + change (emax - prec) with 971. lia.
Qed.

(** What the validity of a primitive float says about a finite number. *)
Lemma Prim2SF_finite_bounds x s m e :
  Prim2SF x = S754_finite s m e ->
  Zpos m < 2 ^ 53 /\ -1074 <= e <= 971 /\
  fexp prec emax (Zpos (digits2_pos m) + e) = e.
Proof.
  intros Hx. pose proof (Prim2SF_valid x) as Hv. rewrite Hx in Hv.
  cbn in Hv. unfold bounded, canonical_mantissa in Hv.
  apply andb_prop in Hv as [Hc He].
  apply Z.eqb_eq in Hc. apply Z.leb_le in He.
  change (emax - prec) with 971 in He.
  pose proof (digits2_pos_bounds m) as [_ Hhi].
  assert (Hd : Zpos (digits2_pos m) <= 53) by (rewrite fexp_eq in Hc; lia).
  assert (2 ^ Zpos (digits2_pos m) <= 2 ^ 53) by (apply Z.pow_le_mono_r; lia).
  rewrite fexp_eq in Hc. repeat split; try lia. now rewrite fexp_eq.
Qed.

Lemma SFdiv_finite_cases sx mx ex sy my ey :
  Zpos mx < 2 ^ 53 ->
  Z.max (ex - ey) (-1074) + 1 <= 971 ->
  SF64div (S754_finite sx mx ex) (S754_finite sy my ey)
    = S754_zero (xorb sx sy) \/
  exists m e,
    SF64div (S754_finite sx mx ex) (S754_finite sy my ey)
      = S754_finite (xorb sx sy) m e /\
    e <= Z.max (ex - ey) (-1074) + 1.
Proof.
  intros Hmx Hb. unfold SF64div, SFdiv, SFdiv_core_binary.
  set (e' := Z.min _ (ex - ey)).
  set (s := ex - ey - e').
  set (m' := match s with Z.pos _ => Z.shiftl (Z.pos mx) s | 0 => Zpos mx
             | Z.neg _ => 0 end).
  assert (Hs : 0 <= s) by (unfold s, e'; lia).
  assert (Hm' : m' = Zpos mx * 2 ^ s).
  { unfold m'. destruct s as [|k|k]; try lia.
    now rewrite Z.shiftl_mul_pow2 by lia. }
  assert (H2s : 0 < 2 ^ s) by (apply Z.pow_pos_nonneg; lia).
  pose proof (Z_div_mod m' (Zpos my) ltac:(lia)) as Hdm.
  destruct (Z.div_eucl m' (Z.pos my)) as [q r]. destruct Hdm as [Hq Hr].
  assert (Hq0 : 0 <= q) by nia.
  assert (Hqm : q <= m') by nia.
  assert (HD : Zdigits2 q <= 53 + s).
  { apply Zdigits2_le; [easy|lia|]. rewrite Z.pow_add_r by lia. nia. }
  destruct (binary_round_aux_cases (xorb sx sy) q e' (new_location (Zpos my) r)
              Hq0) as [H|[[H Hinf]|(m & e & H & He)]].
  - now left.
  - exfalso. revert Hinf. rewrite fexp_eq. change (emax - prec) with 971.
    unfold s in HD. unfold e' in *. rewrite fexp_eq in *. lia.
  - right. exists m, e. split; [easy|].
    revert He. rewrite fexp_eq.
    unfold s in HD. unfold e' in *. rewrite fexp_eq in *. lia.
Qed.

(** The quotient of two counts is a number, and it is not infinite. *)
Lemma float_quotient_cases a t :
  0 <= a < 2 ^ 53 -> 0 < t < 2 ^ 53 ->
  exists s,
  Prim2SF (float_of_int a / float_of_int t) = S754_zero s \/
  exists m e,
    Prim2SF (float_of_int a / float_of_int t) = S754_finite false m e /\
    e <= 53.
Proof.
  intros Ha Ht. rewrite div_spec.
  destruct (float_of_int_pos t Ht) as (mt & et & -> & Het).
  destruct (Z.eq_dec a 0) as [->|Hne].
  - rewrite float_of_int_zero. cbn. eauto.
  - destruct (float_of_int_pos a ltac:(lia)) as (ma & ea & Hfa & Hea).
    destruct (Prim2SF_finite_bounds _ _ _ _ Hfa) as (Hma & _).
    rewrite Hfa.
    destruct (SFdiv_finite_cases false ma ea false mt et Hma ltac:(lia))
      as [H|(m & e & H & He)].
    + exists false. now left.
    + exists false. right. exists m, e. split; [easy|lia].
Qed.

Lemma float_hundred :
  Prim2SF 100%float = S754_finite false 7036874417766400 (-46).
Proof. reflexivity. Qed.

(** [int(rate * 100)] is defined for the quotient of two counts. *)
Lemma float_percent_cases a t :
  0 <= a < 2 ^ 53 -> 0 < t < 2 ^ 53 ->
  exists s,
  Prim2SF (float_of_int a / float_of_int t * 100) = S754_zero s \/
  exists m e,
    Prim2SF (float_of_int a / float_of_int t * 100) = S754_finite s m e.
Proof.
  intros Ha Ht. rewrite mul_spec, float_hundred.
  destruct (float_quotient_cases a t Ha Ht) as (s & [H|(m & e & H & He)]).
  - rewrite H. cbn. eauto.
  - destruct (Prim2SF_finite_bounds _ _ _ _ H) as (Hm & _).
    rewrite H. unfold SF64mul, SFmul.
    assert (H0 : 0 <= Zpos (m * 7036874417766400)) by lia.
    assert (HD : Zdigits2 (Zpos (m * 7036874417766400)) <= 106).
    { apply Zdigits2_le; [lia|lia|].
      change (2 ^ 106) with (2 ^ 53 * 2 ^ 53). rewrite Pos2Z.inj_mul.
      apply Z.mul_lt_mono_nonneg; lia. }
    destruct (binary_round_aux_cases (xorb false false)
                (Zpos (m * 7036874417766400)) (e + -46) loc_Exact H0)
      as [H1|[[H1 Hinf]|(m1 & e1 & H1 & He1)]].
    + rewrite H1. eauto.
    + exfalso. revert Hinf. rewrite fexp_eq. change (emax - prec) with 971.
      lia.
    + rewrite H1. exists (xorb false false). right. eauto.
Qed.

(** *** Comparisons *)

Lemma SFcompare_antisym x y :
  SFcompare y x = option_map CompOpp (SFcompare x y).
Proof.
  destruct x as [sx|sx| |sx mx ex], y as [sy|sy| |sy my ey];
    try destruct sx; try destruct sy; try reflexivity; cbn;
    pose proof (Pos.compare_cont_antisym mx my Eq) as Hp; cbn in Hp;
    rewrite (Z.compare_antisym ex ey), <- Hp;
    destruct (ex ?= ey); cbn; try reflexivity;
    destruct (Pos.compare_cont Eq mx my); reflexivity.
Qed.

Lemma SFcompare_refl x : x <> S754_nan -> SFcompare x x = Some Eq.
Proof.
  destruct x as [s|s| |s m e]; try destruct s; cbn; try easy;
    intros _;
    replace (e ?= e) with Eq by (symmetry; apply Z.compare_refl);
    replace (PosDef.Pos.compare_cont Eq m m) with Eq
      by (symmetry; apply Pos.compare_cont_refl);
    reflexivity.
Qed.

Lemma is_nan_Prim2SF x : is_nan x = false <-> Prim2SF x <> S754_nan.
Proof.
  unfold is_nan. rewrite FloatAxioms.eqb_spec. unfold SFeqb. split.
  - intros H Hn. rewrite Hn in H. cbn in H. easy.
  - intros H. now rewrite SFcompare_refl.
Qed.

Lemma SFcompare_None x y :
  SFcompare x y = None -> x = S754_nan \/ y = S754_nan.
Proof.
  destruct x as [sx|sx| |sx mx ex], y as [sy|sy| |sy my ey]; cbn; auto;
    discriminate.
Qed.

(** On numbers, [not (x <= y)] is [y < x]. *)
Lemma leb_false_ltb x y :
  is_nan x = false -> is_nan y = false ->
  (x <=? y)%float = negb (y <? x)%float.
Proof.
  rewrite !is_nan_Prim2SF, FloatAxioms.leb_spec, FloatAxioms.ltb_spec.
  unfold SFleb, SFltb. intros Hx Hy.
  rewrite (SFcompare_antisym (Prim2SF x) (Prim2SF y)).
  destruct (SFcompare (Prim2SF x) (Prim2SF y)) as [[]|] eqn:Hc;
    try reflexivity.
  apply SFcompare_None in Hc as [Hc|Hc]; contradiction.
Qed.

(** *** Subtraction from one *)

Lemma float_one :
  Prim2SF 1%float = S754_finite false 4503599627370496 (-52).
Proof. reflexivity. Qed.

Lemma binary_round_cases sx p e :
  binary_round prec emax sx p e = S754_zero sx \/
  binary_round prec emax sx p e = S754_infinity sx \/
  exists m' e', binary_round prec emax sx p e = S754_finite sx m' e'.
Proof.
  unfold binary_round.
  destruct (shl_align p e _) as [mz ez].
  destruct (binary_round_aux_cases sx (Zpos mz) ez loc_Exact ltac:(lia))
    as [H|[[H _]|(m1 & e1 & H & _)]]; rewrite H; eauto.
Qed.

Lemma binary_normalize_not_nan z e s0 :
  binary_normalize prec emax z e s0 <> S754_nan.
Proof.
  destruct z as [|p|p]; cbn [binary_normalize]; [easy| |].
  - destruct (binary_round_cases false p e) as [H|[H|(m1 & e1 & H)]];
      rewrite H; easy.
  - destruct (binary_round_cases true p e) as [H|[H|(m1 & e1 & H)]];
      rewrite H; easy.
Qed.

Lemma binary_normalize_nonneg z e s :
  0 <= z ->
  SFleb (S754_zero s) (binary_normalize prec emax z e false) = true.
Proof.
  intros Hz. destruct z as [|p|p]; cbn [binary_normalize]; [easy| |lia].
  destruct (binary_round_cases false p e) as [H|[H|(m1 & e1 & H)]];
    rewrite H; reflexivity.
Qed.

(** [1 - x] is a number when [x] is. *)
Lemma sub_one_not_nan x : is_nan x = false -> is_nan (1 - x) = false.
Proof.
  rewrite !is_nan_Prim2SF, sub_spec, float_one. intros Hx.
  unfold SF64sub, SFsub.
  destruct (Prim2SF x) as [s|s| |s m e]; try easy.
  apply binary_normalize_not_nan.
Qed.

(** [1 - x] is not negative when [x <= 1]. *)
Lemma sub_one_nonneg x s :
  (x <=? 1)%float = true ->
  SFleb (S754_zero s) (Prim2SF (1 - x)) = true.
Proof.
  intros Hle. rewrite FloatAxioms.leb_spec, float_one in Hle.
  rewrite sub_spec, float_one.
  destruct (Prim2SF x) as [sx|sx| |sx m e] eqn:Hx.
  - reflexivity.
  - destruct sx; [reflexivity|discriminate Hle].
  - discriminate Hle.
  - destruct (Prim2SF_finite_bounds _ _ _ _ Hx) as (Hm & He & _).
    remember 4503599627370496%positive as q eqn:Hq.
    unfold SF64sub, SFsub. apply binary_normalize_nonneg.
    unfold shl_align. destruct sx; cbn [cond_Zopp]; [lia|].
    unfold SFleb in Hle. cbn [SFcompare] in Hle.
    destruct (Z.compare_spec e (-52)) as [->|Hlt|Hgt]; [| |discriminate Hle].
    + replace (Z.min (-52) (-52) - -52) with 0 by lia. cbn [fst].
      change (PosDef.Pos.compare_cont Eq m q) with (Pos.compare m q) in Hle.
      destruct (Pos.compare_spec m q) as [Hc|Hc|Hc];
        [subst m; lia | lia | discriminate Hle].
    + replace (Z.min (-52) e) with e by lia. rewrite Z.sub_diag. cbn [fst].
      destruct (e - -52) as [|k|k] eqn:Hk; try lia. cbn [fst].
      rewrite iter_xO_spec.
      assert (2 ^ 1 <= 2 ^ Zpos k) by (apply Z.pow_le_mono_r; lia).
      assert (Hq2 : 2 ^ 53 = Zpos q * 2 ^ 1) by (subst q; reflexivity).
      rewrite Hq2 in Hm. nia.
Qed.

(** ** Every computation of the model only appends to the log *)

Create HintDb appends.

Ltac appends_step :=
  match goal with
  | |- forall _, _ => intro; cbv beta
  | |- appends (bind _ _) => apply appends_bind
  | |- appends (catch_called_process_error _ _) => apply appends_catch
  | |- appends (ret _) => apply appends_ret
  | |- appends (raise _) => apply appends_raise
  | |- appends out_of_fuel => apply appends_out_of_fuel
  | |- appends (if ?c then _ else _) => destruct c
  | |- appends (match ?x with _ => _ end) => destruct x
  | |- appends _ => solve [eauto with appends]
  end.

Ltac appends_tac := repeat appends_step.

Section Appends.

Variable b : backend.
Variable self : task.
Variable TIMEOUT : float.

Lemma appends_time_time : appends (time_time b).
Proof. apply (appends_emit (fun w => Ret (clock b (tick w)))). Qed.

Lemma appends_time_sleep secs : appends (time_sleep secs).
Proof.
  unfold time_sleep. appends_tac.
  apply (appends_emit (fun _ => Ret tt) (fun _ => EvSleep secs)).
Qed.

Lemma appends_terminate_job id reason : appends (terminate_job id reason).
Proof. apply (appends_emit (fun _ => Ret tt)). Qed.

Lemma appends_hard_terminate ids reason : appends (hard_terminate ids reason).
Proof. apply (appends_emit (fun _ => Raise (BatchJobException reason))). Qed.

Lemma appends_get_job_status id : appends (get_job_status b id).
Proof.
  apply appends_intro. intros w. unfold get_job_status.
  exists [EvQuery id (status_reply b (tick w) id)].
  destruct (status_reply b (tick w) id); cbn; (split; [easy | lia]).
Qed.

Lemma appends_submit_job i job : appends (submit_job b i job).
Proof.
  apply appends_intro. intros w. unfold submit_job.
  exists [EvSubmit i job (submit_reply b (tick w) job)].
  destruct (submit_reply b (tick w) job); cbn; (split; [easy | lia]).
Qed.

Lemma command_line_world cmd w :
  (command_line b cmd w).2 = emit (EvCommand cmd (shell b (tick w) cmd)) w.
Proof.
  unfold command_line.
  destruct (shell b (tick w) cmd) as [out|msg]; [|reflexivity].
  destruct (valid_utf8 out); [|reflexivity].
  now destruct (rev (split_newline out)) as [|l0 [|l1 ls]].
Qed.

Lemma appends_command_line cmd : appends (command_line b cmd).
Proof.
  apply appends_intro. intros w.
  exists [EvCommand cmd (shell b (tick w) cmd)].
  rewrite command_line_world. cbn. split; [easy | lia].
Qed.

Lemma appends_combine job_params : appends (combine b job_params).
Proof.
  apply (appends_emit
           (fun w => match combine_raises b (tick w) job_params with
                     | None => Ret tt
                     | Some e => Raise e
                     end)
           (fun _ => EvCombine job_params)).
Qed.

#[local] Hint Resolve appends_time_time appends_time_sleep
  appends_terminate_job appends_hard_terminate appends_get_job_status
  appends_submit_job appends_command_line appends_combine : appends.

Lemma appends_py_truediv x y : appends (py_truediv x y).
Proof. unfold py_truediv. appends_tac. Qed.

Lemma appends_py_int x : appends (py_int x).
Proof. unfold py_int. appends_tac. Qed.

#[local] Hint Resolve appends_py_truediv appends_py_int : appends.

Lemma appends_assert_timeout ids : appends (_assert_timeout b TIMEOUT ids).
Proof. unfold _assert_timeout. appends_tac. Qed.

Lemma appends_failure_rate stats : appends (failure_rate stats).
Proof. unfold failure_rate. appends_tac. Qed.

#[local] Hint Resolve appends_assert_timeout appends_failure_rate : appends.

Lemma appends_assert_success ids stats :
  appends (_assert_success self ids stats).
Proof. unfold _assert_success. appends_tac. Qed.

#[local] Hint Resolve appends_assert_success : appends.

Lemma appends_check_success_rate ids stats :
  appends (check_success_rate self ids stats).
Proof. unfold check_success_rate. appends_tac. Qed.

#[local] Hint Resolve appends_check_success_rate : appends.

Lemma appends_poll_jobs ids acc : appends (poll_jobs b ids acc).
Proof. revert acc. induction ids; intros acc; cbn; appends_tac. Qed.

#[local] Hint Resolve appends_poll_jobs : appends.

Lemma appends_monitor_cycle ids done_jobs :
  appends (monitor_cycle b self TIMEOUT ids done_jobs).
Proof. unfold monitor_cycle. appends_tac. Qed.

#[local] Hint Resolve appends_monitor_cycle : appends.

Lemma appends_monitor_while fuel ids done_jobs :
  appends (monitor_while b self TIMEOUT fuel ids done_jobs).
Proof. revert done_jobs. induction fuel; intros d; cbn; appends_tac. Qed.

Lemma appends_last_check_jobs ids acc : appends (last_check_jobs b ids acc).
Proof. revert acc. induction ids; intros acc; cbn; appends_tac. Qed.

#[local] Hint Resolve appends_monitor_while appends_last_check_jobs : appends.

Lemma appends_last_check ids : appends (last_check b self ids).
Proof. unfold last_check. appends_tac. Qed.

#[local] Hint Resolve appends_last_check : appends.

Lemma appends_monitor_batch_jobs fuel ids :
  appends (_monitor_batch_jobs b self TIMEOUT fuel ids).
Proof. unfold _monitor_batch_jobs. appends_tac. Qed.

Lemma appends_is_done params : appends (is_done params).
Proof. unfold is_done. appends_tac. Qed.

#[local] Hint Resolve appends_monitor_batch_jobs appends_is_done : appends.

Lemma appends_submit_jobs a s t i job_params ids :
  appends (submit_jobs b self TIMEOUT a s t i job_params ids).
Proof.
  revert i ids. induction job_params; intros i ids; cbn; appends_tac.
Qed.

#[local] Hint Resolve appends_submit_jobs : appends.

Lemma appends_execute fuel job_params ts :
  appends (execute b self TIMEOUT fuel job_params ts).
Proof. unfold execute. appends_tac. Qed.

End Appends.

#[export] Hint Resolve appends_time_time appends_time_sleep
  appends_terminate_job appends_hard_terminate appends_get_job_status
  appends_submit_job appends_command_line appends_combine
  appends_py_truediv appends_py_int appends_assert_timeout
  appends_failure_rate appends_assert_success appends_check_success_rate
  appends_poll_jobs appends_monitor_cycle appends_monitor_while
  appends_last_check_jobs appends_last_check appends_monitor_batch_jobs
  appends_is_done appends_submit_jobs appends_execute : appends.

Lemma appends_run b self fuel prepared : appends (run b self fuel prepared).
Proof.
  unfold run. appends_tac.
Qed.

(** ** The polling loop *)

Section Monitoring.

Variable b : backend.
Variable self : task.
Variable TIMEOUT : float.

Lemma tally_status_done id status stats done_jobs :
  done_jobs ⊆ (tally_status id status (stats, done_jobs)).2 /\
  (tally_status id status (stats, done_jobs)).2 ⊆ {[id]} ∪ done_jobs.
Proof.
  unfold tally_status.
  destruct (negb (is_tallied status)); cbn; [set_solver|].
  case_bool_decide; cbn; set_solver.
Qed.

Lemma poll_jobs_done ids acc w acc' w' :
  poll_jobs b ids acc w = (Ret acc', w') ->
  acc.2 ⊆ acc'.2 /\ acc'.2 ⊆ list_to_set ids ∪ acc.2.
Proof.
  revert acc w. induction ids as [|id ids IH]; intros acc w H; cbn in H.
  - inversion H; subst. set_solver.
  - apply bind_inv in H as [(s & w1 & _ & H)|[(e & _ & ?)|[_ ?]]]; try easy.
    apply IH in H as [Ha Hb]. destruct acc as [stats d].
    pose proof (tally_status_done id s stats d) as [H1 H2].
    cbn in *. clear IH. split; [set_solver|].
    intros x Hx. apply Hb in Hx. set_solver.
Qed.

Lemma monitor_cycle_done ids done_jobs w done_jobs' w' :
  monitor_cycle b self TIMEOUT ids done_jobs w = (Ret done_jobs', w') ->
  done_jobs ⊆ done_jobs' /\ done_jobs' ⊆ list_to_set ids ∪ done_jobs.
Proof.
  unfold monitor_cycle. intros H.
  apply bind_inv in H as [(_ & w1 & _ & H)|[(e & _ & ?)|[_ ?]]]; try easy.
  apply bind_inv in H as [(acc & w2 & Hp & H)|[(e & _ & ?)|[_ ?]]]; try easy.
  apply bind_inv in H as [(_ & w3 & _ & H)|[(e & _ & ?)|[_ ?]]]; try easy.
  apply bind_inv in H as [(_ & w4 & _ & H)|[(e & _ & ?)|[_ ?]]]; try easy.
  inversion H; subst. apply poll_jobs_done in Hp. cbn in Hp. easy.
Qed.

Lemma done_jobs_at_grows k ids d w d' :
  done_jobs_at b self TIMEOUT k ids d w = Some d' ->
  d ⊆ d' /\ d' ⊆ list_to_set ids ∪ d.
Proof.
  revert d w. induction k as [|k IH]; intros d w H; cbn in H.
  - inversion H; subst. set_solver.
  - destruct (jobs_pending ids d); [|easy].
    destruct (monitor_cycle b self TIMEOUT ids d w) as [[d1| |] w1] eqn:Hc;
      try easy.
    apply monitor_cycle_done in Hc. apply IH in H. set_solver.
Qed.

Lemma done_jobs_at_add i j ids d w d2 :
  done_jobs_at b self TIMEOUT (i + j) ids d w = Some d2 ->
  exists d1 w1,
    done_jobs_at b self TIMEOUT i ids d w = Some d1 /\
    done_jobs_at b self TIMEOUT j ids d1 w1 = Some d2.
Proof.
  revert d w. induction i as [|i IH]; intros d w H; cbn in *.
  - eauto.
  - destruct (jobs_pending ids d); [|easy].
    destruct (monitor_cycle b self TIMEOUT ids d w) as [[d1| |] w1];
      try easy.
    eauto.
Qed.

(** The loop returns the value [done_jobs] has at one of the evaluations of
    its condition. *)
Lemma monitor_while_done_jobs_at fuel ids d w d' w' :
  monitor_while b self TIMEOUT fuel ids d w = (Ret d', w') ->
  exists k, done_jobs_at b self TIMEOUT k ids d w = Some d'.
Proof.
  revert d w. induction fuel as [|fuel IH]; intros d w H; cbn in H.
  - easy.
  - destruct (jobs_pending ids d) eqn:Hp.
    + apply bind_inv in H as [(d1 & w1 & Hc & H)|[(e & _ & ?)|[_ ?]]];
        try easy.
      apply IH in H as [k Hk]. exists (S k). cbn. now rewrite Hp, Hc.
    + inversion H; subst. now exists O.
Qed.

(** C8: across the evaluations of the loop condition the set of done jobs
    only grows, and it holds submitted handles only: if it is [d1] at the
    [i]-th evaluation and [d2] at a later one, then [d1 ⊆ d2], and both are
    included in the set of the submitted handles. *)
Theorem C8_done_jobs_monotone_subset (i j : nat) (job_ids : list string)
  (w : world) (d1 d2 : gset string) :
  done_jobs_at b self TIMEOUT i job_ids ∅ w = Some d1 ->
  done_jobs_at b self TIMEOUT (i + j) job_ids ∅ w = Some d2 ->
  d1 ⊆ d2 /\ d1 ⊆ list_to_set job_ids /\ d2 ⊆ list_to_set job_ids.
Proof.
  intros H1 H2.
  apply done_jobs_at_add in H2 as (d1' & w1 & H1' & H2).
  rewrite H1 in H1'. inversion H1'; subst d1'.
  apply done_jobs_at_grows in H1, H2. set_solver.
Qed.

End Monitoring.

Lemma C8_done_jobs_monotone_subset_witness :
  ({["a"]} : gset string) ⊆ {["a"; "b"]} /\
  ({["a"]} : gset string) ⊆ list_to_set ["a"; "b"] /\
  ({["a"; "b"]} : gset string) ⊆ list_to_set ["a"; "b"].
Proof.
  apply (C8_done_jobs_monotone_subset (scripted two_jobs)
           (example_task default_success_rate None) example_deadline
           1 1 ["a"; "b"] initial_world); vm_compute; reflexivity.
Defined.

(** ** The tally of a cycle *)

Lemma dd_get_incr k k' (stats : gmap string Z) :
  dd_get k' (dd_incr k stats)
  = dd_get k' stats + (if bool_decide (k = k') then 1 else 0).
Proof.
  unfold dd_incr, dd_get. case_bool_decide as Hk.
  - subst k'. now rewrite lookup_insert_eq.
  - rewrite lookup_insert_ne by easy. lia.
Qed.

Lemma sum_values_empty : sum_values ∅ = 0.
Proof. unfold sum_values. now rewrite map_fold_empty. Qed.

Lemma sum_values_insert k v (stats : gmap string Z) :
  stats !! k = None -> sum_values (<[k := v]> stats) = v + sum_values stats.
Proof.
  intros Hk. unfold sum_values.
  rewrite map_fold_insert_L; [easy| |easy]. intros. lia.
Qed.

Lemma sum_values_incr k (stats : gmap string Z) :
  sum_values (dd_incr k stats) = sum_values stats + 1.
Proof.
  unfold dd_incr, dd_get. destruct (stats !! k) as [v|] eqn:Hk; cbn.
  - rewrite <- (insert_delete_id stats k v Hk) at 2.
    rewrite <- insert_delete_eq.
    rewrite !sum_values_insert by apply lookup_delete_eq. lia.
  - rewrite sum_values_insert by easy. lia.
Qed.

Lemma count_status_nil s : count_status s [] = 0.
Proof. reflexivity. Qed.

Lemma count_status_snoc s answers p :
  count_status s (answers ++ [p])
  = count_status s answers + (if bool_decide (p.2 = s) then 1 else 0).
Proof.
  unfold count_status. rewrite filter_app, length_app, Nat2Z.inj_add.
  f_equal. rewrite filter_cons, filter_nil.
  case_bool_decide; destruct (decide (p.2 = s)); try easy.
Qed.

Lemma count_status_nonneg s answers : 0 <= count_status s answers.
Proof. unfold count_status. lia. Qed.

Lemma is_tallied_cases s :
  is_tallied s = true <-> s = SUCCEEDED \/ s = FAILED \/ s = RUNNING.
Proof.
  unfold is_tallied. rewrite !orb_true_iff, !bool_decide_eq_true. tauto.
Qed.

Lemma cycle_tally_snoc answers p d :
  cycle_tally (answers ++ [p]) d = tally_status p.1 p.2 (cycle_tally answers d).
Proof. unfold cycle_tally. now rewrite foldl_snoc. Qed.

(** The tally counts the answers that are one of the three statuses, and
    nothing else. *)
Lemma cycle_tally_counts answers d :
  let stats := (cycle_tally answers d).1 in
  (forall k, dd_get k stats
             = if is_tallied k then count_status k answers else 0) /\
  (forall k v, stats !! k = Some v -> 0 < v) /\
  sum_values stats
  = count_status SUCCEEDED answers + count_status FAILED answers
    + count_status RUNNING answers /\
  sum_values stats <= Z.of_nat (length answers).
Proof.
  induction answers as [|p answers IH] using rev_ind; cbn zeta.
  - change (cycle_tally [] d).1 with (∅ : gmap string Z).
    rewrite sum_values_empty. split; [|split; [|split]].
    + intros k. unfold dd_get. rewrite lookup_empty. now destruct (is_tallied k).
    + intros k v. now rewrite lookup_empty.
    + reflexivity.
    + cbn. lia.
  - rewrite cycle_tally_snoc. cbn zeta in IH.
    destruct (cycle_tally answers d) as [stats dj]. cbn [fst] in IH.
    destruct IH as (Hget & Hpos & Hsum & Hlen).
    rewrite length_app, Nat2Z.inj_add. cbn [length].
    unfold tally_status.
    destruct (is_tallied p.2) eqn:Ht; cbn [negb].
    + assert (Hst : (if bool_decide (p.2 = RUNNING)
                then (dd_incr p.2 stats, dj)
                else (dd_incr p.2 stats, {[p.1]} ∪ dj)).1 = dd_incr p.2 stats)
        by (destruct (bool_decide (p.2 = RUNNING)); reflexivity).
      rewrite Hst. clear Hst. split; [|split; [|split]].
      * intros k. rewrite dd_get_incr, Hget, count_status_snoc.
        destruct (decide (p.2 = k)) as [<-|Hne].
        -- rewrite bool_decide_eq_true_2 by easy. rewrite Ht. lia.
        -- rewrite (bool_decide_eq_false_2 (p.2 = k)) by easy.
           destruct (is_tallied k); lia.
      * intros k v. unfold dd_incr.
        destruct (decide (p.2 = k)) as [<-|Hne].
        -- rewrite lookup_insert_eq. intros [= <-].
           pose proof (Hget p.2) as Hk. rewrite Ht in Hk.
           pose proof (count_status_nonneg p.2 answers). lia.
        -- rewrite lookup_insert_ne by easy. apply Hpos.
      * rewrite sum_values_incr, Hsum, !count_status_snoc.
        apply is_tallied_cases in Ht as [Hs | [Hs | Hs]]; rewrite Hs;
          repeat case_bool_decide; try easy; lia.
      * rewrite sum_values_incr. lia.
    + cbn [fst]. split; [|split; [|split]].
      * intros k. rewrite Hget, count_status_snoc.
        destruct (decide (p.2 = k)) as [<-|Hne].
        -- now rewrite Ht.
        -- rewrite (bool_decide_eq_false_2 (p.2 = k)) by easy.
           destruct (is_tallied k); lia.
      * apply Hpos.
      * rewrite Hsum, !count_status_snoc.
        repeat case_bool_decide; try lia;
          match goal with
          | H : p.2 = _ |- _ => rewrite H in Ht; discriminate Ht
          end.
      * lia.
Qed.

Lemma size_pos_lookup (stats : gmap string Z) :
  (Z.of_nat (size stats) >? 0) = true ->
  exists k v, stats !! k = Some v.
Proof.
  intros H. apply Z.gtb_lt in H.
  destruct (map_choose stats) as (k & v & Hk); [|eauto].
  intros ->. rewrite map_size_empty in H. lia.
Qed.

(** A tally that is not empty has a positive total. *)
Lemma cycle_tally_total_pos answers d :
  (Z.of_nat (size (cycle_tally answers d).1) >? 0) = true ->
  0 < sum_values (cycle_tally answers d).1.
Proof.
  intros H. apply size_pos_lookup in H as (k & v & Hk).
  destruct (cycle_tally_counts answers d) as (Hget & Hpos & Hsum & _).
  specialize (Hpos k v Hk). specialize (Hget k).
  unfold dd_get in Hget. rewrite Hk in Hget. cbn in Hget.
  rewrite Hsum.
  pose proof (count_status_nonneg SUCCEEDED answers).
  pose proof (count_status_nonneg FAILED answers).
  pose proof (count_status_nonneg RUNNING answers).
  destruct (is_tallied k) eqn:Ht; [|lia].
  apply is_tallied_cases in Ht as [Hs | [Hs | Hs]]; subst k; lia.
Qed.

Lemma count_status_none s answers :
  Forall (fun p : string * string => p.2 <> s) answers ->
  count_status s answers = 0.
Proof.
  intros H. unfold count_status.
  induction H as [|p answers Hp _ IH]; [reflexivity|].
  rewrite filter_cons. destruct (decide (p.2 = s)); [contradiction|exact IH].
Qed.

Lemma cycle_tally_done answers d id :
  id ∈ (cycle_tally answers d).2 <->
  id ∈ d \/ exists s, (id, s) ∈ answers /\ is_terminal s = true.
Proof.
  induction answers as [|p answers IH] using rev_ind.
  - cbn. split; [auto|]. intros [H|(s & H & _)]; [easy|].
    now apply elem_of_nil in H.
  - rewrite cycle_tally_snoc. destruct (cycle_tally answers d) as [stats dj].
    cbn [snd] in IH. unfold tally_status.
    assert (Hin : forall s, (id, s) ∈ answers ++ [p] <->
                            (id, s) ∈ answers \/ p = (id, s)).
    { intros s. rewrite elem_of_app, list_elem_of_singleton.
      split; intros [H|H]; auto. }
    destruct (is_tallied p.2) eqn:Htal; cbn [negb snd].
    + destruct (bool_decide (p.2 = RUNNING)) eqn:Hrun; cbn [snd].
      * apply bool_decide_eq_true in Hrun. rewrite IH. split.
        -- intros [H|(s & H & Hs)]; [auto|]. right. exists s.
           split; [apply Hin; auto|exact Hs].
        -- intros [H|(s & H & Hs)]; [auto|].
           apply Hin in H as [H| ->]; [right; eauto|].
           cbn in Hrun. subst s. discriminate Hs.
      * apply bool_decide_eq_false in Hrun.
        assert (Hterm : is_terminal p.2 = true).
        { apply is_tallied_cases in Htal as [H|[H|H]]; [| |contradiction];
            rewrite H; reflexivity. }
        rewrite elem_of_union, elem_of_singleton, IH. split.
        -- intros [->|[H|(s & H & Hs)]].
           ++ right. exists p.2. split; [|exact Hterm].
              apply Hin. right. now destruct p.
           ++ auto.
           ++ right. exists s. split; [apply Hin; auto|exact Hs].
        -- intros [H|(s & H & Hs)]; [auto|].
           apply Hin in H as [H| ->]; [right; right; eauto|]. now left.
    + rewrite IH. split.
      * intros [H|(s & H & Hs)]; [auto|]. right. exists s.
        split; [apply Hin; auto|exact Hs].
      * intros [H|(s & H & Hs)]; [auto|].
        apply Hin in H as [H| ->]; [right; eauto|].
        cbn in Htal. unfold is_tallied in Htal. unfold is_terminal in Hs.
        rewrite Hs in Htal. discriminate Htal.
Qed.

(** ** The failure-rate breaker *)

Section Breaker.

Variable self : task.

Lemma failure_rate_tally answers d w :
  (Z.of_nat (size (cycle_tally answers d).1) >? 0) = true ->
  failure_rate (cycle_tally answers d).1 w
  = (Ret (float_of_int (count_status FAILED answers)
          / float_of_int (count_status SUCCEEDED answers
                          + count_status FAILED answers
                          + count_status RUNNING answers))%float, w).
Proof.
  intros Hsize. pose proof (cycle_tally_total_pos answers d Hsize) as Hpos.
  destruct (cycle_tally_counts answers d) as (Hget & _ & Hsum & _).
  unfold failure_rate, py_truediv.
  destruct (Z.eqb_spec (sum_values (cycle_tally answers d).1) 0); [lia|].
  rewrite (Hget FAILED), Hsum. reflexivity.
Qed.

Lemma tally_count_bounds answers d :
  (Z.of_nat (size (cycle_tally answers d).1) >? 0) = true ->
  Z.of_nat (length answers) < 2 ^ 53 ->
  0 <= count_status FAILED answers < 2 ^ 53 /\
  0 < count_status SUCCEEDED answers + count_status FAILED answers
      + count_status RUNNING answers < 2 ^ 53.
Proof.
  intros Hsize Hlen.
  pose proof (cycle_tally_total_pos answers d Hsize) as Hpos.
  destruct (cycle_tally_counts answers d) as (_ & _ & Hsum & Hle).
  pose proof (count_status_nonneg SUCCEEDED answers).
  pose proof (count_status_nonneg FAILED answers).
  pose proof (count_status_nonneg RUNNING answers).
  lia.
Qed.

Lemma py_int_returns x w :
  (exists s, Prim2SF x = S754_zero s \/
             exists m e, Prim2SF x = S754_finite s m e) ->
  exists z, py_int x w = (Ret z, w).
Proof.
  intros (s & [H|(m & e & H)]); unfold py_int; rewrite H; eauto.
Qed.

Lemma float_quotient_not_nan a t :
  0 <= a < 2 ^ 53 -> 0 < t < 2 ^ 53 ->
  is_nan (float_of_int a / float_of_int t) = false.
Proof.
  intros Ha Ht. apply is_nan_Prim2SF.
  destruct (float_quotient_cases a t Ha Ht) as (s & [H|(m & e & H & _)]);
    rewrite H; easy.
Qed.

(** The breaker on the tally of a cycle that is not empty: the failure rate
    is the number of [FAILED] statuses divided by the number of
    [SUCCEEDED], [FAILED] and [RUNNING] statuses; when it is greater than
    [1 - success_rate] every handle is terminated in bulk, with a reason that
    holds the percentage [int(rate * 100)], and the exception of the breaker
    is raised; otherwise it is at most [1 - success_rate] and the world is
    left as it was. *)
Lemma assert_success_cases (answers : list (string * string))
  (d : gset string) (job_ids : list string) (w : world) :
  let stats := (cycle_tally answers d).1 in
  let rate := (float_of_int (count_status FAILED answers)
               / float_of_int (count_status SUCCEEDED answers
                               + count_status FAILED answers
                               + count_status RUNNING answers))%float in
  (Z.of_nat (size stats) >? 0) = true ->
  Z.of_nat (length answers) < 2 ^ 53 ->
  is_nan (success_rate self) = false ->
  failure_rate stats w = (Ret rate, w) /\
  ((1 - success_rate self <? rate)%float = true ->
   exists pct,
     py_int (rate * 100)%float w = (Ret pct, w) /\
     _assert_success self job_ids stats w
     = (Raise (BatchJobException (reason_failure_rate pct)),
        emit (EvHardTerminate job_ids (reason_failure_rate pct)) w)) /\
  ((1 - success_rate self <? rate)%float = false ->
   (rate <=? 1 - success_rate self)%float = true /\
   _assert_success self job_ids stats w = (Ret tt, w)).
Proof.
  intros stats rate Hsize Hlen Hnan.
  pose proof (failure_rate_tally answers d w Hsize) as Hrate.
  destruct (tally_count_bounds answers d Hsize Hlen) as [Hf Ht].
  pose proof (float_quotient_not_nan _ _ Hf Ht) as Hqn.
  pose proof (sub_one_not_nan _ Hnan) as Hsn.
  pose proof (leb_false_ltb _ _ Hqn Hsn) as Hcmp.
  subst stats rate.
  split; [exact Hrate|]. split.
  - intros Hlt. rewrite Hlt in Hcmp. cbn [negb] in Hcmp.
    destruct (py_int_returns _ w (float_percent_cases _ _ Hf Ht))
      as [pct Hpct].
    exists pct. split; [exact Hpct|].
    unfold _assert_success.
    rewrite (bind_ret_eq _ _ _ _ _ Hrate). cbv beta. rewrite Hcmp.
    rewrite (bind_ret_eq _ _ _ _ _ Hpct). reflexivity.
  - intros Hlt. rewrite Hlt in Hcmp. cbn [negb] in Hcmp.
    split; [exact Hcmp|].
    unfold _assert_success.
    rewrite (bind_ret_eq _ _ _ _ _ Hrate). cbv beta. rewrite Hcmp.
    reflexivity.
Qed.

End Breaker.

(** Two failures among twenty jobs, with the default [success_rate]: the
    breaker trips, and the reason holds [10%]. *)
Example breaker_two_in_twenty :
  _assert_success (example_task default_success_rate None) ["a"; "b"]
    (cycle_tally two_failures_in_twenty ∅).1 initial_world
  = (Raise (BatchJobException "Exiting due to high failure rate: 10%"),
     emit (EvHardTerminate ["a"; "b"] "Exiting due to high failure rate: 10%")
       initial_world).
Proof. vm_compute. reflexivity. Qed.

(** The percentage is the truncation of the binary64 product: 29 failures
    among 100 jobs are reported as [28%]. *)
Example breaker_percentage_truncates :
  py_int (float_of_int 29 / float_of_int 100 * 100)%float initial_world
  = (Ret 28, initial_world).
Proof. vm_compute. reflexivity. Qed.

(** ** Properties of the events of a computation *)

Lemma events_of_emit {A} (f : world -> outcome A) (g : world -> event) w :
  events_of (fun w => (f w, emit (g w) w)) w = [g w].
Proof. now apply events_of_spec. Qed.

Lemma events_of_nil {A} (m : M A) w : (m w).2 = w -> events_of m w = [].
Proof. intros H. apply events_of_spec. now rewrite H, app_nil_r. Qed.

Lemma events_of_get_job_status b id w :
  events_of (get_job_status b id) w
  = [EvQuery id (status_reply b (tick w) id)].
Proof.
  apply events_of_spec. unfold get_job_status.
  now destruct (status_reply b (tick w) id).
Qed.

Lemma events_of_submit_job b i job w :
  events_of (submit_job b i job) w
  = [EvSubmit i job (submit_reply b (tick w) job)].
Proof.
  apply events_of_spec. unfold submit_job.
  now destruct (submit_reply b (tick w) job).
Qed.

Lemma events_of_command_line b cmd w :
  events_of (command_line b cmd) w = [EvCommand cmd (shell b (tick w) cmd)].
Proof. apply events_of_spec. now rewrite command_line_world. Qed.

(** The outcome and the events of a sequence, by cases on its first part. *)
Lemma bind_run {A B} (m : M A) (k : A -> M B) w :
  appends m -> (forall a, appends (k a)) ->
  match m w with
  | (Ret a, w1) =>
      bind m k w = k a w1 /\
      events_of (bind m k) w = events_of m w ++ events_of (k a) w1
  | (Raise e, w1) =>
      bind m k w = (Raise e, w1) /\ events_of (bind m k) w = events_of m w
  | (OutOfFuel, w1) =>
      bind m k w = (OutOfFuel, w1) /\ events_of (bind m k) w = events_of m w
  end.
Proof.
  intros Hm Hk. rewrite (events_of_bind m k w Hm Hk). unfold bind.
  destruct (m w) as [[a|e|] w1]; cbn; rewrite ?app_nil_r; easy.
Qed.

Lemma all_events_mono (P Q : event -> Prop) {A} (m : M A) :
  (forall e, P e -> Q e) -> all_events P m -> all_events Q m.
Proof. intros HPQ Hm w. eapply Forall_impl; [apply Hm|exact HPQ]. Qed.

Lemma all_events_ret P {A} (a : A) : all_events P (ret a).
Proof. intros w. now rewrite events_of_nil. Qed.

Lemma all_events_raise P {A} e : all_events P (@raise A e).
Proof. intros w. now rewrite events_of_nil. Qed.

Lemma all_events_out_of_fuel P {A} : all_events P (@out_of_fuel A).
Proof. intros w. now rewrite events_of_nil. Qed.

Lemma all_events_emit P {A} (f : world -> outcome A) (g : world -> event) :
  (forall w, P (g w)) -> all_events P (fun w => (f w, emit (g w) w)).
Proof. intros H w. rewrite events_of_emit. auto. Qed.

Lemma all_events_bind P {A B} (m : M A) (k : A -> M B) :
  appends m -> (forall a, appends (k a)) ->
  all_events P m -> (forall a, all_events P (k a)) ->
  all_events P (bind m k).
Proof.
  intros Hm Hk HPm HPk w. rewrite (events_of_bind m k w Hm Hk).
  apply Forall_app. split; [apply HPm|].
  destruct (m w).1; [apply HPk|constructor|constructor].
Qed.

Lemma query_failure_aborts_quiet {A} (m : M A) :
  all_events (fun e => forall id msg, e <> EvQuery id (inr msg)) m ->
  query_failure_aborts m.
Proof.
  intros H w id msg Hin. specialize (H w).
  rewrite Forall_forall in H. exfalso. exact (H _ Hin id msg eq_refl).
Qed.

Lemma query_failure_aborts_bind {A B} (m : M A) (k : A -> M B) :
  appends m -> (forall a, appends (k a)) ->
  query_failure_aborts m -> (forall a, query_failure_aborts (k a)) ->
  query_failure_aborts (bind m k).
Proof.
  intros Hm Hk Qm Qk w id msg Hin.
  pose proof (bind_run m k w Hm Hk) as Hrun.
  specialize (Qm w id msg).
  destruct (m w) as [[a|e|] w1] eqn:Hmw; destruct Hrun as [Hb He];
    rewrite He in Hin |- *; rewrite Hb.
  - apply elem_of_app in Hin as [Hin|Hin].
    + apply Qm in Hin as [Hin _]. discriminate Hin.
    + destruct (Qk a w1 id msg Hin) as [Ho Hl]. split; [exact Ho|].
      rewrite last_app, Hl. reflexivity.
  - apply Qm in Hin as [Ho Hl]. cbn in *. split; congruence.
  - apply Qm in Hin as [Hin _]. discriminate Hin.
Qed.

Section EventsOfInteractions.

Variable b : backend.
Variable P : event -> Prop.

Lemma all_events_time_time :
  (forall t, P (EvClock t)) -> all_events P (time_time b).
Proof.
  intros H. apply (all_events_emit P (fun w => Ret (clock b (tick w)))).
  intros w. apply H.
Qed.

Lemma all_events_time_sleep secs :
  P (EvSleep secs) -> all_events P (time_sleep secs).
Proof.
  intros H. unfold time_sleep.
  destruct (_ || _); [apply all_events_raise|].
  destruct (_ <? _); [apply all_events_raise|].
  now apply (all_events_emit P (fun _ => Ret tt) (fun _ => EvSleep secs)).
Qed.

Lemma all_events_terminate_job id reason :
  P (EvTerminate id reason) -> all_events P (terminate_job id reason).
Proof. intros H. now apply (all_events_emit P (fun _ => Ret tt)). Qed.

Lemma all_events_hard_terminate ids reason :
  P (EvHardTerminate ids reason) -> all_events P (hard_terminate ids reason).
Proof.
  intros H.
  now apply (all_events_emit P (fun _ => Raise (BatchJobException reason))).
Qed.

Lemma all_events_combine job_params :
  P (EvCombine job_params) -> all_events P (combine b job_params).
Proof.
  intros H.
  now apply (all_events_emit P
               (fun w => match combine_raises b (tick w) job_params with
                         | None => Ret tt
                         | Some e => Raise e
                         end)
               (fun _ => EvCombine job_params)).
Qed.

Lemma all_events_get_job_status id :
  (forall r, P (EvQuery id r)) -> all_events P (get_job_status b id).
Proof. intros H w. rewrite events_of_get_job_status. auto. Qed.

Lemma all_events_submit_job i job :
  (forall r, P (EvSubmit i job r)) -> all_events P (submit_job b i job).
Proof. intros H w. rewrite events_of_submit_job. auto. Qed.

Lemma all_events_command_line cmd :
  (forall r, P (EvCommand cmd r)) -> all_events P (command_line b cmd).
Proof. intros H w. rewrite events_of_command_line. auto. Qed.

Lemma all_events_py_truediv x y : all_events P (py_truediv x y).
Proof.
  unfold py_truediv.
  destruct (x =? 0), (y =? 0); auto using all_events_raise, all_events_ret.
Qed.

Lemma all_events_py_int x : all_events P (py_int x).
Proof.
  unfold py_int.
  destruct (Prim2SF x); auto using all_events_raise, all_events_ret.
Qed.

Lemma all_events_is_done params : all_events P (is_done params).
Proof.
  unfold is_done.
  destruct (dict_get "done" params);
    auto using all_events_raise, all_events_ret.
Qed.

End EventsOfInteractions.

Ltac all_events_step :=
  match goal with
  | |- forall _, _ => intro; cbv beta
  | |- all_events _ (bind _ _) =>
      apply all_events_bind; [solve [appends_tac] | solve [appends_tac] | | ]
  | |- all_events _ (ret _) => apply all_events_ret
  | |- all_events _ (raise _) => apply all_events_raise
  | |- all_events _ out_of_fuel => apply all_events_out_of_fuel
  | |- all_events _ (time_time _) =>
      apply all_events_time_time; intros; try easy
  | |- all_events _ (time_sleep _) => apply all_events_time_sleep; try easy
  | |- all_events _ (terminate_job _ _) =>
      apply all_events_terminate_job; try easy
  | |- all_events _ (hard_terminate _ _) =>
      apply all_events_hard_terminate; try easy
  | |- all_events _ (get_job_status _ _) =>
      apply all_events_get_job_status; intros; try easy
  | |- all_events _ (py_truediv _ _) => apply all_events_py_truediv
  | |- all_events _ (py_int _) => apply all_events_py_int
  | |- all_events _ (is_done _) => apply all_events_is_done
  | |- all_events _ (if ?c then _ else _) => destruct c
  | |- all_events _ (match ?x with _ => _ end) => destruct x
  | |- all_events _ _ => solve [eauto]
  end.

Ltac all_events_tac := repeat all_events_step.

Section EventsOfMonitoring.

Variable b : backend.
Variable self : task.
Variable TIMEOUT : float.
Variable P : event -> Prop.

(** What [P] has to allow for the monitoring phase. *)
Hypothesis P_clock : forall t, P (EvClock t).
Hypothesis P_sleep : forall secs, P (EvSleep secs).
Hypothesis P_query : forall id r, P (EvQuery id r).
Hypothesis P_terminate : forall id reason, P (EvTerminate id reason).
Hypothesis P_hard_terminate : forall ids reason, P (EvHardTerminate ids reason).

Lemma all_events_assert_timeout ids :
  all_events P (_assert_timeout b TIMEOUT ids).
Proof. unfold _assert_timeout. all_events_tac. Qed.

Lemma all_events_assert_success ids stats :
  all_events P (_assert_success self ids stats).
Proof. unfold _assert_success, failure_rate. all_events_tac. Qed.

Lemma all_events_check_success_rate ids stats :
  all_events P (check_success_rate self ids stats).
Proof.
  unfold check_success_rate.
  destruct (_ >? _); [apply all_events_assert_success|apply all_events_ret].
Qed.

Lemma all_events_poll_jobs ids acc : all_events P (poll_jobs b ids acc).
Proof. revert acc. induction ids; intros acc; cbn; all_events_tac. Qed.

Lemma all_events_monitor_cycle ids d :
  all_events P (monitor_cycle b self TIMEOUT ids d).
Proof.
  pose proof all_events_assert_timeout.
  pose proof all_events_poll_jobs.
  pose proof all_events_check_success_rate.
  unfold monitor_cycle. all_events_tac.
Qed.

Lemma all_events_monitor_while fuel ids d :
  all_events P (monitor_while b self TIMEOUT fuel ids d).
Proof.
  pose proof all_events_monitor_cycle.
  revert d. induction fuel; intros d; cbn; all_events_tac.
Qed.

Lemma all_events_last_check_jobs ids acc :
  all_events P (last_check_jobs b ids acc).
Proof. revert acc. induction ids; intros acc; cbn; all_events_tac. Qed.

Lemma all_events_last_check ids : all_events P (last_check b self ids).
Proof.
  pose proof all_events_last_check_jobs.
  pose proof all_events_check_success_rate.
  unfold last_check. all_events_tac.
Qed.

Lemma all_events_monitor_batch_jobs fuel ids :
  all_events P (_monitor_batch_jobs b self TIMEOUT fuel ids).
Proof.
  pose proof all_events_monitor_while.
  pose proof all_events_last_check.
  unfold _monitor_batch_jobs. all_events_tac.
Qed.

End EventsOfMonitoring.

(** The monitoring phase reads the clock, sleeps, queries and terminates:
    it never submits and never combines. *)
Lemma monitor_batch_jobs_events b self TIMEOUT fuel ids :
  all_events is_monitor_event (_monitor_batch_jobs b self TIMEOUT fuel ids).
Proof. now apply all_events_monitor_batch_jobs. Qed.

(** ** A failed status query is not caught *)

Lemma query_failure_aborts_get_job_status b id :
  query_failure_aborts (get_job_status b id).
Proof.
  intros w id' msg. rewrite events_of_get_job_status.
  intros Hin. apply list_elem_of_singleton in Hin. inversion Hin as [[Hid Hr]].
  unfold get_job_status. now rewrite <- Hr.
Qed.

Ltac query_failure_step :=
  match goal with
  | |- forall _, _ => intro; cbv beta
  | |- query_failure_aborts (bind _ _) =>
      apply query_failure_aborts_bind;
      [solve [appends_tac] | solve [appends_tac] | | ]
  | |- query_failure_aborts (get_job_status _ _) =>
      apply query_failure_aborts_get_job_status
  | |- query_failure_aborts (if ?c then _ else _) => destruct c
  | |- query_failure_aborts (match ?x with _ => _ end) => destruct x
  | |- query_failure_aborts _ => solve [eauto]
  | |- query_failure_aborts _ =>
      apply query_failure_aborts_quiet; solve [all_events_tac]
  end.

Ltac query_failure_tac := repeat query_failure_step.

Section QueryFailure.

Variable b : backend.
Variable self : task.
Variable TIMEOUT : float.

Lemma query_failure_aborts_assert_timeout ids :
  query_failure_aborts (_assert_timeout b TIMEOUT ids).
Proof. unfold _assert_timeout. query_failure_tac. Qed.

Lemma query_failure_aborts_check_success_rate ids stats :
  query_failure_aborts (check_success_rate self ids stats).
Proof.
  unfold check_success_rate, _assert_success, failure_rate.
  query_failure_tac.
Qed.

Lemma query_failure_aborts_poll_jobs ids acc :
  query_failure_aborts (poll_jobs b ids acc).
Proof. revert acc. induction ids; intros acc; cbn; query_failure_tac. Qed.

Lemma query_failure_aborts_monitor_cycle ids d :
  query_failure_aborts (monitor_cycle b self TIMEOUT ids d).
Proof.
  pose proof query_failure_aborts_assert_timeout.
  pose proof query_failure_aborts_poll_jobs.
  pose proof query_failure_aborts_check_success_rate.
  unfold monitor_cycle. query_failure_tac.
Qed.

Lemma query_failure_aborts_monitor_while fuel ids d :
  query_failure_aborts (monitor_while b self TIMEOUT fuel ids d).
Proof.
  pose proof query_failure_aborts_monitor_cycle.
  revert d. induction fuel; intros d; cbn; query_failure_tac.
Qed.

Lemma query_failure_aborts_last_check_jobs ids acc :
  query_failure_aborts (last_check_jobs b ids acc).
Proof. revert acc. induction ids; intros acc; cbn; query_failure_tac. Qed.

Lemma query_failure_aborts_last_check ids :
  query_failure_aborts (last_check b self ids).
Proof.
  pose proof query_failure_aborts_last_check_jobs.
  pose proof query_failure_aborts_check_success_rate.
  unfold last_check. query_failure_tac.
Qed.

Lemma query_failure_aborts_monitor_batch_jobs fuel ids :
  query_failure_aborts (_monitor_batch_jobs b self TIMEOUT fuel ids).
Proof.
  pose proof query_failure_aborts_monitor_while.
  pose proof query_failure_aborts_last_check.
  unfold _monitor_batch_jobs. query_failure_tac.
Qed.

End QueryFailure.

(** ** One cycle of polling *)

Lemma queries_of_app evs1 evs2 :
  queries_of (evs1 ++ evs2) = queries_of evs1 ++ queries_of evs2.
Proof.
  induction evs1 as [|[] evs1 IH]; cbn; try easy. now rewrite IH.
Qed.

Lemma answers_of_app evs1 evs2 :
  answers_of (evs1 ++ evs2) = answers_of evs1 ++ answers_of evs2.
Proof.
  induction evs1 as [|[| | | |id [s|msg]| | |] evs1 IH]; cbn; try easy.
  now rewrite IH.
Qed.

Lemma no_query_events evs :
  Forall (fun e => forall id r, e <> EvQuery id r) evs ->
  queries_of evs = [] /\ answers_of evs = [].
Proof.
  induction 1 as [|e evs He _ [IH1 IH2]]; [easy|].
  destruct e; cbn; try easy. now destruct (He id r).
Qed.

Section Polling.

Variable b : backend.
Variable self : task.
Variable TIMEOUT : float.

Lemma get_job_status_eq id w :
  get_job_status b id w
  = (match status_reply b (tick w) id with
     | inl s => Ret s
     | inr msg => Raise (BackendError msg)
     end, emit (EvQuery id (status_reply b (tick w) id)) w).
Proof.
  unfold get_job_status. now destruct (status_reply b (tick w) id).
Qed.

(** When the polling loop ends, it has queried every handle once, in order,
    each query was answered, and the tally and the done jobs are those of
    the answers. *)
Lemma poll_jobs_ret ids acc w acc' w' :
  poll_jobs b ids acc w = (Ret acc', w') ->
  let evs := events_of (poll_jobs b ids acc) w in
  queries_of evs = ids /\
  (answers_of evs).*1 = ids /\
  acc' = foldl (fun a p => tally_status p.1 p.2 a) acc (answers_of evs).
Proof.
  revert acc w. induction ids as [|id ids IH]; intros acc w H; cbn in H |- *.
  - inversion H; subst. now rewrite events_of_nil.
  - pose proof (bind_run (get_job_status b id)
                  (fun status => poll_jobs b ids (tally_status id status acc))
                  w ltac:(appends_tac) ltac:(appends_tac)) as Hrun.
    rewrite events_of_get_job_status in Hrun.
    rewrite get_job_status_eq in Hrun.
    destruct (status_reply b (tick w) id) as [s|msg];
      destruct Hrun as [Hb He]; rewrite Hb in H; [|discriminate H].
    apply IH in H as (Hq & Ha & Hacc). cbn zeta in Hq, Ha, Hacc.
    cbn zeta. rewrite He, queries_of_app, answers_of_app.
    cbn [queries_of answers_of app]. rewrite Hq, fmap_cons, Ha.
    cbn [foldl fst snd]. now rewrite <- Hacc.
Qed.

(** The tally the breaker of a cycle is called on is [cycle_tally] of the
    answers of the cycle. *)
Lemma poll_jobs_cycle_tally ids d w acc w' :
  poll_jobs b ids (∅, d) w = (Ret acc, w') ->
  acc = cycle_tally (answers_of (events_of (poll_jobs b ids (∅, d)) w)) d.
Proof. intros H. now apply poll_jobs_ret in H as (_ & _ & H). Qed.

Lemma assert_timeout_no_query ids :
  all_events (fun e => forall id r, e <> EvQuery id r)
    (_assert_timeout b TIMEOUT ids).
Proof. unfold _assert_timeout. all_events_tac. Qed.

Lemma check_success_rate_no_query ids stats :
  all_events (fun e => forall id r, e <> EvQuery id r)
    (check_success_rate self ids stats).
Proof.
  unfold check_success_rate, _assert_success, failure_rate.
  all_events_tac.
Qed.

(** The check of the deadline reads the clock three times; the third
    reading decides. *)
Lemma assert_timeout_run ids w :
  let t := clock b (S (S (tick w))) in
  let clocks :=
    [EvClock (clock b (tick w)); EvClock (clock b (S (tick w))); EvClock t] in
  if (t <? TIMEOUT)%float then
    (_assert_timeout b TIMEOUT ids w).1 = Ret tt /\
    events_of (_assert_timeout b TIMEOUT ids) w = clocks
  else
    (_assert_timeout b TIMEOUT ids w).1
    = Raise (BatchJobException reason_timeout) /\
    events_of (_assert_timeout b TIMEOUT ids) w
    = clocks ++ [EvHardTerminate ids reason_timeout].
Proof.
  cbn zeta. unfold _assert_timeout, bind, time_time, hard_terminate, ret.
  cbn [tick emit].
  destruct (clock b (S (S (tick w))) <? TIMEOUT)%float eqn:Hlt; cbn [fst];
    (split; [reflexivity|]); apply events_of_spec; cbn; rewrite Hlt; cbn;
    now rewrite <- ?app_assoc.
Qed.

(** A cycle whose check of the deadline passes and whose queries are all
    answered: what is left of it is the breaker on the tally of the answers,
    then the sleep; the queries of the cycle are those of its polling loop,
    also when the breaker trips. *)
Lemma monitor_cycle_polled ids d w w1 acc w2 :
  _assert_timeout b TIMEOUT ids w = (Ret tt, w1) ->
  poll_jobs b ids (∅, d) w1 = (Ret acc, w2) ->
  let cycle := monitor_cycle b self TIMEOUT ids d in
  let rest :=
    (check_success_rate self ids acc.1 ;;;
     time_sleep (poll_time self) ;;; ret acc.2) in
  cycle w = rest w2 /\
  events_of cycle w
  = events_of (_assert_timeout b TIMEOUT ids) w
    ++ events_of (poll_jobs b ids (∅, d)) w1 ++ events_of rest w2 /\
  queries_of (events_of cycle w) = ids /\
  (answers_of (events_of cycle w)).*1 = ids /\
  acc = cycle_tally (answers_of (events_of cycle w)) d.
Proof.
  intros Ht Hp. cbn zeta. unfold monitor_cycle.
  pose proof (bind_run (_assert_timeout b TIMEOUT ids)
    (fun _ => acc <- poll_jobs b ids (∅, d);;
              (check_success_rate self ids acc.1;;;
               time_sleep (poll_time self);;; ret acc.2))
    w ltac:(appends_tac) ltac:(appends_tac)) as Hrun.
  pose proof (assert_timeout_no_query ids w) as Hq0.
  apply no_query_events in Hq0 as [Hq0 Ha0].
  rewrite Ht in Hrun. destruct Hrun as [Hb He]. rewrite Hb, He.
  rewrite !queries_of_app, !answers_of_app, Hq0, Ha0. cbn [app].
  clear Hb He Hq0 Ha0.
  pose proof (bind_run (poll_jobs b ids (∅, d))
    (fun acc => check_success_rate self ids acc.1;;;
                time_sleep (poll_time self);;; ret acc.2)
    w1 ltac:(appends_tac) ltac:(appends_tac)) as Hrun.
  rewrite Hp in Hrun. destruct Hrun as [Hb He]. rewrite Hb, He.
  rewrite !queries_of_app, !answers_of_app. clear Hb He.
  assert (Hrest : all_events (fun e => forall id r, e <> EvQuery id r)
            (check_success_rate self ids acc.1;;;
             time_sleep (poll_time self);;; ret acc.2)).
  { pose proof (check_success_rate_no_query ids acc.1). all_events_tac. }
  specialize (Hrest w2). apply no_query_events in Hrest as [Hq1 Ha1].
  rewrite Hq1, Ha1, !app_nil_r.
  pose proof (poll_jobs_cycle_tally ids d w1 acc w2 Hp) as Hacc.
  apply poll_jobs_ret in Hp as (Hq & Ha & _). cbn zeta in Hq, Ha.
  now repeat split.
Qed.

(** The queries of a cycle that completes are those of its polling loop. *)
Lemma monitor_cycle_ret ids d w d' w' :
  monitor_cycle b self TIMEOUT ids d w = (Ret d', w') ->
  let evs := events_of (monitor_cycle b self TIMEOUT ids d) w in
  queries_of evs = ids /\
  (answers_of evs).*1 = ids /\
  d' = (cycle_tally (answers_of evs) d).2.
Proof.
  intros H. pose proof H as H0. unfold monitor_cycle in H0.
  apply bind_inv in H0 as [([] & w1 & Ht & H0)|[(e & _ & ?)|[_ ?]]];
    try easy.
  apply bind_inv in H0 as [(acc & w2 & Hp & H0)|[(e & _ & ?)|[_ ?]]];
    try easy.
  destruct (monitor_cycle_polled ids d w w1 acc w2 Ht Hp)
    as (_ & _ & Hq & Ha & Hacc).
  cbn zeta. split; [exact Hq|]. split; [exact Ha|].
  apply bind_inv in H0 as [(u & w3 & _ & H0)|[(e & _ & ?)|[_ ?]]]; try easy.
  apply bind_inv in H0 as [(u' & w4 & _ & H0)|[(e & _ & ?)|[_ ?]]];
    try easy.
  cbn in H0. injection H0 as <- _. now rewrite <- Hacc.
Qed.

(** C3, as the code has it: in a cycle whose check of the deadline passes
    and whose status queries are all answered, every submitted handle is
    queried once, in order, whether the handle is among the done jobs or
    not.  The done jobs after the polling are the done jobs before it and
    the handles answered [SUCCEEDED] or [FAILED]; the tally counts the
    answers [SUCCEEDED], [FAILED] and [RUNNING] and holds no other status;
    and this tally and these done jobs are what the breaker is evaluated on
    and what the loop goes on with. *)
Theorem C3_every_handle_polled_and_classified (ids : list string)
  (d : gset string) (w w1 w2 : world) (acc : gmap string Z * gset string) :
  _assert_timeout b TIMEOUT ids w = (Ret tt, w1) ->
  poll_jobs b ids (∅, d) w1 = (Ret acc, w2) ->
  let evs := events_of (monitor_cycle b self TIMEOUT ids d) w in
  let answers := answers_of evs in
  queries_of evs = ids /\
  answers.*1 = ids /\
  (forall id,
     id ∈ acc.2 <->
     id ∈ d \/ exists s, (id, s) ∈ answers /\ (s = SUCCEEDED \/ s = FAILED)) /\
  (forall s, s = SUCCEEDED \/ s = FAILED \/ s = RUNNING ->
     dd_get s acc.1 = count_status s answers) /\
  (forall s, s <> SUCCEEDED -> s <> FAILED -> s <> RUNNING ->
     acc.1 !! s = None) /\
  monitor_cycle b self TIMEOUT ids d w
  = (check_success_rate self ids acc.1 ;;;
     time_sleep (poll_time self) ;;; ret acc.2) w2.
Proof.
  intros Ht Hp.
  destruct (monitor_cycle_polled ids d w w1 acc w2 Ht Hp)
    as (Hrun & _ & Hq & Ha & Hacc).
  cbn zeta in *.
  set (answers := answers_of (events_of (monitor_cycle b self TIMEOUT ids d) w))
    in *.
  destruct (cycle_tally_counts answers d) as (Hget & Hpos & _).
  cbn zeta in Hget, Hpos. rewrite <- Hacc in Hget, Hpos.
  split; [exact Hq|]. split; [exact Ha|]. split; [|split; [|split]].
  - intros id. rewrite Hacc, cycle_tally_done.
    split; (intros [Hd|(s & Hin & Hs)]; [now left|right; exists s]);
      (split; [exact Hin|]).
    + unfold is_terminal in Hs. apply orb_true_iff in Hs.
      now rewrite !bool_decide_eq_true in Hs.
    + unfold is_terminal. apply orb_true_iff.
      now rewrite !bool_decide_eq_true.
  - intros s Hs. rewrite Hget.
    now rewrite (proj2 (is_tallied_cases s) Hs).
  - intros s H1 H2 H3. specialize (Hget s).
    destruct (is_tallied s) eqn:Htal.
    { apply is_tallied_cases in Htal. tauto. }
    destruct (acc.1 !! s) as [v|] eqn:Hlook; [|reflexivity].
    specialize (Hpos s v Hlook). unfold dd_get in Hget.
    rewrite Hlook in Hget. cbn in Hget. lia.
  - exact Hrun.
Qed.

End Polling.

(** ** The breaker in a cycle of the monitoring *)

Section BreakerInCycle.

Variable b : backend.
Variable self : task.
Variable TIMEOUT : float.

Lemma poll_jobs_no_terminate ids : forall acc,
  all_events (fun e => is_terminate e = false) (poll_jobs b ids acc).
Proof. induction ids; intros acc; cbn [poll_jobs]; all_events_tac. Qed.


End BreakerInCycle.


Lemma C3_every_handle_polled_and_classified_witness :
  queries_of
    (events_of
       (monitor_cycle (scripted two_jobs)
          (example_task default_success_rate None) example_deadline
          ["a"; "b"] ∅) initial_world)
  = ["a"; "b"].
Proof.
  refine (proj1 (C3_every_handle_polled_and_classified (scripted two_jobs)
                   (example_task default_success_rate None) example_deadline
                   ["a"; "b"] ∅ initial_world _ _ _ _ _)).
  - reflexivity.
  - reflexivity.
Defined.

(** C3 as it is stated does not hold: the first cycle leaves job [a] among
    the done jobs, and the second cycle queries [a] again. *)
Lemma C3_done_handle_is_queried_again :
  let cycle :=
    monitor_cycle (scripted two_jobs)
      (example_task default_success_rate None) example_deadline ["a"; "b"] in
  (cycle ∅ initial_world).1 = Ret {["a"]} /\
  queries_of (events_of (cycle {["a"]}) (cycle ∅ initial_world).2)
  = ["a"; "b"].
Proof. split; vm_compute; reflexivity. Qed.

(** C4 as it is stated does not hold: one failed status query ends the run
    with the error of the batch client; the query is not made again. *)
Lemma C4_failed_query_aborts_the_run :
  let run_ :=
    _monitor_batch_jobs (scripted throttled)
      (example_task default_success_rate None) example_deadline 5 ["a"] in
  (run_ initial_world).1 = Raise (BackendError "ThrottlingException") /\
  queries_of (events_of run_ initial_world) = ["a"].
Proof. split; vm_compute; reflexivity. Qed.

(** C4, as the code has it: the monitoring has no handler around the status
    query.  A query that fails ends [_monitor_batch_jobs] with the error of
    the batch client, and the failed query is the last thing the run did: no
    job is classified and nothing is terminated on its account.  What is
    ignored for one cycle is a status that is none of [SUCCEEDED], [FAILED]
    and [RUNNING]: it changes neither the tally nor the done jobs. *)
Theorem C4_query_failure_propagates (b : backend) (self : task)
  (TIMEOUT : float) (fuel : nat) (job_ids : list string) (w : world)
  (id msg : string) :
  EvQuery id (inr msg)
    ∈ events_of (_monitor_batch_jobs b self TIMEOUT fuel job_ids) w ->
  (_monitor_batch_jobs b self TIMEOUT fuel job_ids w).1
  = Raise (BackendError msg) /\
  last (events_of (_monitor_batch_jobs b self TIMEOUT fuel job_ids) w)
  = Some (EvQuery id (inr msg)) /\
  forall id' status acc,
    is_tallied status = false -> tally_status id' status acc = acc.
Proof.
  intros Hin.
  destruct (query_failure_aborts_monitor_batch_jobs b self TIMEOUT fuel
              job_ids w id msg Hin) as [Ho Hl].
  repeat split; try assumption.
  intros id' status [stats dj] Ht. unfold tally_status. now rewrite Ht.
Qed.

Lemma C4_query_failure_propagates_witness :
  (_monitor_batch_jobs (scripted throttled)
     (example_task default_success_rate None) example_deadline 5 ["a"]
     initial_world).1
  = Raise (BackendError "ThrottlingException").
Proof.
  refine (proj1 (C4_query_failure_propagates (scripted throttled)
                   (example_task default_success_rate None) example_deadline
                   5 ["a"] initial_world "a" "ThrottlingException" _)).
  vm_compute. apply list_elem_of_In. cbn. tauto.
Defined.

(** ** The last check *)

Lemma reason_failure_rate_not_unexplained pct :
  reason_failure_rate pct <> reason_unexplained.
Proof. unfold reason_failure_rate, reason_unexplained. cbn. discriminate. Qed.

Section LastCheck.

Variable b : backend.
Variable self : task.
Variable TIMEOUT : float.

(** Every status query is answered. *)
Hypothesis answered : forall n id, exists s, status_reply b n id = inl s.

Lemma last_check_jobs_spec ids acc w :
  exists acc' w',
    last_check_jobs b ids acc w = (Ret acc', w') /\
    let evs := events_of (last_check_jobs b ids acc) w in
    queries_of evs = ids /\
    (forall id s, (id, s) ∈ answers_of evs -> is_terminal s = false ->
                  EvTerminate id reason_unexplained ∈ evs) /\
    acc'.2 = acc.2 || some_unexplained (answers_of evs) /\
    (some_unexplained (answers_of evs) = false ->
     Forall (fun e => forall id r, e <> EvTerminate id r) evs).
Proof.
  revert acc w. induction ids as [|id ids IH]; intros acc w; cbn.
  - exists acc, w. split; [easy|]. rewrite events_of_nil by easy. cbn.
    rewrite orb_false_r. repeat split; easy.
  - set (k := fun status : string =>
           if negb (is_terminal status)
           then terminate_job id reason_unexplained;;;
                last_check_jobs b ids (acc.1, true)
           else last_check_jobs b ids (dd_incr status acc.1, acc.2)).
    pose proof (bind_run (get_job_status b id) k w
                  ltac:(appends_tac) ltac:(subst k; appends_tac)) as Hrun.
    rewrite events_of_get_job_status, get_job_status_eq in Hrun.
    destruct (answered (tick w) id) as [s Hs]. rewrite Hs in Hrun.
    destruct Hrun as [Hb He]. fold k. rewrite Hb, He. clear Hb He.
    set (w1 := emit (EvQuery id (inl s)) w). unfold k.
    destruct (is_terminal s) eqn:Hterm; cbn [negb].
    + destruct (IH (dd_incr s acc.1, acc.2) w1)
        as (acc' & w' & Hr & Hq & Ht & Hu & Hn).
      exists acc', w'. split; [exact Hr|]. cbn zeta in *.
      rewrite queries_of_app, answers_of_app. cbn [queries_of answers_of app].
      rewrite Hq. cbn [some_unexplained existsb snd]. rewrite Hterm.
      cbn [negb orb]. repeat split.
      * intros id' s' Hin Hf. apply elem_of_cons in Hin as [Heq|Hin].
        -- inversion Heq; subst. congruence.
        -- apply elem_of_cons. right. exact (Ht id' s' Hin Hf).
      * exact Hu.
      * intros Hnone. constructor; [discriminate|now apply Hn].
    + set (k' := fun _ : unit => last_check_jobs b ids (acc.1, true)).
      pose proof (bind_run (terminate_job id reason_unexplained) k' w1
                    ltac:(appends_tac) ltac:(subst k'; appends_tac)) as Hrun.
      change (terminate_job id reason_unexplained w1)
        with (@Ret unit tt, emit (EvTerminate id reason_unexplained) w1)
        in Hrun.
      destruct Hrun as [Hb He]. fold k'. rewrite Hb, He. clear Hb He.
      change (events_of (terminate_job id reason_unexplained) w1)
        with (events_of (fun w => (@Ret unit tt,
                           emit (EvTerminate id reason_unexplained) w)) w1).
      rewrite events_of_emit. unfold k'.
      destruct (IH (acc.1, true) (emit (EvTerminate id reason_unexplained) w1))
        as (acc' & w' & Hr & Hq & Ht & Hu & Hn).
      exists acc', w'. split; [exact Hr|]. cbn zeta in *.
      rewrite !queries_of_app, !answers_of_app.
      cbn [queries_of answers_of app]. rewrite Hq.
      cbn [some_unexplained existsb snd]. rewrite Hterm.
      cbn [negb orb]. repeat split.
      * intros id' s' Hin Hf. apply elem_of_cons in Hin as [Heq|Hin].
        -- inversion Heq; subst. apply elem_of_cons. right.
           apply elem_of_cons. now left.
        -- apply elem_of_cons. right. apply elem_of_cons. right.
           exact (Ht id' s' Hin Hf).
      * rewrite Hu. cbn. now rewrite orb_true_r.
      * discriminate.
Qed.

Lemma check_success_rate_not_unexplained ids stats w :
  (check_success_rate self ids stats w).1
  <> Raise (BatchJobException reason_unexplained).
Proof.
  unfold check_success_rate, _assert_success, failure_rate, py_truediv.
  destruct (_ >? _); [|easy].
  destruct (sum_values stats =? 0); [easy|]. unfold bind, ret. cbn.
  destruct (_ <=? _)%float; [easy|]. unfold py_int.
  destruct (Prim2SF _); cbn; easy.
Qed.

Lemma check_success_rate_no_terminate_job ids stats :
  all_events (fun e => forall id r, e <> EvTerminate id r)
    (check_success_rate self ids stats).
Proof.
  unfold check_success_rate, _assert_success, failure_rate.
  all_events_tac.
Qed.

Lemma some_unexplained_true answers :
  some_unexplained answers = true <->
  exists id s, (id, s) ∈ answers /\ is_terminal s = false.
Proof.
  unfold some_unexplained. rewrite existsb_exists. split.
  - intros ([id s] & Hin & Hs). exists id, s.
    rewrite list_elem_of_In. split; [easy|]. now apply negb_true_iff in Hs.
  - intros (id & s & Hin & Hs). exists (id, s).
    rewrite <- list_elem_of_In. split; [easy|]. now apply negb_true_iff.
Qed.


End LastCheck.


(** ** The breaker never divides by zero *)

Lemma is_tally_empty : is_tally ∅.
Proof. now exists [], ∅. Qed.

Lemma is_tally_tally_status id status acc :
  is_tally acc.1 -> is_tally (tally_status id status acc).1.
Proof.
  intros (answers & d & Hacc). destruct acc as [stats dj]. cbn in Hacc.
  exists (answers ++ [(id, status)]), d. rewrite cycle_tally_snoc.
  destruct (cycle_tally answers d) as [stats' d']. cbn in Hacc. subst stats'.
  unfold tally_status. cbn [fst snd].
  destruct (negb (is_tallied status)); [reflexivity|].
  now destruct (bool_decide (status = RUNNING)).
Qed.

Lemma is_tally_incr status stats :
  is_terminal status = true -> is_tally stats -> is_tally (dd_incr status stats).
Proof.
  intros Ht Hs.
  pose proof (is_tally_tally_status "" status (stats, ∅) Hs) as H.
  unfold tally_status in H.
  assert (Htal : is_tallied status = true).
  { unfold is_tallied. unfold is_terminal in Ht. now rewrite Ht. }
  rewrite Htal in H. cbn [negb] in H.
  now destruct (bool_decide (status = RUNNING)).
Qed.

Lemma never_raises_bind e {A B} (m : M A) (k : A -> M B) (Q : A -> Prop) :
  never_raises e m ->
  (forall w a w', m w = (Ret a, w') -> Q a) ->
  (forall a, Q a -> never_raises e (k a)) ->
  never_raises e (bind m k).
Proof.
  intros Hm HQ Hk w. specialize (Hm w). specialize (HQ w). unfold bind.
  destruct (m w) as [[a|e'|] w1]; cbn in *.
  - apply Hk. now apply (HQ a w1).
  - congruence.
  - easy.
Qed.

Section NoDivisionByZero.

Variable b : backend.
Variable self : task.
Variable TIMEOUT : float.

Lemma assert_success_tally ids stats :
  is_tally stats -> (Z.of_nat (size stats) >? 0) = true ->
  never_raises ZeroDivisionError (_assert_success self ids stats).
Proof.
  intros (answers & d & ->) Hsize w.
  unfold _assert_success.
  rewrite (bind_ret_eq _ _ _ _ _ (failure_rate_tally answers d w Hsize)).
  destruct (_ <=? _)%float; [easy|].
  unfold bind, py_int. destruct (Prim2SF _); easy.
Qed.

Lemma check_success_rate_tally ids stats :
  is_tally stats ->
  never_raises ZeroDivisionError (check_success_rate self ids stats).
Proof.
  intros Ht w. unfold check_success_rate.
  destruct (_ >? _) eqn:Hsize; [|easy]. now apply assert_success_tally.
Qed.

Lemma assert_timeout_never_divides ids :
  never_raises ZeroDivisionError (_assert_timeout b TIMEOUT ids).
Proof.
  intros w. unfold _assert_timeout, bind, time_time. cbn.
  now destruct (_ <? _)%float.
Qed.

Lemma poll_jobs_tally ids acc w acc' w' :
  is_tally acc.1 -> poll_jobs b ids acc w = (Ret acc', w') -> is_tally acc'.1.
Proof.
  revert acc w. induction ids as [|id ids IH]; intros acc w Ht H; cbn in H.
  - now inversion H; subst.
  - apply bind_inv in H as [(s & w1 & _ & H)|[(e & _ & ?)|[_ ?]]]; try easy.
    eapply IH; [|exact H]. now apply is_tally_tally_status.
Qed.

Lemma poll_jobs_never_divides ids acc :
  never_raises ZeroDivisionError (poll_jobs b ids acc).
Proof.
  revert acc. induction ids as [|id ids IH]; intros acc; cbn; [easy|].
  apply (never_raises_bind _ _ _ (fun _ => True)); [|easy|auto].
  intros w. rewrite get_job_status_eq.
  now destruct (status_reply b (tick w) id).
Qed.

Lemma monitor_cycle_never_divides ids d :
  never_raises ZeroDivisionError (monitor_cycle b self TIMEOUT ids d).
Proof.
  unfold monitor_cycle.
  apply (never_raises_bind _ _ _ (fun _ => True));
    [apply assert_timeout_never_divides|easy|intros _ _].
  apply (never_raises_bind _ _ _ (fun acc => is_tally acc.1));
    [apply poll_jobs_never_divides| |].
  - intros w acc w' H. eapply poll_jobs_tally; [|exact H]. apply is_tally_empty.
  - intros acc Ht.
    apply (never_raises_bind _ _ _ (fun _ => True));
      [now apply check_success_rate_tally|easy|intros _ _].
    intros w. unfold bind, time_sleep.
    destruct (_ || _); [easy|]. now destruct (_ <? _).
Qed.

Lemma monitor_while_never_divides fuel ids d :
  never_raises ZeroDivisionError (monitor_while b self TIMEOUT fuel ids d).
Proof.
  revert d. induction fuel as [|fuel IH]; intros d; cbn; [easy|].
  destruct (jobs_pending ids d); [|easy].
  apply (never_raises_bind _ _ _ (fun _ => True)); [|easy|auto].
  apply monitor_cycle_never_divides.
Qed.

Lemma last_check_jobs_tally ids acc w acc' w' :
  is_tally acc.1 ->
  last_check_jobs b ids acc w = (Ret acc', w') -> is_tally acc'.1.
Proof.
  revert acc w. induction ids as [|id ids IH]; intros acc w Ht H; cbn in H.
  - now inversion H; subst.
  - apply bind_inv in H as [(s & w1 & _ & H)|[(e & _ & ?)|[_ ?]]]; try easy.
    destruct (is_terminal s) eqn:Hs; cbn [negb] in H.
    + eapply IH; [|exact H]. now apply is_tally_incr.
    + apply bind_inv in H as [(u & w2 & _ & H)|[(e & _ & ?)|[_ ?]]];
        try easy.
      eapply IH; [|exact H]. exact Ht.
Qed.

Lemma last_check_jobs_never_divides ids acc :
  never_raises ZeroDivisionError (last_check_jobs b ids acc).
Proof.
  revert acc. induction ids as [|id ids IH]; intros acc; cbn; [easy|].
  apply (never_raises_bind _ _ _ (fun _ => True)); [|easy|].
  - intros w. rewrite get_job_status_eq.
    now destruct (status_reply b (tick w) id).
  - intros s _. destruct (negb (is_terminal s)); [|apply IH].
    apply (never_raises_bind _ _ _ (fun _ => True)); [easy|easy|auto].
Qed.

Lemma last_check_never_divides ids :
  never_raises ZeroDivisionError (last_check b self ids).
Proof.
  unfold last_check.
  apply (never_raises_bind _ _ _ (fun acc => is_tally acc.1));
    [apply last_check_jobs_never_divides| |].
  - intros w acc w' H. eapply last_check_jobs_tally; [|exact H].
    apply is_tally_empty.
  - intros acc Ht. destruct acc.2; [easy|].
    now apply check_success_rate_tally.
Qed.

(** C9: the breaker is called on a tally only when the tally is not empty
    ([check_success_rate] is the guarded call of the source); a tally that
    is not empty has a total that is the number of [SUCCEEDED], [FAILED] and
    [RUNNING] answers and is positive, so that its failure rate is computed;
    and the monitoring never ends with a division by zero. *)
Theorem C9_breaker_never_divides_by_zero (fuel : nat) (job_ids : list string)
  (w : world) :
  (_monitor_batch_jobs b self TIMEOUT fuel job_ids w).1
  <> Raise ZeroDivisionError /\
  (forall stats, size stats = O ->
     check_success_rate self job_ids stats w = (Ret tt, w)) /\
  (forall answers d,
     size (cycle_tally answers d).1 <> O ->
     let stats := (cycle_tally answers d).1 in
     sum_values stats
     = count_status SUCCEEDED answers + count_status FAILED answers
       + count_status RUNNING answers /\
     0 < sum_values stats /\
     check_success_rate self job_ids stats w = _assert_success self job_ids stats w /\
     exists rate, failure_rate stats w = (Ret rate, w)).
Proof.
  split; [|split].
  - unfold _monitor_batch_jobs.
    apply (never_raises_bind _ _ _ (fun _ => True));
      [apply monitor_while_never_divides|easy|intros _ _].
    apply last_check_never_divides.
  - intros stats Hs. unfold check_success_rate. now rewrite Hs.
  - intros answers d Hsize stats. subst stats.
    assert (Hpos : (Z.of_nat (size (cycle_tally answers d).1) >? 0) = true)
      by (apply Z.gtb_lt; lia).
    destruct (cycle_tally_counts answers d) as (_ & _ & Hsum & _).
    split; [exact Hsum|]. split; [now apply cycle_tally_total_pos|].
    split; [unfold check_success_rate; now rewrite Hpos|].
    eexists. now apply failure_rate_tally.
Qed.

End NoDivisionByZero.

(** ** The submission loop *)

Lemma submissions_of_app evs1 evs2 :
  submissions_of (evs1 ++ evs2) = submissions_of evs1 ++ submissions_of evs2.
Proof.
  induction evs1 as [|[] evs1 IH]; cbn; try easy. now rewrite IH.
Qed.

Lemma handles_of_app evs1 evs2 :
  handles_of (evs1 ++ evs2) = handles_of evs1 ++ handles_of evs2.
Proof.
  induction evs1 as [|[| | |i job [id|msg]| | | |] evs1 IH]; cbn; try easy.
  now rewrite IH.
Qed.

Lemma no_submit_events evs :
  Forall (fun e => forall i job r, e <> EvSubmit i job r) evs ->
  submissions_of evs = [] /\ handles_of evs = [].
Proof.
  induction 1 as [|e evs He _ [IH1 IH2]]; [easy|].
  destruct e; cbn; try easy. now destruct (He i job r).
Qed.

Lemma monitor_events_no_submit evs :
  Forall is_monitor_event evs ->
  submissions_of evs = [] /\ handles_of evs = [].
Proof.
  intros H. apply no_submit_events. eapply Forall_impl; [exact H|].
  intros [] He; try easy.
Qed.

Section Submission.

Variable b : backend.
Variable self : task.
Variable TIMEOUT : float.
Variables aws_id aws_secret s3file_timestamp : string.

Abbreviation submit_loop :=
  (submit_jobs b self TIMEOUT aws_id aws_secret s3file_timestamp).
Abbreviation loop_event :=
  (is_submit_loop_event self aws_id aws_secret s3file_timestamp).

Lemma submit_job_eq i job w :
  submit_job b i job w
  = (match submit_reply b (tick w) job with
     | inl id => Ret id
     | inr msg => Raise (BackendError msg)
     end, emit (EvSubmit i job (submit_reply b (tick w) job)) w).
Proof.
  unfold submit_job. now destruct (submit_reply b (tick w) job).
Qed.

Lemma loop_event_shift i params rest e :
  loop_event (S i) rest e -> loop_event i (params :: rest) e.
Proof.
  destruct e; cbn; try easy.
  intros (p & v & Hle & Hl & Hd & Ht & Hm & Hj). exists p, v.
  repeat split; try easy; try lia.
  replace (i0 - i)%nat with (S (i0 - S i)) by lia. exact Hl.
Qed.

Lemma assert_timeout_loop_events ids i job_params :
  all_events (loop_event i job_params) (_assert_timeout b TIMEOUT ids).
Proof. unfold _assert_timeout. all_events_tac. Qed.

Lemma assert_timeout_no_submit ids :
  all_events (fun e => forall i job r, e <> EvSubmit i job r)
    (_assert_timeout b TIMEOUT ids).
Proof. unfold _assert_timeout. all_events_tac. Qed.

(** The submission loop, whatever its outcome: its events are those of
    [is_submit_loop_event]; with a cap of [n] runs, it makes at most
    [n - i] submissions from position [i] on; and when it returns, the
    handles it returns are those it had, followed by the handles of the
    submissions that were accepted. *)
Lemma submit_jobs_spec job_params : forall i ids w,
  let evs := events_of (submit_loop i job_params ids) w in
  Forall (loop_event i job_params) evs /\
  (forall n, max_runs self = Some n ->
     Z.of_nat (length (submissions_of evs)) <= Z.max 0 (n - Z.of_nat i)) /\
  (forall ids', (submit_loop i job_params ids w).1 = Ret ids' ->
     ids' = ids ++ (handles_of evs).*2).
Proof.
  induction job_params as [|params rest IH]; intros i ids w; cbn zeta.
  - cbn [submit_jobs]. rewrite events_of_nil by easy. cbn.
    repeat split; [constructor|lia|].
    intros ids' [= <-]. now rewrite app_nil_r.
  - cbn [submit_jobs].
    set (k1 := fun _ : unit =>
      skip <- is_done params;;
      (if skip : bool then submit_loop (S i) rest ids
       else if max_runs_reached self i then ret ids
       else id_ <- submit_job b i
                     (job_of self aws_id aws_secret s3file_timestamp params);;
            submit_loop (S i) rest (ids ++ [id_]))).
    pose proof (bind_run (_assert_timeout b TIMEOUT ids) k1 w
      ltac:(appends_tac) ltac:(subst k1; appends_tac)) as Hrun.
    pose proof (assert_timeout_loop_events ids i (params :: rest) w) as Het.
    pose proof (assert_timeout_no_submit ids w) as Hns.
    apply no_submit_events in Hns as [Hns Hnh].
    fold k1.
    destruct (_assert_timeout b TIMEOUT ids w) as [[[]|e|] w1];
      destruct Hrun as [Hb He]; rewrite Hb, He; clear Hb He.
    2,3: rewrite Hns, Hnh; cbn; repeat split; [exact Het|lia|discriminate].
    rewrite submissions_of_app, handles_of_app, Hns, Hnh. cbn [app].
    unfold k1.
    destruct (dict_get "done" params) as [v|] eqn:Hdone.
    2:{ assert (Hk : forall m : bool -> M (list string),
                  bind (is_done params) m = raise (KeyError "done")).
        { intros m. unfold is_done. now rewrite Hdone. }
        rewrite !Hk. rewrite (events_of_nil _ w1) by easy.
        rewrite app_nil_r. cbn.
        repeat split; [exact Het|lia|discriminate]. }
    assert (Hk : forall m : bool -> M (list string),
               bind (is_done params) m = m (truthy v)).
    { intros m. unfold is_done. now rewrite Hdone. }
    rewrite !Hk. clear Hk.
    destruct (truthy v) eqn:Htruthy.
    + (* done: skipped *)
      destruct (IH (S i) ids w1) as (Hev & Hcap & Hids). cbn zeta in *.
      repeat split.
      * apply Forall_app. split; [exact Het|].
        eapply Forall_impl; [exact Hev|]. apply loop_event_shift.
      * intros n Hn. specialize (Hcap n Hn). lia.
      * exact Hids.
    + destruct (max_runs_reached self i) eqn:Hreached.
      * (* break *)
        rewrite (events_of_nil _ w1) by easy. rewrite app_nil_r. cbn.
        repeat split; [exact Het|lia|].
        intros ids' [= <-]. now rewrite app_nil_r.
      * (* submitted *)
        set (job := job_of self aws_id aws_secret s3file_timestamp params).
        set (k2 := fun id_ : string => submit_loop (S i) rest (ids ++ [id_])).
        pose proof (bind_run (submit_job b i job) k2 w1
          ltac:(appends_tac) ltac:(subst k2; appends_tac)) as Hrun.
        rewrite events_of_submit_job, submit_job_eq in Hrun.
        fold k2.
        assert (Hthis : loop_event i (params :: rest)
                          (EvSubmit i job (submit_reply b (tick w1) job))).
        { cbn. exists params, v. rewrite Nat.sub_diag. now repeat split. }
        destruct (submit_reply b (tick w1) job) as [id_|msg] eqn:Hreply;
          destruct Hrun as [Hb He]; rewrite Hb, He; clear Hb He.
        -- destruct (IH (S i) (ids ++ [id_]) (emit (EvSubmit i job (inl id_)) w1))
             as (Hev & Hcap & Hids). cbn zeta in *. unfold k2.
           rewrite submissions_of_app, handles_of_app.
           cbn [submissions_of handles_of app length fmap list_fmap snd].
           repeat split.
           ++ apply Forall_app. split; [exact Het|].
              constructor; [exact Hthis|].
              eapply Forall_impl; [exact Hev|]. apply loop_event_shift.
           ++ intros n Hn. specialize (Hcap n Hn).
              unfold max_runs_reached in Hreached. rewrite Hn in Hreached.
              rewrite Z.geb_leb in Hreached. apply Z.leb_gt in Hreached. lia.
           ++ intros ids' Hret. apply Hids in Hret.
              now rewrite Hret, <- app_assoc.
        -- cbn. repeat split.
           ++ apply Forall_app. split; [exact Het|]. now constructor.
           ++ intros n Hn.
              unfold max_runs_reached in Hreached. rewrite Hn in Hreached.
              rewrite Z.geb_leb in Hreached. apply Z.leb_gt in Hreached. lia.
           ++ discriminate.
Qed.

End Submission.

(** ** [execute] and [run] *)

Lemma elem_of_submissions_of i evs :
  i ∈ submissions_of evs <-> exists job r, EvSubmit i job r ∈ evs.
Proof.
  induction evs as [|e evs IH]; cbn.
  - split; [intros H; now apply elem_of_nil in H|].
    intros (job & r & H). now apply elem_of_nil in H.
  - destruct e; try (rewrite IH; split; intros (job' & r' & H);
      exists job', r'; [now apply elem_of_cons; right|
      apply elem_of_cons in H as [H|H]; [discriminate H|exact H]]).
    rewrite elem_of_cons, IH. split.
    + intros [->|(job' & r' & H)].
      * exists job, r. apply elem_of_cons. now left.
      * exists job', r'. apply elem_of_cons. now right.
    + intros (job' & r' & H). apply elem_of_cons in H as [H|H].
      * inversion H. now left.
      * right. eauto.
Qed.

Lemma handles_of_submissions evs :
  (handles_of evs).*1 ⊆ submissions_of evs.
Proof.
  induction evs as [|[| | |i job [id|msg]| | | |] evs IH]; cbn; try easy.
  - now apply list_subseteq_skip.
  - now apply list_subseteq_cons.
Qed.

Section Execute.

Variable b : backend.
Variable self : task.

Lemma all_events_submit_jobs TIMEOUT aws_id aws_secret ts job_params :
  all_events (is_execute_event self ts job_params)
    (submit_jobs b self TIMEOUT aws_id aws_secret ts 0 job_params []).
Proof.
  intros w.
  destruct (submit_jobs_spec b self TIMEOUT aws_id aws_secret ts job_params
              0%nat [] w) as (Hev & _).
  eapply Forall_impl; [exact Hev|]. intros e He. right. left. eauto.
Qed.

Lemma all_events_execute TIMEOUT fuel job_params ts :
  all_events (is_execute_event self ts job_params)
    (execute b self TIMEOUT fuel job_params ts).
Proof.
  unfold execute.
  apply all_events_bind; [appends_tac|appends_tac| |intros aws_id].
  { apply all_events_command_line. intros r. left. eauto. }
  apply all_events_bind; [appends_tac|appends_tac| |intros aws_secret].
  { apply all_events_command_line. intros r. left. eauto. }
  apply all_events_bind; [appends_tac|appends_tac| |intros ids].
  { apply all_events_submit_jobs. }
  eapply all_events_mono; [|apply monitor_batch_jobs_events].
  intros e He. right. now right.
Qed.

Lemma all_events_catch P {A} (m h : M A) :
  appends m -> appends h ->
  all_events P m -> all_events P h ->
  all_events P (catch_called_process_error m h).
Proof.
  intros Am Ah Hm Hh w. specialize (Hm w). destruct (Am w) as [Hl _].
  unfold events_of at 1. unfold catch_called_process_error.
  remember (events_of m w) as evs eqn:Hevs. unfold events_of in Hevs.
  destruct (m w) as [[a|e|] w1]; cbn in *; try (now subst evs).
  destruct e; try (now subst evs).
  destruct (Ah w1) as [Hl1 _]. rewrite Hl1, Hl, <- app_assoc.
  rewrite drop_app_length. apply Forall_app. split; [exact Hm|apply Hh].
Qed.

(** The events of [run] are those of [execute] and of [combine] on the list
    [test_subset self prepared], besides the reading of the clock and the
    command that prepares the environment. *)
Lemma all_events_run fuel prepared :
  all_events (is_run_event self (test_subset self prepared))
    (run b self fuel prepared).
Proof.
  unfold run.
  apply all_events_bind; [appends_tac|appends_tac| |intros now].
  { apply all_events_time_time. intros t. left. exists "". right. now right. }
  apply all_events_bind; [appends_tac|appends_tac| |intros ts].
  { apply all_events_catch; [appends_tac|appends_tac| |apply all_events_raise].
    apply all_events_command_line. intros r. left. exists "". left. eauto. }
  apply all_events_bind; [appends_tac|appends_tac| |intros _].
  { eapply all_events_mono; [|apply all_events_execute].
    intros e He. left. eauto. }
  apply all_events_combine. now right.
Qed.

(** C6: a descriptor whose [done] is true is never submitted, at no point of
    [execute]; and the handles the submission loop hands to the monitoring
    are the handles of the accepted submissions, none of which is for that
    descriptor. *)
Theorem C6_done_descriptor_never_submitted (TIMEOUT : float) (fuel : nat)
  (job_params : list pydict) (ts : string) (w : world)
  (i : nat) (params : pydict) (v : pyval) :
  job_params !! i = Some params ->
  dict_get "done" params = Some v ->
  truthy v = true ->
  (forall job r,
     EvSubmit i job r ∉ events_of (execute b self TIMEOUT fuel job_params ts) w)
  /\
  forall aws_id aws_secret w1 job_ids,
    let loop :=
      submit_jobs b self TIMEOUT aws_id aws_secret ts 0 job_params [] in
    (loop w1).1 = Ret job_ids ->
    job_ids = (handles_of (events_of loop w1)).*2 /\
    i ∉ (handles_of (events_of loop w1)).*1.
Proof.
  intros Hi Hdone Htrue.
  assert (Hnot : forall aws_id aws_secret job r,
            ~ is_submit_loop_event self aws_id aws_secret ts 0 job_params
                (EvSubmit i job r)).
  { intros a s job r (p & v' & _ & Hl & Hd & Ht & _).
    rewrite Nat.sub_0_r, Hi in Hl. inversion Hl; subst p.
    rewrite Hdone in Hd. inversion Hd; subst v'. congruence. }
  split.
  - intros job r Hin.
    pose proof (all_events_execute TIMEOUT fuel job_params ts w) as Hall.
    rewrite Forall_forall in Hall. apply Hall in Hin.
    destruct Hin as [(c & r' & H)|[(a & s & H)|H]];
      [discriminate H|now apply Hnot in H|exact H].
  - intros a s w1 ids loop Hret. subst loop.
    destruct (submit_jobs_spec b self TIMEOUT a s ts job_params 0%nat [] w1)
      as (Hev & _ & Hids).
    split; [now apply Hids|].
    intros Hin. apply handles_of_submissions in Hin.
    apply elem_of_submissions_of in Hin as (job & r & Hin).
    rewrite Forall_forall in Hev. apply Hev in Hin. now apply Hnot in Hin.
Qed.

End Execute.

Lemma C6_done_descriptor_never_submitted_witness :
  let loop :=
    submit_jobs (scripted two_jobs)
      (example_task default_success_rate (Some 2)) example_deadline
      "key" "secret" "20180801" 0
      [descriptor true "s3://out/0"; descriptor false "s3://out/1";
       descriptor false "s3://out/2"] [] in
  ["job-6"] = (handles_of (events_of loop initial_world)).*2 /\
  0%nat ∉ (handles_of (events_of loop initial_world)).*1.
Proof.
  apply (proj2 (C6_done_descriptor_never_submitted (scripted two_jobs)
                  (example_task default_success_rate (Some 2))
                  example_deadline 5
                  [descriptor true "s3://out/0"; descriptor false "s3://out/1";
                   descriptor false "s3://out/2"]
                  "20180801" initial_world 0 (descriptor true "s3://out/0")
                  (PyBool true) eq_refl eq_refl eq_refl)
           "key" "secret" initial_world ["job-6"]).
  vm_compute. reflexivity.
Defined.

(** C10: with the [test] flag set, which is its default, and more than two
    descriptors from [prepare], whatever [max_runs] is: every submission of
    [run] is for one of the first two descriptors, and what [combine] gets
    is the list of the first two. *)
Theorem C10_test_flag_truncates (b : backend) (self : task) (fuel : nat)
  (prepared : list pydict) (w : world) :
  test self = true ->
  (2 < length prepared)%nat ->
  let evs := events_of (run b self fuel prepared) w in
  default_test = true /\
  (forall i job r,
     EvSubmit i job r ∈ evs ->
     (i < 2)%nat /\
     exists params aws_id aws_secret ts,
       prepared !! i = Some params /\
       job = job_of self aws_id aws_secret ts params) /\
  (forall job_params, EvCombine job_params ∈ evs -> job_params = take 2 prepared).
Proof.
  intros Htest Hlen evs. split; [reflexivity|].
  assert (Hsub : test_subset self prepared = take 2 prepared).
  { unfold test_subset. rewrite Htest.
    destruct (Z.gtb_spec (Z.of_nat (length prepared)) 2); [easy|lia]. }
  pose proof (all_events_run b self fuel prepared w) as Hall.
  rewrite Hsub, Forall_forall in Hall. fold evs in Hall.
  split.
  - intros i job r Hin. apply Hall in Hin as [(ts & He)|He]; [|discriminate He].
    destruct He as [(c & r' & He)|[(a & s & He)|He]];
      [discriminate He| |destruct He].
    destruct He as (p & v & _ & Hl & _ & _ & _ & Hjob).
    rewrite Nat.sub_0_r in Hl. apply lookup_take_Some in Hl as [Hl Hi].
    split; [exact Hi|]. exists p, a, s, ts. now split.
  - intros jp Hin. apply Hall in Hin as [(ts & He)|He]; [|now inversion He].
    destruct He as [(c & r' & He)|[(a & s & He)|He]];
      [discriminate He|destruct He|destruct He].
Qed.

Lemma C10_test_flag_truncates_witness :
  let prepared :=
    [descriptor false "s3://out/0"; descriptor false "s3://out/1";
     descriptor false "s3://out/2"] in
  let self := example_task default_success_rate None in
  (1 < 2)%nat /\
  exists params aws_id aws_secret ts,
    prepared !! 1%nat = Some params /\
    job_of self "20180801" "20180801" "20180801" (descriptor false "s3://out/1")
    = job_of self aws_id aws_secret ts params.
Proof.
  apply (proj1 (proj2 (C10_test_flag_truncates (scripted two_jobs)
                   (example_task default_success_rate None) 5
                   [descriptor false "s3://out/0"; descriptor false "s3://out/1";
                    descriptor false "s3://out/2"] initial_world
                   eq_refl ltac:(cbn; lia)))
           1%nat _ (inl "job-11")).
  vm_compute. apply list_elem_of_In. cbn. tauto.
Defined.

(** ** The cap on the number of runs *)

Section MaxRuns.

Variable b : backend.
Variable self : task.
Variable TIMEOUT : float.
Variables aws_id aws_secret s3file_timestamp : string.
Variable n : Z.

Hypothesis cap : max_runs self = Some n.
(** The deadline is not reached and every submission is accepted. *)
Hypothesis in_time : forall k, (clock b k <? TIMEOUT)%float = true.
Hypothesis accepted : forall k job, exists id, submit_reply b k job = inl id.

Abbreviation capped_loop :=
  (submit_jobs b self TIMEOUT aws_id aws_secret s3file_timestamp).

Lemma assert_timeout_in_time ids w :
  exists w',
    _assert_timeout b TIMEOUT ids w = (Ret tt, w') /\
    submissions_of (events_of (_assert_timeout b TIMEOUT ids) w) = [] /\
    handles_of (events_of (_assert_timeout b TIMEOUT ids) w) = [].
Proof.
  pose proof (assert_timeout_no_submit b TIMEOUT ids w) as Hns.
  apply no_submit_events in Hns as [Hns Hnh].
  eexists. split; [|split; [exact Hns|exact Hnh]].
  unfold _assert_timeout, bind, time_time. cbn. now rewrite in_time.
Qed.

(** When every descriptor has a [done] key and no descriptor before
    position [n] is done, the loop started at position [i] submits the
    descriptors of the positions from [i] up to [n], in order, and returns
    their handles. *)
Lemma submit_jobs_up_to_cap job_params : forall i ids w,
  Forall (fun params => is_Some (dict_get "done" params)) job_params ->
  (forall j params v,
     Z.of_nat (i + j) < n -> job_params !! j = Some params ->
     dict_get "done" params = Some v -> truthy v = false) ->
  let evs := events_of (capped_loop i job_params ids) w in
  submissions_of evs
  = seq i (Nat.min (length job_params) (Z.to_nat (n - Z.of_nat i))) /\
  (handles_of evs).*1 = submissions_of evs /\
  exists ids', (capped_loop i job_params ids w).1 = Ret ids'.
Proof.
  induction job_params as [|params rest IH]; intros i ids w Hkeys Hnot;
    cbn zeta.
  - cbn [submit_jobs]. rewrite events_of_nil by easy. cbn. eauto.
  - cbn [submit_jobs].
    set (k1 := fun _ : unit =>
      skip <- is_done params;;
      (if skip : bool then capped_loop (S i) rest ids
       else if max_runs_reached self i then ret ids
       else id_ <- submit_job b i
                     (job_of self aws_id aws_secret s3file_timestamp params);;
            capped_loop (S i) rest (ids ++ [id_]))).
    pose proof (bind_run (_assert_timeout b TIMEOUT ids) k1 w
      ltac:(appends_tac) ltac:(subst k1; appends_tac)) as Hrun.
    destruct (assert_timeout_in_time ids w) as (w1 & Hat & Hns & Hnh).
    rewrite Hat in Hrun. destruct Hrun as [Hb He]. fold k1.
    rewrite Hb, He, submissions_of_app, handles_of_app, Hns, Hnh.
    cbn [app]. clear Hb He. unfold k1.
    inversion Hkeys as [|p l [v Hdone] Hkeys']; subst.
    assert (Hk : forall m : bool -> M (list string),
               bind (is_done params) m = m (truthy v)).
    { intros m. unfold is_done. now rewrite Hdone. }
    rewrite !Hk. clear Hk.
    assert (Hnot' : forall j p v',
              Z.of_nat (S i + j) < n -> rest !! j = Some p ->
              dict_get "done" p = Some v' -> truthy v' = false).
    { intros j p v' Hj Hl Hd. apply (Hnot (S j) p v'); [lia|exact Hl|exact Hd]. }
    unfold max_runs_reached. rewrite cap.
    destruct (Z.geb_spec (Z.of_nat i) n) as [Hge|Hlt].
    + (* the cap is reached: nothing more is submitted *)
      replace (Z.to_nat (n - Z.of_nat i)) with O by lia.
      rewrite Nat.min_0_r. cbn [seq].
      destruct (truthy v).
      * destruct (IH (S i) ids w1 Hkeys' Hnot') as (Hs & Hh & Hret).
        cbn zeta in *.
        replace (Z.to_nat (n - Z.of_nat (S i))) with O in Hs by lia.
        rewrite Nat.min_0_r in Hs. cbn [seq] in Hs.
        rewrite Hs in Hh. now rewrite Hs, Hh.
      * rewrite events_of_nil by easy. cbn. eauto.
    + (* below the cap: the descriptor is not done, and it is submitted *)
      rewrite (Hnot O params v ltac:(lia) eq_refl Hdone).
      set (job := job_of self aws_id aws_secret s3file_timestamp params).
      set (k2 := fun id_ : string => capped_loop (S i) rest (ids ++ [id_])).
      pose proof (bind_run (submit_job b i job) k2 w1
        ltac:(appends_tac) ltac:(subst k2; appends_tac)) as Hrun.
      rewrite events_of_submit_job, submit_job_eq in Hrun.
      destruct (accepted (tick w1) job) as [id_ Hid]. rewrite Hid in Hrun.
      destruct Hrun as [Hb He]. rewrite Hb, He. clear Hb He. unfold k2.
      destruct (IH (S i) (ids ++ [id_]) (emit (EvSubmit i job (inl id_)) w1)
                  Hkeys' Hnot') as (Hs & Hh & Hret).
      cbn zeta in *.
      rewrite submissions_of_app, handles_of_app.
      cbn [submissions_of handles_of app fmap list_fmap fst].
      change (list_fmap _ _ fst ?l) with (l.*1).
      rewrite Hh, Hs.
      replace (Z.to_nat (n - Z.of_nat i))
        with (S (Z.to_nat (n - Z.of_nat (S i)))) by lia.
      cbn [length]. rewrite <- Nat.succ_min_distr. cbn [seq]. eauto.
Qed.

End MaxRuns.

(** C2 fails on the code, which counts positions of the list where its
    docstring has [max_runs] the "number of batch jobs to run".  Out of test
    mode, with a cap of two runs and four descriptors of which the first is
    done and the three others are not, the run submits one job, that of the
    second position, and completes. *)
Theorem C2_cap_counts_list_positions :
  let prepared :=
    [descriptor true "s3://out/0"; descriptor false "s3://out/1";
     descriptor false "s3://out/2"; descriptor false "s3://out/3"] in
  let run_ :=
    run (scripted (fun _ _ => inl SUCCEEDED)) (full_run_task (Some 2)) 5
      prepared in
  not_done_positions 0 prepared = [1; 2; 3]%nat /\
  submissions_of (events_of run_ initial_world) = [1%nat] /\
  (run_ initial_world).1 = Ret tt.
Proof. cbn zeta. repeat split; vm_compute; reflexivity. Qed.

(** ** A run in which every job succeeds *)

(** No failure among the answers: the failure rate is zero, and zero is at
    most [1 - success_rate] when [success_rate] is at most one. *)
Lemma zero_rate_passes rate t :
  (rate <=? 1)%float = true -> 0 < t < 2 ^ 53 ->
  (float_of_int 0 / float_of_int t <=? 1 - rate)%float = true.
Proof.
  intros Hrate Ht. rewrite FloatAxioms.leb_spec, div_spec, float_of_int_zero.
  destruct (float_of_int_pos t Ht) as (m & e & -> & _).
  change (SF64div (S754_zero false) (S754_finite false m e))
    with (S754_zero false).
  now apply sub_one_nonneg.
Qed.

Lemma runs_quietly_ret {A} (a : A) w : runs_quietly (ret a) w a w.
Proof.
  split; [reflexivity|]. split; [|lia]. now rewrite events_of_nil.
Qed.

Lemma runs_quietly_bind {A B} (m : M A) (k : A -> M B) w a w1 c w2 :
  appends m -> (forall a, appends (k a)) ->
  runs_quietly m w a w1 -> runs_quietly (k a) w1 c w2 ->
  runs_quietly (bind m k) w c w2.
Proof.
  intros Hm Hk (Hr1 & Hq1 & Ht1) (Hr2 & Hq2 & Ht2).
  pose proof (bind_run m k w Hm Hk) as Hrun. rewrite Hr1 in Hrun.
  destruct Hrun as [Hb He]. split; [now rewrite Hb|].
  split; [|lia]. rewrite He. apply Forall_app. now split.
Qed.

Lemma runs_quietly_emit {A} (a : A) (e : event) w :
  is_terminate e = false ->
  runs_quietly (fun w => (Ret a, emit e w)) w a (emit e w).
Proof.
  intros He. split; [reflexivity|]. split; [|cbn; lia].
  rewrite (events_of_emit (fun _ => Ret a) (fun _ => e)). auto.
Qed.

Section AllSucceed.

Variable b : backend.
Variable self : task.
Variable TIMEOUT : float.
Variable job_ids : list string.
Variable deadline_tick : nat.
Variable horizon : nat.

(** [success_rate] is at most one: of the range [0, 1], the upper bound is
    what the result needs. *)
Hypothesis rate_upper : (success_rate self <=? 1)%float = true.
(** [poll_time] is a length of time that [time.sleep] accepts. *)
Hypothesis valid_sleep : 0 <= poll_time self <= max_sleep.
(** The deadline is not reached up to the interaction number [horizon]. *)
Hypothesis in_time :
  forall k, (k <= horizon)%nat -> (clock b k <? TIMEOUT)%float = true.
(** The batch client answers every query, and never with [FAILED]. *)
Hypothesis never_failed :
  forall k id, exists s, status_reply b k id = inl s /\ s <> FAILED.
(** A job that has succeeded stays so. *)
Hypothesis stable :
  forall k k' id, (k <= k')%nat ->
    status_reply b k id = inl SUCCEEDED ->
    status_reply b k' id = inl SUCCEEDED.
(** Every job has succeeded by the interaction number [deadline_tick]. *)
Hypothesis all_succeed :
  forall id, id ∈ job_ids -> status_reply b deadline_tick id = inl SUCCEEDED.
(** The handles are distinct, and there are fewer than [2^53] of them. *)
Hypothesis distinct : NoDup job_ids.
Hypothesis few : Z.of_nat (length job_ids) < 2 ^ 53.
(** The horizon leaves the time of one more cycle, and of the check of the
    deadline of the next, after every job has succeeded. *)
Hypothesis one_more_cycle :
  (deadline_tick + length job_ids + 5 <= horizon)%nat.

Abbreviation quiet := (fun e => is_terminate e = false).

Lemma assert_timeout_quiet ids w :
  (tick w + 2 <= horizon)%nat ->
  exists w',
    runs_quietly (_assert_timeout b TIMEOUT ids) w tt w' /\
    tick w' = (tick w + 3)%nat.
Proof.
  intros Hhorizon. unfold _assert_timeout.
  set (w1 := emit (EvClock (clock b (tick w))) w).
  set (w2 := emit (EvClock (clock b (tick w1))) w1).
  set (w3 := emit (EvClock (clock b (tick w2))) w2).
  exists w3. split; [|cbn; lia].
  eapply runs_quietly_bind; [appends_tac|appends_tac| |].
  { apply (runs_quietly_emit (clock b (tick w))). reflexivity. }
  eapply runs_quietly_bind; [appends_tac|appends_tac| |].
  { apply (runs_quietly_emit (clock b (tick w1))). reflexivity. }
  eapply runs_quietly_bind; [appends_tac|appends_tac| |].
  { apply (runs_quietly_emit (clock b (tick w2))). reflexivity. }
  cbv beta. rewrite in_time by (cbn; lia). apply runs_quietly_ret.
Qed.

Lemma time_sleep_quiet w :
  runs_quietly (time_sleep (poll_time self)) w tt
    (emit (EvSleep (poll_time self)) w).
Proof.
  assert (Hs : time_sleep (poll_time self)
               = fun w => (Ret tt, emit (EvSleep (poll_time self)) w)).
  { unfold time_sleep.
    destruct (Z.ltb_spec (poll_time self) (- max_sleep)); [unfold max_sleep in *; lia|].
    destruct (Z.ltb_spec max_sleep (poll_time self)); [lia|].
    cbn [orb]. destruct (Z.ltb_spec (poll_time self) 0); [lia|reflexivity]. }
  rewrite Hs. now apply (runs_quietly_emit tt (EvSleep (poll_time self))).
Qed.

Lemma get_job_status_quiet id w :
  exists s,
    status_reply b (tick w) id = inl s /\ s <> FAILED /\
    runs_quietly (get_job_status b id) w s (emit (EvQuery id (inl s)) w).
Proof.
  destruct (never_failed (tick w) id) as (s & Hs & Hne).
  exists s. split; [exact Hs|]. split; [exact Hne|].
  split; [now rewrite get_job_status_eq, Hs|]. split; [|cbn; lia].
  rewrite events_of_get_job_status. auto.
Qed.

(** The polling loop over [ids], from a tally without failure: it returns
    the tally of more answers, one for each handle, none of which is a
    failure, and each of which is what the batch client said in the
    meantime. *)
Lemma poll_jobs_quiet ids : forall answers d w,
  Forall (fun p : string * string => p.2 <> FAILED) answers ->
  exists answers' w',
    runs_quietly (poll_jobs b ids (cycle_tally answers d)) w
      (cycle_tally (answers ++ answers') d) w' /\
    tick w' = (tick w + length ids)%nat /\
    answers'.*1 = ids /\
    Forall (fun p : string * string =>
              p.2 <> FAILED /\
              exists k, (tick w <= k < tick w')%nat /\
                        status_reply b k p.1 = inl p.2) answers'.
Proof.
  induction ids as [|id ids IH]; intros answers d w Hnf.
  - exists [], w. rewrite app_nil_r. cbn [poll_jobs].
    split; [apply runs_quietly_ret|]. split; [cbn; lia|].
    split; [reflexivity|constructor].
  - destruct (get_job_status_quiet id w) as (s & Hs & Hne & Hq).
    set (w1 := emit (EvQuery id (inl s)) w) in *.
    destruct (IH (answers ++ [(id, s)]) d w1)
      as (answers' & w' & Hr & Hticks & Hf & Ha).
    { apply Forall_app. split; [exact Hnf|]. now repeat constructor. }
    exists ((id, s) :: answers'), w'.
    assert (Htick : (tick w1 <= tick w')%nat) by apply Hr.
    split; [|split; [rewrite Hticks; cbn; lia|split]].
    + cbn [poll_jobs].
      eapply runs_quietly_bind; [appends_tac|appends_tac|exact Hq|].
      cbv beta.
      replace (tally_status id s (cycle_tally answers d))
        with (cycle_tally (answers ++ [(id, s)]) d)
        by (now rewrite cycle_tally_snoc).
      replace (answers ++ (id, s) :: answers')
        with ((answers ++ [(id, s)]) ++ answers')
        by (now rewrite <- app_assoc).
      exact Hr.
    + cbn. now rewrite Hf.
    + constructor.
      * split; [exact Hne|]. exists (tick w). cbn in Htick. split; [lia|].
        exact Hs.
      * eapply Forall_impl; [exact Ha|].
        intros p (Hp & k & Hk & Hst). split; [exact Hp|].
        exists k. cbn in Hk. split; [lia|exact Hst].
Qed.

(** The breaker lets a tally without failure through. *)
Lemma check_success_rate_quiet ids answers d w :
  Forall (fun p : string * string => p.2 <> FAILED) answers ->
  Z.of_nat (length answers) < 2 ^ 53 ->
  runs_quietly (check_success_rate self ids (cycle_tally answers d).1) w tt w.
Proof.
  intros Hnf Hlen.
  assert (Hrun : check_success_rate self ids (cycle_tally answers d).1 w
                 = (Ret tt, w)).
  { unfold check_success_rate.
    destruct (_ >? _) eqn:Hsize; [|reflexivity].
    destruct (tally_count_bounds answers d Hsize Hlen) as [_ Ht].
    unfold _assert_success.
    rewrite (bind_ret_eq _ _ _ _ _ (failure_rate_tally answers d w Hsize)).
    cbv beta. rewrite (count_status_none FAILED answers Hnf) in *.
    now rewrite (zero_rate_passes _ _ rate_upper Ht). }
  split; [exact Hrun|]. split; [|lia].
  rewrite events_of_nil; [constructor|now rewrite Hrun].
Qed.

(** One cycle: the done jobs grow, by jobs that have been seen
    [SUCCEEDED], and once every job has succeeded the cycle marks them all
    done. *)
Lemma monitor_cycle_quiet d w :
  seen_succeeded b d (tick w) ->
  (tick w + 2 <= horizon)%nat ->
  exists d' w',
    runs_quietly (monitor_cycle b self TIMEOUT job_ids d) w d' w' /\
    tick w' = (tick w + length job_ids + 4)%nat /\
    d ⊆ d' /\ d' ⊆ list_to_set job_ids ∪ d /\
    seen_succeeded b d' (tick w') /\
    ((deadline_tick <= tick w)%nat -> list_to_set job_ids ⊆ d').
Proof.
  intros Hseen Hhorizon.
  destruct (assert_timeout_quiet job_ids w Hhorizon) as (w1 & Hq1 & Ht1).
  destruct (poll_jobs_quiet job_ids [] d w1 ltac:(constructor))
    as (answers & w2 & Hq2 & Ht2 & Hids & Hans).
  cbn [app] in Hq2.
  assert (Hlen : Z.of_nat (length answers) < 2 ^ 53).
  { rewrite <- (length_fmap fst), Hids. exact few. }
  assert (Hnf : Forall (fun p : string * string => p.2 <> FAILED) answers).
  { eapply Forall_impl; [exact Hans|]. now intros p [Hp _]. }
  pose proof (check_success_rate_quiet job_ids answers d w2 Hnf Hlen) as Hq3.
  set (w3 := emit (EvSleep (poll_time self)) w2).
  exists (cycle_tally answers d).2, w3.
  split; [|split; [cbn; lia|]].
  { unfold monitor_cycle.
    eapply runs_quietly_bind; [appends_tac|appends_tac|exact Hq1|].
    eapply runs_quietly_bind; [appends_tac|appends_tac|exact Hq2|].
    eapply runs_quietly_bind; [appends_tac|appends_tac|exact Hq3|].
    eapply runs_quietly_bind; [appends_tac|appends_tac| |].
    { apply time_sleep_quiet. }
    apply runs_quietly_ret. }
  rewrite Forall_forall in Hans.
  split; [|split; [|split]].
  - intros id Hid. apply cycle_tally_done. now left.
  - intros id Hid. apply cycle_tally_done in Hid as [Hid|(s & Hin & _)].
    + apply elem_of_union. now right.
    + apply elem_of_union. left. apply elem_of_list_to_set.
      rewrite <- Hids. apply list_elem_of_fmap. now exists (id, s).
  - intros id Hid. apply cycle_tally_done in Hid as [Hid|(s & Hin & Hterm)].
    + destruct (Hseen id Hid) as (k & Hk & Hst). exists k.
      split; [cbn; lia|exact Hst].
    + destruct (Hans _ Hin) as (Hne & k & Hk & Hst). cbn [fst snd] in *.
      exists k. split; [cbn; lia|].
      unfold is_terminal in Hterm. apply orb_true_iff in Hterm as [H|H];
        apply bool_decide_eq_true in H; [now subst s|contradiction].
  - intros Hdl id Hid. apply elem_of_list_to_set in Hid.
    apply cycle_tally_done. right.
    rewrite <- Hids in Hid. apply list_elem_of_fmap in Hid as ([id' s] & -> & Hin).
    cbn [fst]. exists s. split; [exact Hin|].
    destruct (Hans _ Hin) as (_ & k & Hk & Hst). cbn [fst snd] in *.
    assert (Hin' : id' ∈ job_ids).
    { rewrite <- Hids. apply list_elem_of_fmap. now exists (id', s). }
    pose proof (stable deadline_tick k id' ltac:(lia) (all_succeed id' Hin'))
      as Hsucc.
    rewrite Hst in Hsucc. inversion Hsucc. reflexivity.
Qed.

Lemma all_done_not_pending d :
  list_to_set job_ids ⊆ d -> d ⊆ list_to_set job_ids ->
  jobs_pending job_ids d = false.
Proof.
  intros H1 H2. unfold jobs_pending.
  assert (Heq : d = list_to_set job_ids) by set_solver.
  rewrite Heq, size_list_to_set by exact distinct.
  rewrite Z.gtb_ltb. apply Z.ltb_ge. lia.
Qed.

Lemma not_pending_all_done d :
  jobs_pending job_ids d = false -> d ⊆ list_to_set job_ids ->
  forall id, id ∈ job_ids -> id ∈ d.
Proof.
  unfold jobs_pending. intros Hp Hsub id Hid.
  rewrite Z.gtb_ltb in Hp. apply Z.ltb_ge in Hp.
  assert (Hsize : (size (list_to_set job_ids : gset string) <= size d)%nat).
  { rewrite size_list_to_set by exact distinct. lia. }
  assert (Heq : d = list_to_set job_ids)
    by (apply set_subseteq_size_eq; assumption).
  rewrite Heq. now apply elem_of_list_to_set.
Qed.

(** With enough fuel the loop ends, with every job done. *)
Lemma monitor_while_quiet fuel : forall d w,
  seen_succeeded b d (tick w) ->
  d ⊆ list_to_set job_ids ->
  (1 <= fuel)%nat ->
  (jobs_pending job_ids d = true ->
   (deadline_tick - tick w + 2 <= fuel)%nat /\ (tick w + 2 <= horizon)%nat) ->
  exists d' w',
    runs_quietly (monitor_while b self TIMEOUT fuel job_ids d) w d' w' /\
    seen_succeeded b d' (tick w') /\
    forall id, id ∈ job_ids -> id ∈ d'.
Proof.
  induction fuel as [|fuel IH]; intros d w Hseen Hsub Hone Hfuel; [lia|].
  cbn [monitor_while].
  destruct (jobs_pending job_ids d) eqn:Hpending.
  - destruct (Hfuel eq_refl) as [Hfuel' Hhorizon]. clear Hfuel.
    destruct (monitor_cycle_quiet d w Hseen Hhorizon)
      as (d1 & w1 & Hq & Ht & Hgrow & Hin & Hseen1 & Hall).
    assert (Hsub1 : d1 ⊆ list_to_set job_ids) by set_solver.
    destruct (IH d1 w1 Hseen1 Hsub1) as (d' & w' & Hq' & Hseen' & Hdone).
    + lia.
    + intros Hp1.
      destruct (Nat.le_gt_cases deadline_tick (tick w)) as [Hle|Hgt]; [|lia].
      rewrite (all_done_not_pending d1 (Hall Hle) Hsub1) in Hp1.
      discriminate Hp1.
    + exists d', w'. split; [|split; assumption].
      eapply runs_quietly_bind; [appends_tac|appends_tac|exact Hq|exact Hq'].
  - exists d, w. split; [apply runs_quietly_ret|]. split; [exact Hseen|].
    now apply not_pending_all_done.
Qed.

Lemma tally_succeeded id answers d :
  dd_incr SUCCEEDED (cycle_tally answers d).1
  = (cycle_tally (answers ++ [(id, SUCCEEDED)]) d).1.
Proof.
  rewrite cycle_tally_snoc. now destruct (cycle_tally answers d).
Qed.

(** The last check when every job has been seen [SUCCEEDED]. *)
Lemma last_check_jobs_quiet ids : forall answers w,
  (forall id, id ∈ ids ->
     exists k, (k <= tick w)%nat /\ status_reply b k id = inl SUCCEEDED) ->
  Forall (fun p : string * string => p.2 <> FAILED) answers ->
  exists answers' w',
    runs_quietly
      (last_check_jobs b ids ((cycle_tally answers ∅).1, false)) w
      ((cycle_tally (answers ++ answers') ∅).1, false) w' /\
    Forall (fun p : string * string => p.2 <> FAILED) answers' /\
    length answers' = length ids.
Proof.
  induction ids as [|id ids IH]; intros answers w Hseen Hnf.
  - exists [], w. rewrite app_nil_r. cbn [last_check_jobs].
    split; [apply runs_quietly_ret|]. split; [constructor|reflexivity].
  - destruct (Hseen id ltac:(apply elem_of_cons; now left)) as (k & Hk & Hst).
    pose proof (stable k (tick w) id Hk Hst) as Hnow.
    set (w1 := emit (EvQuery id (inl SUCCEEDED)) w).
    assert (Hq : runs_quietly (get_job_status b id) w SUCCEEDED w1).
    { split; [now rewrite get_job_status_eq, Hnow|]. split; [|cbn; lia].
      rewrite events_of_get_job_status, Hnow. auto. }
    destruct (IH (answers ++ [(id, SUCCEEDED)]) w1)
      as (answers' & w' & Hr & Hnf' & Hlen).
    { intros id' Hid'.
      destruct (Hseen id' ltac:(apply elem_of_cons; now right))
        as (k' & Hk' & Hst').
      exists k'. split; [cbn; lia|exact Hst']. }
    { apply Forall_app. split; [exact Hnf|]. now repeat constructor. }
    exists ((id, SUCCEEDED) :: answers'), w'. split; [|split].
    + cbn [last_check_jobs].
      eapply runs_quietly_bind; [appends_tac|appends_tac|exact Hq|].
      cbv beta. change (negb (is_terminal SUCCEEDED)) with false. cbv iota.
      cbn [fst snd]. rewrite (tally_succeeded id).
      replace (answers ++ (id, SUCCEEDED) :: answers')
        with ((answers ++ [(id, SUCCEEDED)]) ++ answers')
        by (now rewrite <- app_assoc).
      exact Hr.
    + constructor; [discriminate|exact Hnf'].
    + cbn. now rewrite Hlen.
Qed.


End AllSucceed.



(** ** The output of a shell command *)

Lemma split_newline_nonempty s : split_newline s <> [].
Proof.
  induction s as [|c s IH]; simpl; [easy|].
  destruct (Ascii.eqb c _); [easy|]. now destruct (split_newline s).
Qed.

Lemma split_newline_line l s :
  has_newline l = false ->
  split_newline (l +:+ newline +:+ s) = l :: split_newline s.
Proof.
  induction l as [|c l IH]; simpl.
  - reflexivity.
  - intros H. apply orb_false_iff in H as [Hc Hl]. rewrite Hc.
    now rewrite (IH Hl).
Qed.

Lemma split_newline_rest s : has_newline s = false -> split_newline s = [s].
Proof.
  induction s as [|c s IH]; simpl; [easy|].
  intros H. apply orb_false_iff in H as [Hc Hs]. now rewrite Hc, (IH Hs).
Qed.

(** Splitting gives back the lines and the rest. *)
Lemma split_newline_terminated_lines ls rest :
  Forall (fun l => has_newline l = false) ls ->
  has_newline rest = false ->
  split_newline (terminated_lines ls rest) = ls ++ [rest].
Proof.
  intros Hls Hrest. induction Hls as [|l ls Hl Hls IH].
  - now apply split_newline_rest.
  - change (terminated_lines (l :: ls) rest)
      with (l +:+ newline +:+ terminated_lines ls rest).
    now rewrite split_newline_line, IH.
Qed.

(** X1: [command_line] on a command that ends normally.  When the bytes it
    prints are well-formed UTF-8, [command_line] returns the last line that
    ends with a line feed, whatever follows that line feed, and raises
    [IndexError] when there is no line feed at all; when they are not
    well-formed UTF-8, it raises [UnicodeDecodeError]. *)
Theorem command_line_last_terminated_line (b : backend) (cmd : string)
  (ls : list string) (rest : string) (w : world) :
  Forall (fun l => has_newline l = false) ls ->
  has_newline rest = false ->
  shell b (tick w) cmd = inl (terminated_lines ls rest) ->
  command_line b cmd w
  = (if valid_utf8 (terminated_lines ls rest) then
       match last ls with
       | Some l => Ret l
       | None => Raise IndexError
       end
     else Raise UnicodeDecodeError,
     emit (EvCommand cmd (inl (terminated_lines ls rest))) w).
Proof.
  intros Hls Hrest Hshell. unfold command_line. rewrite Hshell.
  destruct (valid_utf8 (terminated_lines ls rest)); [|reflexivity].
  rewrite (split_newline_terminated_lines ls rest Hls Hrest).
  rewrite rev_app_distr. cbn.
  destruct ls as [|l0 ls _] using rev_ind; [reflexivity|].
  now rewrite rev_app_distr, last_snoc.
Qed.

Lemma command_line_last_terminated_line_witness :
  command_line (scripted two_jobs) "date +%Y%m%d" initial_world
  = (Ret "20180801",
     emit (EvCommand "date +%Y%m%d" (inl ("20180801" +:+ newline)))
       initial_world).
Proof.
  apply (command_line_last_terminated_line (scripted two_jobs) "date +%Y%m%d"
           ["20180801"] "" initial_world).
  - repeat constructor.
  - reflexivity.
  - reflexivity.
Defined.

(** An output that is not UTF-8: the byte [255] never occurs in it. *)
Example command_line_not_utf8 :
  (command_line
     {| clock := fun _ => 0%float;
        shell := fun _ _ =>
          inl (String (Ascii.ascii_of_nat 255) EmptyString +:+ newline);
        submit_reply := fun _ _ => inl "job";
        status_reply := fun _ _ => inl SUCCEEDED;
        combine_raises := fun _ _ => None |}
     "date +%Y%m%d" initial_world).1
  = Raise UnicodeDecodeError.
Proof. reflexivity. Qed.

(** ** Nothing is retried, nothing follows a failure *)

Lemma fails_fast_quiet {A} (m : M A) :
  all_events (fun e => failure_of e = None) m -> fails_fast m.
Proof.
  intros H w e x Hin Hf. specialize (H w). rewrite Forall_forall in H.
  rewrite (H _ Hin) in Hf. discriminate.
Qed.

Lemma fails_fast_bind {A B} (m : M A) (k : A -> M B) :
  appends m -> (forall a, appends (k a)) ->
  fails_fast m -> (forall a, fails_fast (k a)) ->
  fails_fast (bind m k).
Proof.
  intros Hm Hk Qm Qk w ev x Hin Hf.
  pose proof (bind_run m k w Hm Hk) as Hrun.
  specialize (Qm w ev x).
  destruct (m w) as [[a|e|] w1] eqn:Hmw; destruct Hrun as [Hb He];
    rewrite He in Hin |- *; rewrite Hb.
  - apply elem_of_app in Hin as [Hin|Hin].
    + destruct (Qm Hin Hf) as [Ho _]. discriminate Ho.
    + destruct (Qk a w1 ev x Hin Hf) as [Ho Hl]. split; [exact Ho|].
      rewrite last_app, Hl. reflexivity.
  - destruct (Qm Hin Hf) as [Ho Hl]. cbn in *. split; congruence.
  - destruct (Qm Hin Hf) as [Ho _]. discriminate Ho.
Qed.

Lemma fails_fast_command_line b cmd : fails_fast (command_line b cmd).
Proof.
  intros w e x. rewrite events_of_command_line.
  intros Hin Hf. apply list_elem_of_singleton in Hin. subst e.
  unfold command_line.
  destruct (shell b (tick w) cmd) as [out|msg]; [discriminate|].
  now injection Hf as <-.
Qed.

Lemma fails_fast_submit_job b i job : fails_fast (submit_job b i job).
Proof.
  intros w e x. rewrite events_of_submit_job.
  intros Hin Hf. apply list_elem_of_singleton in Hin. subst e.
  unfold submit_job.
  destruct (submit_reply b (tick w) job) as [id|msg]; [discriminate|].
  now injection Hf as <-.
Qed.

Lemma fails_fast_get_job_status b id : fails_fast (get_job_status b id).
Proof.
  intros w e x. rewrite events_of_get_job_status.
  intros Hin Hf. apply list_elem_of_singleton in Hin. subst e.
  unfold get_job_status.
  destruct (status_reply b (tick w) id) as [s|msg]; [discriminate|].
  now injection Hf as <-.
Qed.

Lemma fails_fast_hard_terminate ids reason :
  fails_fast (hard_terminate ids reason).
Proof.
  intros w e x.
  unfold hard_terminate.
  rewrite (events_of_emit (fun _ => Raise (BatchJobException reason))
             (fun _ => EvHardTerminate ids reason)).
  intros Hin Hf. apply list_elem_of_singleton in Hin. subst e.
  now injection Hf as <-.
Qed.

Ltac fails_fast_step :=
  match goal with
  | |- forall _, _ => intro; cbv beta
  | |- fails_fast (bind _ _) =>
      apply fails_fast_bind; [solve [appends_tac] | solve [appends_tac] | | ]
  | |- fails_fast (command_line _ _) => apply fails_fast_command_line
  | |- fails_fast (submit_job _ _ _) => apply fails_fast_submit_job
  | |- fails_fast (get_job_status _ _) => apply fails_fast_get_job_status
  | |- fails_fast (hard_terminate _ _) => apply fails_fast_hard_terminate
  | |- fails_fast (if ?c then _ else _) => destruct c
  | |- fails_fast (match ?x with _ => _ end) => destruct x
  | |- fails_fast _ => solve [eauto]
  | |- fails_fast _ => apply fails_fast_quiet; solve [all_events_tac]
  end.

Ltac fails_fast_tac := repeat fails_fast_step.

Section FailsFast.

Variable b : backend.
Variable self : task.
Variable TIMEOUT : float.

Lemma fails_fast_assert_timeout ids :
  fails_fast (_assert_timeout b TIMEOUT ids).
Proof. unfold _assert_timeout. fails_fast_tac. Qed.

Lemma fails_fast_check_success_rate ids stats :
  fails_fast (check_success_rate self ids stats).
Proof.
  unfold check_success_rate, _assert_success, failure_rate.
  fails_fast_tac.
Qed.

Lemma fails_fast_poll_jobs ids acc : fails_fast (poll_jobs b ids acc).
Proof. revert acc. induction ids; intros acc; cbn; fails_fast_tac. Qed.

Lemma fails_fast_monitor_cycle ids d :
  fails_fast (monitor_cycle b self TIMEOUT ids d).
Proof.
  pose proof fails_fast_assert_timeout.
  pose proof fails_fast_poll_jobs.
  pose proof fails_fast_check_success_rate.
  unfold monitor_cycle. fails_fast_tac.
Qed.

Lemma fails_fast_monitor_while fuel ids d :
  fails_fast (monitor_while b self TIMEOUT fuel ids d).
Proof.
  pose proof fails_fast_monitor_cycle.
  revert d. induction fuel; intros d; cbn; fails_fast_tac.
Qed.

Lemma fails_fast_last_check_jobs ids acc :
  fails_fast (last_check_jobs b ids acc).
Proof. revert acc. induction ids; intros acc; cbn; fails_fast_tac. Qed.

Lemma fails_fast_last_check ids : fails_fast (last_check b self ids).
Proof.
  pose proof fails_fast_last_check_jobs.
  pose proof fails_fast_check_success_rate.
  unfold last_check. fails_fast_tac.
Qed.

Lemma fails_fast_monitor_batch_jobs fuel ids :
  fails_fast (_monitor_batch_jobs b self TIMEOUT fuel ids).
Proof.
  pose proof fails_fast_monitor_while.
  pose proof fails_fast_last_check.
  unfold _monitor_batch_jobs. fails_fast_tac.
Qed.

Lemma fails_fast_submit_jobs a s t job_params : forall i ids,
  fails_fast (submit_jobs b self TIMEOUT a s t i job_params ids).
Proof.
  pose proof fails_fast_assert_timeout.
  induction job_params as [|params rest IH]; intros i ids;
    cbn [submit_jobs]; unfold is_done; fails_fast_tac.
Qed.

Lemma fails_fast_execute fuel job_params ts :
  fails_fast (execute b self TIMEOUT fuel job_params ts).
Proof.
  pose proof fails_fast_submit_jobs.
  pose proof fails_fast_monitor_batch_jobs.
  unfold execute. fails_fast_tac.
Qed.

End FailsFast.

(** X2: [execute] stops at the first interaction that goes wrong: a shell
    command that fails, a submission or a status query that the batch client
    refuses, or a bulk termination.  The exception of that interaction is
    the outcome and its event is the last one: the call is not retried, the
    jobs submitted so far are neither monitored nor terminated on its
    account, and the monitoring does not go on after a bulk termination. *)
Theorem execute_stops_at_first_failure (b : backend) (self : task)
  (TIMEOUT : float) (fuel : nat) (job_params : list pydict) (ts : string)
  (w : world) (e : event) (x : exn) :
  e ∈ events_of (execute b self TIMEOUT fuel job_params ts) w ->
  failure_of e = Some x ->
  (execute b self TIMEOUT fuel job_params ts w).1 = Raise x /\
  last (events_of (execute b self TIMEOUT fuel job_params ts) w) = Some e.
Proof. apply fails_fast_execute. Qed.

Lemma execute_stops_at_first_failure_witness :
  (execute (refusing 6) (example_task default_success_rate None)
     example_deadline 5
     [descriptor false "s3://out/0"; descriptor false "s3://out/1"]
     "20180801" initial_world).1
  = Raise (BackendError "ClientException").
Proof.
  refine (proj1 (execute_stops_at_first_failure (refusing 6)
    (example_task default_success_rate None) example_deadline 5
    [descriptor false "s3://out/0"; descriptor false "s3://out/1"]
    "20180801" initial_world
    (EvSubmit 1
       (job_of (example_task default_success_rate None)
          "20180801" "20180801" "20180801" (descriptor false "s3://out/1"))
       (inr "ClientException"))
    (BackendError "ClientException") _ _)).
  - vm_compute. apply list_elem_of_In. cbn. tauto.
  - reflexivity.
Defined.

(** ** The jobs [execute] touches *)

Section ExecutePhases.

Variable b : backend.
Variable self : task.
Variable TIMEOUT : float.

Lemma command_line_cases cmd w :
  exists o,
    command_line b cmd w = (o, emit (EvCommand cmd (shell b (tick w) cmd)) w) /\
    (o = Raise CalledProcessError \/ o = Raise IndexError \/
     o = Raise UnicodeDecodeError \/ exists l, o = Ret l).
Proof.
  unfold command_line.
  destruct (shell b (tick w) cmd) as [out|msg]; [|eauto].
  destruct (valid_utf8 out); [|eauto 6].
  destruct (rev (split_newline out)) as [|l0 [|l1 ls]]; eauto 7.
Qed.

(** The phases of [execute]: the two commands of the credentials, the
    submission loop, the monitoring. *)
Lemma execute_phases fuel job_params ts w :
  let m := execute b self TIMEOUT fuel job_params ts in
  (exists e,
     (m w).1 = Raise e /\
     (e = CalledProcessError \/ e = IndexError \/ e = UnicodeDecodeError) /\
     Forall (fun ev => exists cmd r, ev = EvCommand cmd r) (events_of m w)) \/
  (exists aws_id aws_secret w1 w2 ev1 ev2,
     let loop :=
       submit_jobs b self TIMEOUT aws_id aws_secret ts 0 job_params [] in
     command_line b "aws --profile default configure get aws_access_key_id" w
     = (Ret aws_id, w1) /\
     command_line b
       "aws --profile default configure get aws_secret_access_key" w1
     = (Ret aws_secret, w2) /\
     events_of m w
     = EvCommand "aws --profile default configure get aws_access_key_id" ev1
       :: EvCommand "aws --profile default configure get aws_secret_access_key"
            ev2
       :: events_of loop w2
       ++ match (loop w2).1 with
          | Ret ids =>
              events_of (_monitor_batch_jobs b self TIMEOUT fuel ids) (loop w2).2
          | _ => []
          end /\
     (m w).1
     = match (loop w2).1 with
       | Ret ids => (_monitor_batch_jobs b self TIMEOUT fuel ids (loop w2).2).1
       | Raise e => Raise e
       | OutOfFuel => OutOfFuel
       end).
Proof.
  cbn zeta. unfold execute.
  set (c1 := "aws --profile default configure get aws_access_key_id").
  set (c2 := "aws --profile default configure get aws_secret_access_key").
  set (k1 := fun aws_id : string =>
    aws_secret <- command_line b c2 ;;
    job_ids <- submit_jobs b self TIMEOUT aws_id aws_secret ts 0 job_params [] ;;
    _monitor_batch_jobs b self TIMEOUT fuel job_ids).
  pose proof (bind_run (command_line b c1) k1 w
    ltac:(appends_tac) ltac:(subst k1; appends_tac)) as Hrun.
  rewrite events_of_command_line in Hrun.
  destruct (command_line_cases c1 w) as (o1 & Hc1 & Ho1).
  rewrite Hc1 in Hrun.
  destruct Ho1 as [->|[->|[->|[a ->]]]]; destruct Hrun as [Hb He];
    rewrite Hb, He; clear Hb He.
  1,2,3: left; eexists; split; [reflexivity|split; [tauto|]];
         repeat constructor; eauto.
  set (w1 := emit (EvCommand c1 (shell b (tick w) c1)) w) in *.
  unfold k1.
  set (k2 := fun aws_secret : string =>
    job_ids <- submit_jobs b self TIMEOUT a aws_secret ts 0 job_params [] ;;
    _monitor_batch_jobs b self TIMEOUT fuel job_ids).
  pose proof (bind_run (command_line b c2) k2 w1
    ltac:(appends_tac) ltac:(subst k2; appends_tac)) as Hrun.
  rewrite events_of_command_line in Hrun.
  destruct (command_line_cases c2 w1) as (o2 & Hc2 & Ho2).
  rewrite Hc2 in Hrun.
  destruct Ho2 as [->|[->|[->|[s ->]]]]; destruct Hrun as [Hb He];
    rewrite Hb, He; clear Hb He.
  1,2,3: left; eexists; split; [reflexivity|split; [tauto|]];
         repeat constructor; eauto.
  set (w2 := emit (EvCommand c2 (shell b (tick w1) c2)) w1) in *.
  right. exists a, s, w1, w2, (shell b (tick w) c1), (shell b (tick w1) c2).
  split; [exact Hc1|]. split; [exact Hc2|].
  unfold k2.
  pose proof (bind_run (submit_jobs b self TIMEOUT a s ts 0 job_params [])
    (fun job_ids => _monitor_batch_jobs b self TIMEOUT fuel job_ids) w2
    ltac:(appends_tac) ltac:(appends_tac)) as Hrun.
  destruct (submit_jobs b self TIMEOUT a s ts 0 job_params [] w2)
    as [[ids|e|] w3]; destruct Hrun as [Hb He]; rewrite Hb, He; cbn;
    rewrite ?app_nil_r; easy.
Qed.

Lemma monitor_events_of_job_set fuel job_ids :
  all_events (is_monitor_event_of self job_ids)
    (_monitor_batch_jobs b self TIMEOUT fuel job_ids).
Proof.
  assert (Ht : all_events (is_monitor_event_of self job_ids)
                 (_assert_timeout b TIMEOUT job_ids)).
  { unfold _assert_timeout. all_events_tac. cbn. tauto. }
  assert (Hs : forall stats,
             all_events (is_monitor_event_of self job_ids)
               (check_success_rate self job_ids stats)).
  { intros stats. unfold check_success_rate, _assert_success, failure_rate.
    all_events_tac. cbn. eauto. }
  assert (Hp : forall ids acc, ids ⊆ job_ids ->
             all_events (is_monitor_event_of self job_ids)
               (poll_jobs b ids acc)).
  { induction ids as [|id ids IH]; intros acc Hsub; cbn [poll_jobs];
      all_events_tac.
    - cbn. set_solver.
    - apply IH. set_solver. }
  assert (Hl : forall ids acc, ids ⊆ job_ids ->
             all_events (is_monitor_event_of self job_ids)
               (last_check_jobs b ids acc)).
  { induction ids as [|id ids IH]; intros acc Hsub; cbn [last_check_jobs];
      all_events_tac.
    - cbn. set_solver.
    - cbn. split; [set_solver|reflexivity].
    - apply IH. set_solver.
    - apply IH. set_solver. }
  assert (Hc : forall d,
             all_events (is_monitor_event_of self job_ids)
               (monitor_cycle b self TIMEOUT job_ids d)).
  { intros d. unfold monitor_cycle. all_events_tac. }
  assert (Hw : forall d,
             all_events (is_monitor_event_of self job_ids)
               (monitor_while b self TIMEOUT fuel job_ids d)).
  { induction fuel as [|fuel' IH]; intros d; cbn [monitor_while];
      all_events_tac. }
  unfold _monitor_batch_jobs, last_check. all_events_tac.
Qed.

End ExecutePhases.

Section BulkTermination.

Variable b : backend.
Variable self : task.
Variable TIMEOUT : float.

Lemma submit_jobs_hard_terminate a s ts job_params :
  forall i ids0 w ids reason,
    let loop := submit_jobs b self TIMEOUT a s ts i job_params ids0 in
    EvHardTerminate ids reason ∈ events_of loop w ->
    ids = ids0 ++ (handles_of (events_of loop w)).*2 /\
    reason = reason_timeout.
Proof.
  induction job_params as [|params rest IH]; intros i ids0 w ids reason;
    cbn zeta; cbn [submit_jobs].
  - rewrite events_of_nil by easy. intros Hin. inversion Hin.
  - set (k1 := fun _ : unit =>
      skip <- is_done params;;
      (if skip : bool
       then submit_jobs b self TIMEOUT a s ts (S i) rest ids0
       else if max_runs_reached self i then ret ids0
       else id_ <- submit_job b i (job_of self a s ts params);;
            submit_jobs b self TIMEOUT a s ts (S i) rest (ids0 ++ [id_]))).
    pose proof (bind_run (_assert_timeout b TIMEOUT ids0) k1 w
      ltac:(appends_tac) ltac:(subst k1; appends_tac)) as Hrun.
    pose proof (assert_timeout_run b TIMEOUT ids0 w) as Ht. cbn zeta in Ht.
    fold k1.
    destruct (clock b (S (S (tick w))) <? TIMEOUT)%float;
      destruct Ht as [Ho Hev];
      destruct (_assert_timeout b TIMEOUT ids0 w) as [[[]|e|] w1];
      try discriminate Ho; destruct Hrun as [Hb He]; rewrite He, Hev;
      clear Hb He Hev Ho.
    2:{ cbn. rewrite app_nil_r. intros Hin.
        repeat (apply elem_of_cons in Hin as [Hin|Hin]; [try discriminate|]).
        - now injection Hin as -> ->.
        - inversion Hin. }
    cbn [app handles_of]. intros Hin.
    repeat (apply elem_of_cons in Hin as [Hin|Hin]; [discriminate|]).
    revert Hin. unfold k1.
    destruct (dict_get "done" params) as [v|] eqn:Hdone.
    2:{ assert (Hk : forall m : bool -> M (list string),
                  bind (is_done params) m = raise (KeyError "done")).
        { intros m. unfold is_done. now rewrite Hdone. }
        rewrite !Hk. rewrite (events_of_nil _ w1) by easy.
        intros Hin. inversion Hin. }
    assert (Hk : forall m : bool -> M (list string),
               bind (is_done params) m = m (truthy v)).
    { intros m. unfold is_done. now rewrite Hdone. }
    rewrite !Hk. clear Hk.
    destruct (truthy v).
    + apply IH.
    + destruct (max_runs_reached self i).
      * rewrite (events_of_nil _ w1) by easy. intros Hin. inversion Hin.
      * set (job := job_of self a s ts params).
        set (k2 := fun id_ : string =>
          submit_jobs b self TIMEOUT a s ts (S i) rest (ids0 ++ [id_])).
        pose proof (bind_run (submit_job b i job) k2 w1
          ltac:(appends_tac) ltac:(subst k2; appends_tac)) as Hrun.
        rewrite events_of_submit_job, submit_job_eq in Hrun.
        destruct (submit_reply b (tick w1) job) as [id_|msg];
          destruct Hrun as [Hb He]; rewrite He; clear Hb He.
        -- cbn [app handles_of fmap list_fmap snd]. intros Hin.
           apply elem_of_cons in Hin as [Hin|Hin]; [discriminate|].
           apply IH in Hin as [-> ->]. now rewrite <- app_assoc.
        -- intros Hin. apply elem_of_cons in Hin as [Hin|Hin];
             [discriminate|inversion Hin].
Qed.

End BulkTermination.

(** X3: whenever [execute] issues a bulk termination, it names every job
    submitted so far, in the order of submission, and no other: during the
    submission loop the handles obtained until then, during the monitoring
    all of them.  The reason is the deadline or the failure rate. *)
Theorem bulk_termination_names_every_submitted_job (b : backend) (self : task)
  (TIMEOUT : float) (fuel : nat) (job_params : list pydict) (ts : string)
  (w : world) (ids : list string) (reason : string) :
  let evs := events_of (execute b self TIMEOUT fuel job_params ts) w in
  EvHardTerminate ids reason ∈ evs ->
  ids = (handles_of evs).*2 /\
  (reason = reason_timeout \/ exists pct, reason = reason_failure_rate pct).
Proof.
  cbn zeta. intros Hin.
  destruct (execute_phases b self TIMEOUT fuel job_params ts w)
    as [(e & _ & _ & Hcmd)|(a & s & w1 & w2 & r1 & r2 & _ & _ & Hev & _)].
  { rewrite Forall_forall in Hcmd. destruct (Hcmd _ Hin) as (? & ? & [=]). }
  rewrite Hev in Hin |- *. clear Hev.
  cbn [handles_of]. rewrite handles_of_app.
  do 2 (apply elem_of_cons in Hin as [Hin|Hin]; [discriminate|]).
  set (loop := submit_jobs b self TIMEOUT a s ts 0 job_params []) in *.
  apply elem_of_app in Hin as [Hin|Hin].
  - pose proof (fails_fast_submit_jobs b self TIMEOUT a s ts job_params 0 []
                  w2 _ _ Hin eq_refl) as [Ho _].
    fold loop in Ho. rewrite Ho, app_nil_r.
    apply (submit_jobs_hard_terminate b self TIMEOUT a s ts job_params 0 [] w2)
      in Hin as [-> ->]. split; [reflexivity|now left].
  - destruct (loop w2).1 as [job_ids|e|] eqn:Hloop; [|inversion Hin..].
    pose proof (monitor_events_of_job_set b self TIMEOUT fuel job_ids
                  (loop w2).2) as Hmon.
    pose proof (proj2 (proj2 (submit_jobs_spec b self TIMEOUT a s ts
                  job_params 0 [] w2)) job_ids Hloop) as Hids.
    cbn [app] in Hids. fold loop in Hids.
    assert (Hnone : handles_of
              (events_of (_monitor_batch_jobs b self TIMEOUT fuel job_ids)
                 (loop w2).2) = []).
    { apply monitor_events_no_submit.
      eapply Forall_impl; [exact Hmon|]. now intros []. }
    rewrite Hnone, app_nil_r.
    rewrite Forall_forall in Hmon. apply Hmon in Hin as [-> Hr].
    split; [exact Hids|exact Hr].
Qed.

Lemma bulk_termination_names_every_submitted_job_witness :
  let evs :=
    events_of
      (execute (scripted all_failed) (example_task default_success_rate None)
         example_deadline 5
         [descriptor false "s3://out/0"; descriptor false "s3://out/1"]
         "20180801") initial_world in
  ["job-5"; "job-9"] = (handles_of evs).*2 /\
  ("Exiting due to high failure rate: 100%" = reason_timeout \/
   exists pct,
     "Exiting due to high failure rate: 100%" = reason_failure_rate pct).
Proof.
  cbn zeta.
  apply (bulk_termination_names_every_submitted_job (scripted all_failed)
           (example_task default_success_rate None) example_deadline 5
           [descriptor false "s3://out/0"; descriptor false "s3://out/1"]
           "20180801" initial_world).
  vm_compute. apply list_elem_of_In. cbn. tauto.
Defined.

(** X4: [execute] queries and terminates no job but those it has submitted
    itself; a single termination is always that of the last check, with the
    reason "Jobs should no longer be running"; every sleep lasts
    [poll_time] seconds. *)
Theorem execute_touches_only_its_jobs (b : backend) (self : task)
  (TIMEOUT : float) (fuel : nat) (job_params : list pydict) (ts : string)
  (w : world) :
  let evs := events_of (execute b self TIMEOUT fuel job_params ts) w in
  Forall (touches_only self (handles_of evs).*2) evs.
Proof.
  cbn zeta.
  destruct (execute_phases b self TIMEOUT fuel job_params ts w)
    as [(e & _ & _ & Hcmd)|(a & s & w1 & w2 & r1 & r2 & _ & _ & Hev & _)].
  { eapply Forall_impl; [exact Hcmd|]. now intros ev (? & ? & ->). }
  rewrite Hev. clear Hev.
  cbn [handles_of]. rewrite handles_of_app.
  set (loop := submit_jobs b self TIMEOUT a s ts 0 job_params []) in *.
  do 2 (constructor; [exact I|]).
  apply Forall_app. split.
  - pose proof (proj1 (submit_jobs_spec b self TIMEOUT a s ts
                  job_params 0 [] w2)) as Hloop.
    eapply Forall_impl; [exact Hloop|]. now intros [].
  - destruct (loop w2).1 as [job_ids|e|] eqn:Hloop; [|constructor..].
    pose proof (monitor_events_of_job_set b self TIMEOUT fuel job_ids
                  (loop w2).2) as Hmon.
    pose proof (proj2 (proj2 (submit_jobs_spec b self TIMEOUT a s ts
                  job_params 0 [] w2)) job_ids Hloop) as Hids.
    cbn [app] in Hids. fold loop in Hids.
    assert (Hnone : handles_of
              (events_of (_monitor_batch_jobs b self TIMEOUT fuel job_ids)
                 (loop w2).2) = []).
    { apply monitor_events_no_submit.
      eapply Forall_impl; [exact Hmon|]. now intros []. }
    rewrite Hnone, app_nil_r, <- Hids.
    eapply Forall_impl; [exact Hmon|]. now intros [].
Qed.

(** ** The phases of [run] *)

Section RunPhases.

Variable b : backend.
Variable self : task.

Abbreviation prepare_command :=
  ("nesta_prepare_batch " +:+ batchable self +:+ " "
   +:+ join_spaces (env_files self)).

Lemma prepare_batch_run w :
  let m :=
    catch_called_process_error (command_line b prepare_command)
      (raise (BatchJobException "Invalid input or environment files")) in
  m w
  = (match (command_line b prepare_command w).1 with
     | Raise CalledProcessError =>
         Raise (BatchJobException "Invalid input or environment files")
     | o => o
     end,
     emit (EvCommand prepare_command (shell b (tick w) prepare_command)) w) /\
  events_of m w
  = [EvCommand prepare_command (shell b (tick w) prepare_command)].
Proof.
  cbn zeta.
  assert (Hm : catch_called_process_error (command_line b prepare_command)
      (raise (BatchJobException "Invalid input or environment files")) w
    = (match (command_line b prepare_command w).1 with
       | Raise CalledProcessError =>
           Raise (BatchJobException "Invalid input or environment files")
       | o => o
       end,
       emit (EvCommand prepare_command (shell b (tick w) prepare_command)) w)).
  { unfold catch_called_process_error.
    destruct (command_line_cases b prepare_command w) as (o & -> & Ho).
    now destruct Ho as [->|[->|[->|[l ->]]]]. }
  split; [exact Hm|].
  apply events_of_spec. now rewrite Hm.
Qed.

(** The events and the outcome of [run], by cases on the command that
    prepares the environment. *)
Lemma run_phases fuel prepared w :
  let t := clock b (tick w) in
  let TIMEOUT := (t + float_of_int (config_timeout self))%float in
  let job_params := test_subset self prepared in
  let w0 := emit (EvClock t) w in
  let ev := EvCommand prepare_command (shell b (S (tick w)) prepare_command) in
  let w1 := emit ev w0 in
  match (command_line b prepare_command w0).1 with
  | Ret ts =>
      let ex := execute b self TIMEOUT fuel job_params ts in
      (run b self fuel prepared w).1
      = match (ex w1).1 with
        | Ret _ =>
            match combine_raises b (tick (ex w1).2) job_params with
            | None => Ret tt
            | Some e => Raise e
            end
        | o => o
        end /\
      events_of (run b self fuel prepared) w
      = EvClock t :: ev :: events_of ex w1
        ++ match (ex w1).1 with
           | Ret _ => [EvCombine job_params]
           | _ => []
           end
  | Raise e =>
      (run b self fuel prepared w).1
      = Raise (match e with
               | CalledProcessError =>
                   BatchJobException "Invalid input or environment files"
               | _ => e
               end) /\
      events_of (run b self fuel prepared) w = [EvClock t; ev]
  | OutOfFuel => False
  end.
Proof.
  cbn zeta. unfold run.
  set (t := clock b (tick w)).
  set (TIMEOUT := (t + float_of_int (config_timeout self))%float).
  set (k1 := fun now : float =>
    s3file_timestamp <-
      catch_called_process_error (command_line b prepare_command)
        (raise (BatchJobException "Invalid input or environment files")) ;;
    execute b self (now + float_of_int (config_timeout self)) fuel
      (test_subset self prepared) s3file_timestamp ;;;
    combine b (test_subset self prepared)).
  pose proof (bind_run (time_time b) k1 w
    ltac:(appends_tac) ltac:(subst k1; appends_tac)) as Hrun.
  change (time_time b w) with (Ret t, emit (EvClock t) w) in Hrun.
  cbv beta iota in Hrun. fold k1. destruct Hrun as [Hb He].
  rewrite Hb, He. clear Hb He.
  replace (events_of (time_time b) w) with [EvClock t]
    by (symmetry; now apply events_of_spec).
  set (w0 := emit (EvClock t) w).
  unfold k1. fold TIMEOUT.
  set (k2 := fun ts : string =>
    execute b self TIMEOUT fuel (test_subset self prepared) ts ;;;
    combine b (test_subset self prepared)).
  pose proof (bind_run
    (catch_called_process_error (command_line b prepare_command)
       (raise (BatchJobException "Invalid input or environment files")))
    k2 w0 ltac:(appends_tac) ltac:(subst k2; appends_tac)) as Hrun.
  destruct (prepare_batch_run w0) as [Hm Hev]. rewrite Hm, Hev in Hrun.
  change (tick w0) with (S (tick w)) in *.
  destruct (command_line_cases b prepare_command w0) as (o & Hc & Ho).
  rewrite Hc in Hrun |- *. cbn [fst] in Hrun |- *.
  destruct Ho as [->|[->|[->|[ts ->]]]]; destruct Hrun as [Hb He];
    rewrite Hb, He; clear Hb He; [easy..|].
  set (w1 := emit _ w0).
  unfold k2.
  pose proof (bind_run
    (execute b self TIMEOUT fuel (test_subset self prepared) ts)
    (fun _ => combine b (test_subset self prepared)) w1
    ltac:(appends_tac) ltac:(appends_tac)) as Hrun.
  destruct (execute b self TIMEOUT fuel (test_subset self prepared) ts w1)
    as [[[]|e|] w2]; destruct Hrun as [Hb He]; rewrite Hb, He;
    cbn [fst snd app]; rewrite ?app_nil_r; try easy.
  split; [reflexivity|].
  replace (events_of (combine b (test_subset self prepared)) w2)
    with [EvCombine (test_subset self prepared)]
    by (symmetry; now apply events_of_spec).
  reflexivity.
Qed.

End RunPhases.

(** X5: when the command that prepares the environment fails, [run] ends
    with [BatchJobException] "Invalid input or environment files"; when its
    output has no complete line, [run] ends with the [IndexError] of
    [command_line], which is not caught.  In both cases [run] has read the
    clock once and run that one command: nothing is submitted and [combine]
    is not called. *)
Theorem run_preparation_failure (b : backend) (self : task) (fuel : nat)
  (prepared : list pydict) (w : world) (e : exn) :
  let t := clock b (tick w) in
  let cmd :=
    "nesta_prepare_batch " +:+ batchable self +:+ " "
    +:+ join_spaces (env_files self) in
  (command_line b cmd (emit (EvClock t) w)).1 = Raise e ->
  (run b self fuel prepared w).1
  = Raise (match e with
           | CalledProcessError =>
               BatchJobException "Invalid input or environment files"
           | _ => e
           end) /\
  events_of (run b self fuel prepared) w
  = [EvClock t; EvCommand cmd (shell b (S (tick w)) cmd)].
Proof.
  cbn zeta. intros Hcmd.
  pose proof (run_phases b self fuel prepared w) as Hrun. cbn zeta in Hrun.
  now rewrite Hcmd in Hrun.
Qed.

Lemma run_preparation_failure_witness :
  (run broken_shell (example_task default_success_rate None) 5
     [descriptor false "s3://out/0"] initial_world).1
  = Raise (BatchJobException "Invalid input or environment files").
Proof.
  refine (proj1 (run_preparation_failure broken_shell
    (example_task default_success_rate None) 5
    [descriptor false "s3://out/0"] initial_world CalledProcessError _)).
  reflexivity.
Defined.

(** X6: once the command that prepares the environment has returned, [run]
    calls [combine] exactly when [execute] returns: once, as its last
    interaction, on the list of descriptors that [execute] got (the first
    two of the prepared ones in test mode), and the outcome of [run] is
    then the outcome of [combine], which is code of the subclass and may
    raise.  When [execute] raises or does not finish, [combine] is not
    called and the outcome of [run] is that of [execute]. *)
Theorem run_combines_exactly_when_execute_returns (b : backend) (self : task)
  (fuel : nat) (prepared : list pydict) (w w1 : world) (ts : string) :
  let t := clock b (tick w) in
  let TIMEOUT := (t + float_of_int (config_timeout self))%float in
  let job_params := test_subset self prepared in
  let cmd :=
    "nesta_prepare_batch " +:+ batchable self +:+ " "
    +:+ join_spaces (env_files self) in
  command_line b cmd (emit (EvClock t) w) = (Ret ts, w1) ->
  let ex := execute b self TIMEOUT fuel job_params ts in
  let evs := events_of (run b self fuel prepared) w in
  let before :=
    EvClock t :: EvCommand cmd (shell b (S (tick w)) cmd) :: events_of ex w1 in
  Forall (fun e => forall jp, e <> EvCombine jp) before /\
  match ex w1 with
  | (Ret _, w2) =>
      evs = before ++ [EvCombine job_params] /\
      (run b self fuel prepared w).1
      = match combine_raises b (tick w2) job_params with
        | None => Ret tt
        | Some e => Raise e
        end
  | (o, _) => evs = before /\ (run b self fuel prepared w).1 = o
  end.
Proof.
  cbn zeta. intros Hcmd.
  pose proof (run_phases b self fuel prepared w) as Hrun. cbn zeta in Hrun.
  assert (Hw1 : w1 = emit (EvCommand
                  ("nesta_prepare_batch " +:+ batchable self +:+ " "
                   +:+ join_spaces (env_files self))
                  (shell b (S (tick w))
                     ("nesta_prepare_batch " +:+ batchable self +:+ " "
                      +:+ join_spaces (env_files self))))
                  (emit (EvClock (clock b (tick w))) w)).
  { pose proof (command_line_world b
      ("nesta_prepare_batch " +:+ batchable self +:+ " "
       +:+ join_spaces (env_files self))
      (emit (EvClock (clock b (tick w))) w)) as Hworld.
    now rewrite Hcmd in Hworld. }
  rewrite Hcmd in Hrun. cbn [fst] in Hrun. rewrite <- Hw1 in Hrun.
  destruct Hrun as [Ho Hev]. rewrite Ho, Hev. clear Ho Hev.
  split.
  - do 2 (constructor; [easy|]).
    pose proof (all_events_execute b self
      (clock b (tick w) + float_of_int (config_timeout self))%float
      fuel (test_subset self prepared) ts w1) as Hex.
    eapply Forall_impl; [exact Hex|].
    intros ev Hev' jp ->.
    destruct Hev' as [(? & ? & [=])|[(? & ? & [])|[]]].
  - destruct (execute b self _ fuel (test_subset self prepared) ts w1)
      as [[[]|e|] w2]; cbn [fst snd app]; rewrite ?app_nil_r;
      now rewrite <- ?app_comm_cons.
Qed.

Lemma run_combines_exactly_when_execute_returns_witness :
  let b := scripted both_succeed in
  let self := example_task default_success_rate None in
  let prepared := [descriptor false "s3://out/0"] in
  let cmd :=
    "nesta_prepare_batch " +:+ batchable self +:+ " "
    +:+ join_spaces (env_files self) in
  let w1 :=
    emit (EvCommand cmd (shell b 1 cmd)) (emit (EvClock 0%float) initial_world)
  in
  let ex :=
    execute b self (0 + float_of_int (config_timeout self))%float 5
      (test_subset self prepared) "20180801" in
  let before := EvClock 0%float :: EvCommand cmd (shell b 1 cmd)
                :: events_of ex w1 in
  Forall (fun e => forall jp, e <> EvCombine jp) before /\
  match ex w1 with
  | (Ret _, w2) =>
      events_of (run b self 5 prepared) initial_world
      = before ++ [EvCombine (test_subset self prepared)] /\
      (run b self 5 prepared initial_world).1
      = match combine_raises b (tick w2) (test_subset self prepared) with
        | None => Ret tt
        | Some e => Raise e
        end
  | (o, _) =>
      events_of (run b self 5 prepared) initial_world = before /\
      (run b self 5 prepared initial_world).1 = o
  end.
Proof.
  cbn zeta.
  apply (run_combines_exactly_when_execute_returns (scripted both_succeed)
           (example_task default_success_rate None) 5
           [descriptor false "s3://out/0"] initial_world).
  reflexivity.
Defined.

(** A [combine] that raises: the run ends with its exception, after the
    call. *)
Example run_combine_raises :
  let b :=
    {| clock := fun _ => 0%float;
       shell := fun _ _ => inl ("20180801" +:+ newline);
       submit_reply := fun n _ => inl ("job-" +:+ pretty n);
       status_reply := fun _ _ => inl SUCCEEDED;
       combine_raises := fun _ _ => Some (KeyError "outinfo") |} in
  let run_ :=
    run b (example_task default_success_rate None) 5
      [descriptor false "s3://out/0"] in
  (run_ initial_world).1 = Raise (KeyError "outinfo") /\
  last (events_of run_ initial_world)
  = Some (EvCombine [descriptor false "s3://out/0"]).
Proof. cbn zeta. split; vm_compute; reflexivity. Qed.

(** ** The deadline *)

Lemma ends_ret {A} (a : A) : ends (ret a).
Proof. now intros w. Qed.

Lemma ends_raise {A} e : ends (@raise A e).
Proof. now intros w. Qed.

Lemma ends_bind {A B} (m : M A) (k : A -> M B) :
  ends m -> (forall a, ends (k a)) -> ends (bind m k).
Proof.
  intros Hm Hk w. specialize (Hm w). unfold bind.
  destruct (m w) as [[a|e|] w1]; [apply Hk|easy..].
Qed.

Lemma ends_of_reply r (f : world -> world) : ends (fun w => of_reply r (f w)).
Proof. intros w. now destruct r. Qed.

Ltac ends_step :=
  match goal with
  | |- forall _, _ => intro; cbv beta
  | |- ends (bind _ _) => apply ends_bind
  | |- ends (ret _) => apply ends_ret
  | |- ends (raise _) => apply ends_raise
  | |- ends (if ?c then _ else _) => destruct c
  | |- ends (match ?x with _ => _ end) => destruct x
  | |- ends _ => solve [eauto]
  | |- ends _ => solve [now intros ?]
  end.

Ltac ends_tac := repeat ends_step.

Section Deadline.

Variable b : backend.
Variable self : task.
Variable TIMEOUT : float.

Lemma ends_get_job_status id : ends (get_job_status b id).
Proof.
  intros w. rewrite get_job_status_eq.
  now destruct (status_reply b (tick w) id).
Qed.

Lemma ends_assert_timeout ids : ends (_assert_timeout b TIMEOUT ids).
Proof. unfold _assert_timeout, time_time, hard_terminate. ends_tac. Qed.

Lemma ends_check_success_rate ids stats :
  ends (check_success_rate self ids stats).
Proof.
  unfold check_success_rate, _assert_success, failure_rate, py_truediv,
    py_int, hard_terminate.
  ends_tac.
Qed.

Lemma ends_poll_jobs ids acc : ends (poll_jobs b ids acc).
Proof.
  pose proof ends_get_job_status.
  revert acc. induction ids; intros acc; cbn; ends_tac.
Qed.

Lemma ends_monitor_cycle ids d : ends (monitor_cycle b self TIMEOUT ids d).
Proof.
  pose proof ends_assert_timeout. pose proof ends_poll_jobs.
  pose proof ends_check_success_rate.
  unfold monitor_cycle, time_sleep. ends_tac.
Qed.

Lemma ends_last_check ids : ends (last_check b self ids).
Proof.
  pose proof ends_get_job_status. pose proof ends_check_success_rate.
  assert (Hl : forall acc, ends (last_check_jobs b ids acc)).
  { induction ids; intros acc; cbn; unfold terminate_job; ends_tac. }
  unfold last_check. ends_tac.
Qed.

(** A cycle that starts when the deadline has passed ends at the check of
    the deadline. *)
Lemma monitor_cycle_late ids d w :
  (clock b (S (S (tick w))) <? TIMEOUT)%float = false ->
  (monitor_cycle b self TIMEOUT ids d w).1
  = Raise (BatchJobException reason_timeout) /\
  events_of (monitor_cycle b self TIMEOUT ids d) w
  = [EvClock (clock b (tick w)); EvClock (clock b (S (tick w)));
     EvClock (clock b (S (S (tick w))));
     EvHardTerminate ids reason_timeout].
Proof.
  intros Hlate. unfold monitor_cycle.
  set (k := fun _ : unit =>
    acc <- poll_jobs b ids (∅, d) ;;
    check_success_rate self ids acc.1 ;;;
    time_sleep (poll_time self) ;;;
    ret acc.2).
  pose proof (bind_run (_assert_timeout b TIMEOUT ids) k w
    ltac:(appends_tac) ltac:(subst k; appends_tac)) as Hrun.
  pose proof (assert_timeout_run b TIMEOUT ids w) as Ht. cbn zeta in Ht.
  rewrite Hlate in Ht. destruct Ht as [Ho Hev].
  destruct (_assert_timeout b TIMEOUT ids w) as [[[]|e|] w1];
    try discriminate Ho.
  cbn in Ho. injection Ho as ->.
  destruct Hrun as [Hb He]. now rewrite Hb, He, Hev.
Qed.

(** A cycle that returns has taken at least three interactions. *)
Lemma monitor_cycle_ticks ids d w d' w' :
  monitor_cycle b self TIMEOUT ids d w = (Ret d', w') ->
  (tick w + 3 <= tick w')%nat.
Proof.
  intros Hret.
  pose proof (appends_monitor_cycle b self TIMEOUT ids d w) as [_ Htick].
  rewrite Hret in Htick. cbn [snd] in Htick. rewrite Htick.
  pose proof (monitor_cycle_late ids d w) as Hlate.
  unfold monitor_cycle in *.
  set (k := fun _ : unit =>
    acc <- poll_jobs b ids (∅, d) ;;
    check_success_rate self ids acc.1 ;;;
    time_sleep (poll_time self) ;;;
    ret acc.2) in *.
  pose proof (bind_run (_assert_timeout b TIMEOUT ids) k w
    ltac:(appends_tac) ltac:(subst k; appends_tac)) as Hrun.
  pose proof (assert_timeout_run b TIMEOUT ids w) as Ht. cbn zeta in Ht.
  destruct (clock b (S (S (tick w))) <? TIMEOUT)%float.
  - destruct Ht as [Ho Hev].
    destruct (_assert_timeout b TIMEOUT ids w) as [[[]|e|] w1];
      try discriminate Ho.
    destruct Hrun as [_ He]. rewrite He, Hev, length_app. cbn. lia.
  - destruct (Hlate eq_refl) as [Ho _]. rewrite Hret in Ho. discriminate Ho.
Qed.

Lemma monitor_while_ends_after_deadline (K : nat) ids :
  (forall k, (K <= k)%nat -> (clock b k <? TIMEOUT)%float = false) ->
  forall fuel d w,
    (K <= tick w + 2 + fuel)%nat ->
    ended (monitor_while b self TIMEOUT (S fuel) ids d w).1 = true.
Proof.
  intros Hlate. induction fuel as [|fuel IH]; intros d w HK;
    cbn [monitor_while]; (destruct (jobs_pending ids d); [|reflexivity]).
  - assert (Hl : (clock b (S (S (tick w))) <? TIMEOUT)%float = false)
      by (apply Hlate; lia).
    destruct (monitor_cycle_late ids d w Hl) as [Ho _].
    unfold bind.
    destruct (monitor_cycle b self TIMEOUT ids d w) as [[d'|e|] w'];
      now try discriminate Ho.
  - pose proof (ends_monitor_cycle ids d w) as Hends.
    pose proof (monitor_cycle_ticks ids d w) as Hticks.
    unfold bind.
    destruct (monitor_cycle b self TIMEOUT ids d w) as [[d'|e|] w'];
      [|easy..].
    specialize (Hticks d' w' eq_refl). apply IH. lia.
Qed.

End Deadline.

(** X7: when the monitoring of a non-empty list of jobs starts at a time
    when the deadline has passed, every job is bulk-terminated with the
    reason of the deadline and the monitoring ends with [BatchJobException]:
    no status is queried and the task does not sleep. *)
Theorem monitoring_after_the_deadline (b : backend) (self : task)
  (TIMEOUT : float) (fuel : nat) (job_ids : list string) (w : world) :
  job_ids <> [] ->
  (clock b (S (S (tick w))) <? TIMEOUT)%float = false ->
  (_monitor_batch_jobs b self TIMEOUT (S fuel) job_ids w).1
  = Raise (BatchJobException reason_timeout) /\
  events_of (_monitor_batch_jobs b self TIMEOUT (S fuel) job_ids) w
  = [EvClock (clock b (tick w)); EvClock (clock b (S (tick w)));
     EvClock (clock b (S (S (tick w))));
     EvHardTerminate job_ids reason_timeout].
Proof.
  intros Hne Hlate. unfold _monitor_batch_jobs.
  pose proof (bind_run (monitor_while b self TIMEOUT (S fuel) job_ids ∅)
    (fun _ => last_check b self job_ids) w
    ltac:(appends_tac) ltac:(appends_tac)) as Hrun.
  assert (Hw : (monitor_while b self TIMEOUT (S fuel) job_ids ∅ w).1
               = Raise (BatchJobException reason_timeout) /\
               events_of (monitor_while b self TIMEOUT (S fuel) job_ids ∅) w
               = [EvClock (clock b (tick w)); EvClock (clock b (S (tick w)));
                  EvClock (clock b (S (S (tick w))));
                  EvHardTerminate job_ids reason_timeout]).
  { cbn [monitor_while].
    assert (Hp : jobs_pending job_ids ∅ = true).
    { unfold jobs_pending. rewrite size_empty.
      destruct job_ids; [easy|]. cbn [length]. apply Z.gtb_lt. lia. }
    rewrite Hp.
    pose proof (bind_run (monitor_cycle b self TIMEOUT job_ids ∅)
      (fun d' => monitor_while b self TIMEOUT fuel job_ids d') w
      ltac:(appends_tac) ltac:(appends_tac)) as Hc.
    destruct (monitor_cycle_late b self TIMEOUT job_ids ∅ w Hlate) as [Ho Hev].
    destruct (monitor_cycle b self TIMEOUT job_ids ∅ w) as [[d'|e|] w'];
      try discriminate Ho.
    cbn in Ho. injection Ho as ->.
    destruct Hc as [Hb He]. now rewrite Hb, He, Hev. }
  destruct Hw as [Ho Hev].
  destruct (monitor_while b self TIMEOUT (S fuel) job_ids ∅ w)
    as [[d'|e|] w']; try discriminate Ho.
  cbn in Ho. injection Ho as ->.
  destruct Hrun as [Hb He]. now rewrite Hb, He, Hev.
Qed.

Lemma monitoring_after_the_deadline_witness :
  (_monitor_batch_jobs (scripted two_jobs)
     (example_task default_success_rate None) 0%float 1 ["a"; "b"]
     initial_world).1
  = Raise (BatchJobException reason_timeout).
Proof.
  refine (proj1 (monitoring_after_the_deadline (scripted two_jobs)
    (example_task default_success_rate None) 0%float 0 ["a"; "b"]
    initial_world _ _)).
  - discriminate.
  - reflexivity.
Defined.

(** X8: the deadline ends the monitoring.  If from the interaction number
    [K] on the clock is never before the deadline, the [while] loop cannot go
    on for ever: every cycle takes at least three interactions, so that
    after at most [K] cycles more the monitoring has returned or raised. *)
Theorem monitoring_ends_once_the_deadline_has_passed (b : backend)
  (self : task) (TIMEOUT : float) (K fuel : nat) (job_ids : list string)
  (w : world) :
  (forall k, (K <= k)%nat -> (clock b k <? TIMEOUT)%float = false) ->
  (K <= tick w + 2 + fuel)%nat ->
  ended (_monitor_batch_jobs b self TIMEOUT (S fuel) job_ids w).1 = true.
Proof.
  intros Hlate HK. unfold _monitor_batch_jobs, bind.
  pose proof (monitor_while_ends_after_deadline b self TIMEOUT K job_ids Hlate
                fuel ∅ w HK) as Hw.
  destruct (monitor_while b self TIMEOUT (S fuel) job_ids ∅ w)
    as [[d'|e|] w']; [|easy..].
  apply ends_last_check.
Qed.

Lemma monitoring_ends_once_the_deadline_has_passed_witness :
  ended
    (_monitor_batch_jobs (scripted (fun _ _ => inl RUNNING))
       (example_task default_success_rate None) 0%float 1 ["a"; "b"]
       initial_world).1
  = true.
Proof.
  apply (monitoring_ends_once_the_deadline_has_passed
           (scripted (fun _ _ => inl RUNNING))
           (example_task default_success_rate None) 0%float 0 0 ["a"; "b"]
           initial_world).
  - intros k _. reflexivity.
  - cbn. lia.
Defined.

(** ** What a submission loop that completes has submitted *)

Lemma not_done_positions_ge job_params : forall i j,
  j ∈ not_done_positions i job_params -> (i <= j)%nat.
Proof.
  induction job_params as [|params rest IH]; intros i j; cbn.
  - intros Hin. inversion Hin.
  - destruct (not_done params).
    + intros Hin. apply elem_of_cons in Hin as [->|Hin]; [lia|].
      apply IH in Hin. lia.
    + intros Hin. apply IH in Hin. lia.
Qed.

Lemma max_runs_reached_mono self i j :
  (i <= j)%nat -> max_runs_reached self i = true -> max_runs_reached self j = true.
Proof.
  unfold max_runs_reached. destruct (max_runs self) as [n|]; [|easy].
  rewrite !Z.geb_leb, !Z.leb_le. lia.
Qed.

Lemma filter_none {A} (P : A -> Prop) `{forall x, Decision (P x)} (l : list A) :
  Forall (fun x => ~ P x) l -> filter P l = [].
Proof.
  induction 1 as [|x l Hx Hl IH]; [reflexivity|].
  now rewrite filter_cons_False.
Qed.

Section Submitted.

Variable b : backend.
Variable self : task.
Variable TIMEOUT : float.
Variables aws_id aws_secret s3file_timestamp : string.

Lemma submit_jobs_ret job_params : forall i ids0 w ids,
  let loop :=
    submit_jobs b self TIMEOUT aws_id aws_secret s3file_timestamp i
      job_params ids0 in
  (loop w).1 = Ret ids ->
  submissions_of (events_of loop w)
  = filter (fun j => max_runs_reached self j = false)
      (not_done_positions i job_params) /\
  (handles_of (events_of loop w)).*1 = submissions_of (events_of loop w).
Proof.
  induction job_params as [|params rest IH]; intros i ids0 w ids;
    cbn zeta; cbn [submit_jobs not_done_positions].
  - rewrite events_of_nil by easy. now intros _.
  - set (k1 := fun _ : unit =>
      skip <- is_done params;;
      (if skip : bool
       then submit_jobs b self TIMEOUT aws_id aws_secret s3file_timestamp
              (S i) rest ids0
       else if max_runs_reached self i then ret ids0
       else id_ <- submit_job b i
                     (job_of self aws_id aws_secret s3file_timestamp params);;
            submit_jobs b self TIMEOUT aws_id aws_secret s3file_timestamp
              (S i) rest (ids0 ++ [id_]))).
    pose proof (bind_run (_assert_timeout b TIMEOUT ids0) k1 w
      ltac:(appends_tac) ltac:(subst k1; appends_tac)) as Hrun.
    pose proof (assert_timeout_run b TIMEOUT ids0 w) as Ht. cbn zeta in Ht.
    fold k1.
    destruct (clock b (S (S (tick w))) <? TIMEOUT)%float;
      destruct Ht as [Ho Hev];
      destruct (_assert_timeout b TIMEOUT ids0 w) as [[[]|e|] w1];
      try discriminate Ho; destruct Hrun as [Hb He]; rewrite Hb, He, Hev;
      clear Hb He Hev Ho; [|discriminate].
    cbn [app submissions_of handles_of].
    unfold k1, not_done.
    destruct (dict_get "done" params) as [v|] eqn:Hdone.
    2:{ assert (Hk : forall m : bool -> M (list string),
                  bind (is_done params) m = raise (KeyError "done")).
        { intros m. unfold is_done. now rewrite Hdone. }
        rewrite !Hk. discriminate. }
    assert (Hk : forall m : bool -> M (list string),
               bind (is_done params) m = m (truthy v)).
    { intros m. unfold is_done. now rewrite Hdone. }
    rewrite !Hk. clear Hk.
    destruct (truthy v); cbn [negb].
    + apply IH.
    + destruct (max_runs_reached self i) eqn:Hreached.
      * rewrite (events_of_nil _ w1) by easy. intros _.
        cbn [submissions_of handles_of].
        split; [|reflexivity]. symmetry.
        apply filter_none, Forall_forall.
        intros j Hin. apply elem_of_cons in Hin as [->|Hin].
        -- now rewrite Hreached.
        -- apply not_done_positions_ge in Hin.
           rewrite (max_runs_reached_mono self i j) by (lia || easy). easy.
      * set (job := job_of self aws_id aws_secret s3file_timestamp params).
        set (k2 := fun id_ : string =>
          submit_jobs b self TIMEOUT aws_id aws_secret s3file_timestamp
            (S i) rest (ids0 ++ [id_])).
        pose proof (bind_run (submit_job b i job) k2 w1
          ltac:(appends_tac) ltac:(subst k2; appends_tac)) as Hrun.
        rewrite events_of_submit_job, submit_job_eq in Hrun.
        destruct (submit_reply b (tick w1) job) as [id_|msg];
          destruct Hrun as [Hb He]; rewrite Hb, He; clear Hb He;
          [|discriminate].
        unfold k2. intros Hret. apply IH in Hret as [Hs Hh].
        cbn [app submissions_of handles_of fmap list_fmap fst].
        rewrite filter_cons_True by exact Hreached.
        split; [now rewrite Hs|]. f_equal. exact Hh.
Qed.

End Submitted.

(** X9: when the submission loop completes, the jobs it has submitted are
    exactly the descriptors that are not done and whose position in the list
    is below [max_runs], if there is one: one submission for each, in the
    order of the list, each accepted, and the handles returned are those of
    these submissions. *)
Theorem submission_loop_submits_every_pending_descriptor (b : backend)
  (self : task) (TIMEOUT : float) (aws_id aws_secret ts : string)
  (job_params : list pydict) (w : world) (job_ids : list string) :
  let loop :=
    submit_jobs b self TIMEOUT aws_id aws_secret ts 0 job_params [] in
  let evs := events_of loop w in
  (loop w).1 = Ret job_ids ->
  submissions_of evs
  = filter (fun j => max_runs_reached self j = false)
      (not_done_positions 0 job_params) /\
  (handles_of evs).*1 = submissions_of evs /\
  job_ids = (handles_of evs).*2.
Proof.
  cbn zeta. intros Hret.
  destruct (submit_jobs_ret b self TIMEOUT aws_id aws_secret ts job_params
              0 [] w job_ids Hret) as [Hs Hh].
  split; [exact Hs|]. split; [exact Hh|].
  exact (proj2 (proj2 (submit_jobs_spec b self TIMEOUT aws_id aws_secret ts
                         job_params 0 [] w)) job_ids Hret).
Qed.

Lemma submission_loop_submits_every_pending_descriptor_witness :
  let loop :=
    submit_jobs (scripted two_jobs)
      (example_task default_success_rate (Some 3)) example_deadline
      "key" "secret" "20180801" 0
      [descriptor false "s3://out/0"; descriptor true "s3://out/1";
       descriptor false "s3://out/2"; descriptor false "s3://out/3"] [] in
  submissions_of (events_of loop initial_world) = [0; 2]%nat /\
  (handles_of (events_of loop initial_world)).*1
  = submissions_of (events_of loop initial_world) /\
  ["job-3"; "job-10"] = (handles_of (events_of loop initial_world)).*2.
Proof.
  cbn zeta.
  apply (submission_loop_submits_every_pending_descriptor (scripted two_jobs)
    (example_task default_success_rate (Some 3)) example_deadline
    "key" "secret" "20180801"
    [descriptor false "s3://out/0"; descriptor true "s3://out/1";
     descriptor false "s3://out/2"; descriptor false "s3://out/3"]
    initial_world ["job-3"; "job-10"]).
  vm_compute. reflexivity.
Defined.

(** ** What a batch job is given *)

(** X10: every job that [execute] submits is made from a descriptor of the
    list that is not done, at the position of the submission.  Its
    environment holds the credentials that the two [aws configure] commands
    printed, then the timestamp, then one variable for each item of the
    descriptor, in order, named [BATCHPAR_] followed by the key and valued
    [str] of the value; the job definition, name, queue, memory, number of
    cpus and timeout are those of the task. *)
Theorem submitted_job_carries_its_descriptor (b : backend) (self : task)
  (TIMEOUT : float) (fuel : nat) (job_params : list pydict) (ts : string)
  (w : world) (i : nat) (job : submission) (r : reply) :
  EvSubmit i job r ∈ events_of (execute b self TIMEOUT fuel job_params ts) w ->
  exists params aws_id aws_secret w1 w2,
    job_params !! i = Some params /\
    not_done params = true /\
    command_line b "aws --profile default configure get aws_access_key_id" w
    = (Ret aws_id, w1) /\
    command_line b
      "aws --profile default configure get aws_secret_access_key" w1
    = (Ret aws_secret, w2) /\
    environment (containerOverrides job)
    = [ {| name := "AWS_ACCESS_KEY_ID"; value := aws_id |};
        {| name := "AWS_SECRET_ACCESS_KEY"; value := aws_secret |};
        {| name := "BATCHPAR_S3FILE_TIMESTAMP"; value := ts |} ]
      ++ map (fun kv => {| name := "BATCHPAR_" +:+ kv.1;
                           value := py_str kv.2 |}) params /\
    ov_memory (containerOverrides job) = memory self /\
    ov_vcpus (containerOverrides job) = vcpus self /\
    jobDefinition job = job_def self /\
    jobName job = job_name self /\
    jobQueue job = job_queue self /\
    attemptDurationSeconds job = timeout self.
Proof.
  intros Hin.
  destruct (execute_phases b self TIMEOUT fuel job_params ts w)
    as [(e & _ & _ & Hcmd)|(a & s & w1 & w2 & r1 & r2 & Hc1 & Hc2 & Hev & _)].
  { rewrite Forall_forall in Hcmd. destruct (Hcmd _ Hin) as (? & ? & [=]). }
  rewrite Hev in Hin. clear Hev.
  do 2 (apply elem_of_cons in Hin as [Hin|Hin]; [discriminate|]).
  set (loop := submit_jobs b self TIMEOUT a s ts 0 job_params []) in *.
  apply elem_of_app in Hin as [Hin|Hin].
  - pose proof (proj1 (submit_jobs_spec b self TIMEOUT a s ts
                  job_params 0 [] w2)) as Hloop.
    rewrite Forall_forall in Hloop. apply Hloop in Hin.
    destruct Hin as (params & v & _ & Hlook & Hdone & Hv & _ & ->).
    rewrite Nat.sub_0_r in Hlook.
    exists params, a, s, w1, w2.
    unfold not_done. rewrite Hdone, Hv. now repeat split.
  - destruct (loop w2).1 as [job_ids|e|]; [|inversion Hin..].
    pose proof (monitor_batch_jobs_events b self TIMEOUT fuel job_ids
                  (loop w2).2) as Hmon.
    rewrite Forall_forall in Hmon. destruct (Hmon _ Hin).
Qed.

Lemma submitted_job_carries_its_descriptor_witness :
  exists params aws_id aws_secret w1 w2,
    [descriptor true "s3://out/0"; descriptor false "s3://out/1"] !! 1%nat
    = Some params /\
    not_done params = true /\
    command_line (scripted two_jobs)
      "aws --profile default configure get aws_access_key_id" initial_world
    = (Ret aws_id, w1) /\
    command_line (scripted two_jobs)
      "aws --profile default configure get aws_secret_access_key" w1
    = (Ret aws_secret, w2) /\
    [ {| name := "AWS_ACCESS_KEY_ID"; value := "20180801" |};
      {| name := "AWS_SECRET_ACCESS_KEY"; value := "20180801" |};
      {| name := "BATCHPAR_S3FILE_TIMESTAMP"; value := "20180801" |};
      {| name := "BATCHPAR_done"; value := "False" |};
      {| name := "BATCHPAR_outinfo"; value := "s3://out/1" |} ]
    = [ {| name := "AWS_ACCESS_KEY_ID"; value := aws_id |};
        {| name := "AWS_SECRET_ACCESS_KEY"; value := aws_secret |};
        {| name := "BATCHPAR_S3FILE_TIMESTAMP"; value := "20180801" |} ]
      ++ map (fun kv => {| name := "BATCHPAR_" +:+ kv.1;
                           value := py_str kv.2 |}) params.
Proof.
  destruct (submitted_job_carries_its_descriptor (scripted two_jobs)
    (example_task default_success_rate None) example_deadline 5
    [descriptor true "s3://out/0"; descriptor false "s3://out/1"]
    "20180801" initial_world 1
    (job_of (example_task default_success_rate None)
       "20180801" "20180801" "20180801" (descriptor false "s3://out/1"))
    (inl "job-8"))
    as (params & a & s & w1 & w2 & H1 & H2 & H3 & H4 & H5 & _).
  - vm_compute. apply list_elem_of_In. cbn. tauto.
  - exists params, a, s, w1, w2. repeat split; assumption.
Defined.

(** ** The names of the variables of a job *)

Lemma batchpar_names (params : pydict) :
  name <$> map batchpar params = (fun k => "BATCHPAR_" +:+ k) <$> params.*1.
Proof.
  induction params as [|[k v] params IH]; [reflexivity|].
  cbn [map fmap list_fmap]. f_equal. exact IH.
Qed.

(** X11: the names of the variables of a job are pairwise distinct, except
    when the descriptor has a key [S3FILE_TIMESTAMP]: its variable has the
    name of the variable of the timestamp, which comes first in the list. *)
Theorem env_variables_names_distinct (aws_id aws_secret ts : string)
  (params : pydict) :
  NoDup params.*1 ->
  NoDup (name <$> env_variables aws_id aws_secret ts params)
  <-> "S3FILE_TIMESTAMP" ∉ params.*1.
Proof.
  intros Hkeys. unfold env_variables.
  rewrite fmap_app, batchpar_names. cbn [fmap list_fmap name app].
  assert (Hinj : Inj (=) (=) (fun k : string => "BATCHPAR_" +:+ k)).
  { intros k1 k2 Heq. now injection Heq. }
  assert (Hnames : NoDup ((fun k => "BATCHPAR_" +:+ k) <$> params.*1)).
  { now apply (NoDup_fmap_2 _). }
  assert (Haws : forall x : string,
             x = "AWS_ACCESS_KEY_ID" \/ x = "AWS_SECRET_ACCESS_KEY" ->
             x ∉ (fun k => "BATCHPAR_" +:+ k) <$> params.*1).
  { intros x Hx Hin. apply list_elem_of_fmap in Hin as (k & -> & _).
    destruct Hx as [Hx|Hx]; discriminate Hx. }
  assert (Hts : "BATCHPAR_S3FILE_TIMESTAMP"
                ∈ (fun k => "BATCHPAR_" +:+ k) <$> params.*1
                <-> "S3FILE_TIMESTAMP" ∈ params.*1).
  { split.
    - intros Hin. apply list_elem_of_fmap in Hin as (k & Hk & Hin).
      assert (k = "S3FILE_TIMESTAMP") as ->
        by (injection Hk as Hk; symmetry; exact Hk).
      exact Hin.
    - intros Hin. apply list_elem_of_fmap. now exists "S3FILE_TIMESTAMP". }
  rewrite !NoDup_cons, !elem_of_cons, <- Hts.
  split.
  - intros (_ & _ & Hn & _). exact Hn.
  - intros Hn. repeat split; try assumption.
    + intros [Heq|[Heq|Hin]]; [discriminate..|]. now apply (Haws _ (or_introl eq_refl)).
    + intros [Heq|Hin]; [discriminate|]. now apply (Haws _ (or_intror eq_refl)).
Qed.

Lemma env_variables_names_distinct_witness :
  NoDup (name <$> env_variables "key" "secret" "20180801"
                    (descriptor false "s3://out/0")).
Proof.
  apply (env_variables_names_distinct "key" "secret" "20180801"
           (descriptor false "s3://out/0")).
  - repeat (constructor; [set_solver|]). constructor.
  - set_solver.
Defined.

(** ** Nothing left to do *)

Section AllDone.

Variable b : backend.
Variable self : task.
Variable TIMEOUT : float.

Hypothesis in_time : forall k, (clock b k <? TIMEOUT)%float = true.

Lemma submit_jobs_all_done a s ts job_params : forall i ids0 w,
  Forall (fun params => exists v,
            dict_get "done" params = Some v /\ truthy v = true) job_params ->
  let loop := submit_jobs b self TIMEOUT a s ts i job_params ids0 in
  exists w',
    loop w = (Ret ids0, w') /\
    Forall (fun e => exists t, e = EvClock t) (events_of loop w) /\
    length (events_of loop w) = (3 * length job_params)%nat.
Proof.
  induction job_params as [|params rest IH]; intros i ids0 w Hdone;
    cbn zeta; cbn [submit_jobs].
  - exists w. rewrite events_of_nil by easy. now repeat split.
  - apply Forall_cons in Hdone as [(v & Hv & Htrue) Hrest].
    set (k1 := fun _ : unit =>
      skip <- is_done params;;
      (if skip : bool
       then submit_jobs b self TIMEOUT a s ts (S i) rest ids0
       else if max_runs_reached self i then ret ids0
       else id_ <- submit_job b i (job_of self a s ts params);;
            submit_jobs b self TIMEOUT a s ts (S i) rest (ids0 ++ [id_]))).
    pose proof (bind_run (_assert_timeout b TIMEOUT ids0) k1 w
      ltac:(appends_tac) ltac:(subst k1; appends_tac)) as Hrun.
    pose proof (assert_timeout_run b TIMEOUT ids0 w) as Ht. cbn zeta in Ht.
    rewrite in_time in Ht. destruct Ht as [Ho Hev].
    fold k1.
    destruct (_assert_timeout b TIMEOUT ids0 w) as [[[]|e|] w1];
      try discriminate Ho.
    destruct Hrun as [Hb He]. rewrite Hb, He, Hev. clear Hb He Hev Ho.
    unfold k1.
    assert (Hk : forall m : bool -> M (list string),
               bind (is_done params) m = m true).
    { intros m. unfold is_done. now rewrite Hv, Htrue. }
    rewrite !Hk. clear Hk.
    destruct (IH (S i) ids0 w1 Hrest) as (w' & Hloop & Hclocks & Hlen).
    exists w'. split; [exact Hloop|]. split.
    + repeat (constructor; [eauto|]). exact Hclocks.
    + cbn [app length]. rewrite Hlen. lia.
Qed.

Lemma monitor_batch_jobs_nil fuel w :
  _monitor_batch_jobs b self TIMEOUT (S fuel) [] w = (Ret tt, w).
Proof.
  unfold _monitor_batch_jobs. cbn [monitor_while].
  unfold jobs_pending. rewrite size_empty. cbn [length].
  change (Z.of_nat 0 - Z.of_nat 0 >? 0) with false. cbv iota.
  unfold last_check, check_success_rate. cbn [last_check_jobs].
  unfold bind, ret. cbn [fst snd]. now rewrite map_size_empty.
Qed.

End AllDone.

(** X12: when every descriptor is done already and the deadline is not
    reached, [execute] returns once it has read the credentials and gone
    through the list, reading the clock three times for each descriptor:
    nothing is submitted, no status is queried, nothing is terminated and
    the task does not sleep. *)
Theorem execute_with_nothing_left_to_do (b : backend) (self : task)
  (TIMEOUT : float) (fuel : nat) (job_params : list pydict) (ts : string)
  (w w1 w2 : world) (aws_id aws_secret : string) :
  (forall k, (clock b k <? TIMEOUT)%float = true) ->
  Forall (fun params => exists v,
            dict_get "done" params = Some v /\ truthy v = true) job_params ->
  command_line b "aws --profile default configure get aws_access_key_id" w
  = (Ret aws_id, w1) ->
  command_line b "aws --profile default configure get aws_secret_access_key"
    w1
  = (Ret aws_secret, w2) ->
  let evs := events_of (execute b self TIMEOUT (S fuel) job_params ts) w in
  (execute b self TIMEOUT (S fuel) job_params ts w).1 = Ret tt /\
  exists ev1 ev2 clocks,
    evs = EvCommand "aws --profile default configure get aws_access_key_id" ev1
          :: EvCommand
               "aws --profile default configure get aws_secret_access_key" ev2
          :: clocks /\
    Forall (fun e => exists t, e = EvClock t) clocks /\
    length clocks = (3 * length job_params)%nat.
Proof.
  intros Htime Hdone Hc1 Hc2. cbn zeta.
  destruct (submit_jobs_all_done b self TIMEOUT Htime aws_id aws_secret ts
              job_params 0 [] w2 Hdone) as (w3 & Hloop & Hclocks & Hlen).
  cbn zeta in *.
  assert (Hout : execute b self TIMEOUT (S fuel) job_params ts w
                 = (Ret tt, w3)).
  { unfold execute.
    rewrite (bind_ret_eq _ _ _ _ _ Hc1). cbv beta.
    rewrite (bind_ret_eq _ _ _ _ _ Hc2). cbv beta.
    rewrite (bind_ret_eq _ _ _ _ _ Hloop). cbv beta.
    apply monitor_batch_jobs_nil. }
  split; [now rewrite Hout|].
  destruct (execute_phases b self TIMEOUT (S fuel) job_params ts w)
    as [(e & Ho & _)|(a & s & w1' & w2' & r1 & r2 & Hc1' & Hc2' & Hev & _)].
  { rewrite Hout in Ho. discriminate Ho. }
  rewrite Hc1 in Hc1'. injection Hc1' as <- <-.
  rewrite Hc2 in Hc2'. injection Hc2' as <- <-.
  rewrite Hloop in Hev. cbn [fst snd] in Hev.
  exists r1, r2, (events_of (submit_jobs b self TIMEOUT aws_id aws_secret ts
                               0 job_params []) w2).
  split; [|split; [exact Hclocks|exact Hlen]].
  rewrite Hev. f_equal. f_equal.
  rewrite (events_of_nil _ w3); [now rewrite app_nil_r|].
  now rewrite monitor_batch_jobs_nil.
Qed.

Lemma execute_with_nothing_left_to_do_witness :
  (execute (scripted two_jobs) (example_task default_success_rate None)
     example_deadline 1
     [descriptor true "s3://out/0"; descriptor true "s3://out/1"]
     "20180801" initial_world).1
  = Ret tt.
Proof.
  refine (proj1 (execute_with_nothing_left_to_do (scripted two_jobs)
    (example_task default_success_rate None) example_deadline 0
    [descriptor true "s3://out/0"; descriptor true "s3://out/1"]
    "20180801" initial_world _ _ "20180801" "20180801" _ _ _ _)).
  - intros k. reflexivity.
  - repeat (constructor; [now exists (PyBool true)|]). constructor.
  - reflexivity.
  - reflexivity.
Defined.

(** ** The breaker at the ends of the range *)

Lemma is_nan_true_Prim2SF x : is_nan x = true -> Prim2SF x = S754_nan.
Proof.
  intros Hnan. destruct (Prim2SF x) eqn:Hx; [| |reflexivity|];
    (assert (Hn : is_nan x = false)
       by (apply is_nan_Prim2SF; rewrite Hx; discriminate));
    rewrite Hn in Hnan; discriminate Hnan.
Qed.

Lemma leb_nan_right x y : is_nan y = true -> (x <=? 1 - y)%float = false.
Proof.
  intros Hnan. rewrite FloatAxioms.leb_spec, sub_spec.
  rewrite (is_nan_true_Prim2SF y Hnan), float_one.
  unfold SFleb. now destruct (Prim2SF x).
Qed.

(** X13: a required success rate that is not a number makes the breaker
    trip on every tally that is not empty, even when no job has failed:
    every comparison with [nan] is false. *)
Theorem nan_success_rate_always_trips (self : task)
  (answers : list (string * string)) (d : gset string)
  (job_ids : list string) (w : world) :
  is_nan (success_rate self) = true ->
  (Z.of_nat (size (cycle_tally answers d).1) >? 0) = true ->
  Z.of_nat (length answers) < 2 ^ 53 ->
  exists pct,
    check_success_rate self job_ids (cycle_tally answers d).1 w
    = (Raise (BatchJobException (reason_failure_rate pct)),
       emit (EvHardTerminate job_ids (reason_failure_rate pct)) w).
Proof.
  intros Hnan Hsize Hlen.
  pose proof (failure_rate_tally answers d w Hsize) as Hrate.
  destruct (tally_count_bounds answers d Hsize Hlen) as [Hf Ht].
  destruct (py_int_returns _ w (float_percent_cases _ _ Hf Ht)) as [pct Hpct].
  exists pct. unfold check_success_rate. rewrite Hsize.
  unfold _assert_success.
  rewrite (bind_ret_eq _ _ _ _ _ Hrate). cbv beta.
  rewrite (leb_nan_right _ _ Hnan).
  rewrite (bind_ret_eq _ _ _ _ _ Hpct). reflexivity.
Qed.

Lemma nan_success_rate_always_trips_witness :
  exists pct,
    check_success_rate (example_task nan None) ["a"]
      (cycle_tally [("a", SUCCEEDED)] ∅).1 initial_world
    = (Raise (BatchJobException (reason_failure_rate pct)),
       emit (EvHardTerminate ["a"] (reason_failure_rate pct)) initial_world).
Proof.
  apply (nan_success_rate_always_trips (example_task nan None)
           [("a", SUCCEEDED)] ∅ ["a"] initial_world).
  - reflexivity.
  - vm_compute. reflexivity.
  - vm_compute. reflexivity.
Defined.

(** X14: as long as no job has failed, the breaker lets the task go on,
    whatever the required success rate is, provided it is at most one: a
    tally of running and succeeded jobs has the failure rate zero. *)
Theorem no_failure_never_trips (self : task)
  (answers : list (string * string)) (d : gset string)
  (job_ids : list string) (w : world) :
  (success_rate self <=? 1)%float = true ->
  Forall (fun p : string * string => p.2 <> FAILED) answers ->
  Z.of_nat (length answers) < 2 ^ 53 ->
  check_success_rate self job_ids (cycle_tally answers d).1 w = (Ret tt, w).
Proof.
  intros Hrate Hnone Hlen. unfold check_success_rate.
  destruct (Z.of_nat (size (cycle_tally answers d).1) >? 0) eqn:Hsize;
    [|reflexivity].
  pose proof (failure_rate_tally answers d w Hsize) as Hfr.
  destruct (tally_count_bounds answers d Hsize Hlen) as [_ Ht].
  rewrite (count_status_none FAILED answers Hnone) in Hfr, Ht.
  unfold _assert_success.
  rewrite (bind_ret_eq _ _ _ _ _ Hfr). cbv beta.
  now rewrite (zero_rate_passes _ _ Hrate Ht).
Qed.

Lemma no_failure_never_trips_witness :
  check_success_rate (example_task 1%float None) ["a"; "b"]
    (cycle_tally [("a", SUCCEEDED); ("b", RUNNING)] ∅).1 initial_world
  = (Ret tt, initial_world).
Proof.
  apply (no_failure_never_trips (example_task 1%float None)
           [("a", SUCCEEDED); ("b", RUNNING)] ∅ ["a"; "b"] initial_world).
  - reflexivity.
  - repeat (constructor; [discriminate|]). constructor.
  - vm_compute. reflexivity.
Defined.

(** ** The exceptions of [execute] *)

Lemma raises_only_ret Q {A} (a : A) : raises_only Q (ret a).
Proof. intros w e H. discriminate H. Qed.

Lemma raises_only_raise (Q : exn -> Prop) {A} e : Q e -> raises_only Q (@raise A e).
Proof. intros HQ w e' H. cbn in H. now injection H as <-. Qed.

Lemma raises_only_bind Q {A B} (m : M A) (k : A -> M B) (R : A -> Prop) :
  raises_only Q m ->
  (forall w a w', m w = (Ret a, w') -> R a) ->
  (forall a, R a -> raises_only Q (k a)) ->
  raises_only Q (bind m k).
Proof.
  intros Hm HR Hk w e. unfold bind.
  specialize (Hm w). specialize (HR w).
  destruct (m w) as [[a|e'|] w1]; cbn [fst] in *.
  - apply Hk. now apply (HR a w1).
  - intros [= <-]. now apply Hm.
  - discriminate.
Qed.

Lemma raises_only_seq Q {A B} (m : M A) (k : A -> M B) :
  raises_only Q m -> (forall a, raises_only Q (k a)) ->
  raises_only Q (bind m k).
Proof.
  intros Hm Hk. apply (raises_only_bind Q m k (fun _ => True)); auto.
Qed.

Lemma is_tally_of_at_most_empty : is_tally_of_at_most 0 ∅.
Proof. now exists [], ∅. Qed.

Lemma is_tally_of_at_most_tally_status n id status acc :
  is_tally_of_at_most n acc.1 ->
  is_tally_of_at_most (S n) (tally_status id status acc).1.
Proof.
  intros (answers & d & Hacc & Hlen). destruct acc as [stats dj].
  cbn in Hacc.
  exists (answers ++ [(id, status)]), d. rewrite cycle_tally_snoc.
  split; [|rewrite length_app; cbn; lia].
  destruct (cycle_tally answers d) as [stats' d']. cbn in Hacc. subst stats'.
  unfold tally_status. cbn [fst snd].
  destruct (negb (is_tallied status)); [reflexivity|].
  now destruct (bool_decide (status = RUNNING)).
Qed.

Lemma is_tally_of_at_most_incr n status stats :
  is_terminal status = true ->
  is_tally_of_at_most n stats ->
  is_tally_of_at_most (S n) (dd_incr status stats).
Proof.
  intros Ht Hs.
  pose proof (is_tally_of_at_most_tally_status n "" status (stats, ∅) Hs) as H.
  unfold tally_status in H.
  assert (Htal : is_tallied status = true).
  { unfold is_tallied. unfold is_terminal in Ht. now rewrite Ht. }
  rewrite Htal in H. cbn [negb] in H.
  now destruct (bool_decide (status = RUNNING)).
Qed.

Lemma is_tally_of_at_most_le n n' stats :
  (n <= n')%nat -> is_tally_of_at_most n stats -> is_tally_of_at_most n' stats.
Proof.
  intros Hle (answers & d & Hs & Hlen). exists answers, d. split; [easy|lia].
Qed.

Section Exceptions.

Variable b : backend.
Variable self : task.
Variable TIMEOUT : float.

Abbreviation only_expected := (raises_only (is_execute_exception self)).

Lemma raises_only_time_time : only_expected (time_time b).
Proof. intros w e H. discriminate H. Qed.

Lemma raises_only_time_sleep : only_expected (time_sleep (poll_time self)).
Proof.
  intros w e. unfold time_sleep.
  destruct (Z.ltb_spec (poll_time self) (- max_sleep)) as [Hlow|Hlow];
    cbn [orb].
  { intros [= <-]. cbn. lia. }
  destruct (Z.ltb_spec max_sleep (poll_time self)) as [Hhigh|Hhigh].
  { intros [= <-]. cbn. lia. }
  destruct (Z.ltb_spec (poll_time self) 0) as [Hneg|Hneg].
  { intros [= <-]. cbn. lia. }
  discriminate.
Qed.

Lemma raises_only_hard_terminate ids reason :
  is_execute_exception self (BatchJobException reason) ->
  only_expected (hard_terminate ids reason).
Proof. intros HQ w e H. cbn in H. now injection H as <-. Qed.

Lemma raises_only_get_job_status id : only_expected (get_job_status b id).
Proof.
  intros w e. rewrite get_job_status_eq.
  destruct (status_reply b (tick w) id); cbn; [discriminate|].
  now intros [= <-].
Qed.

Lemma raises_only_submit_job i job : only_expected (submit_job b i job).
Proof.
  intros w e. rewrite submit_job_eq.
  destruct (submit_reply b (tick w) job); cbn; [discriminate|].
  now intros [= <-].
Qed.

Lemma raises_only_command_line cmd : only_expected (command_line b cmd).
Proof.
  intros w e. destruct (command_line_cases b cmd w) as (o & -> & Ho).
  cbn. destruct Ho as [->|[->|[->|[l ->]]]]; [| | |discriminate];
    now intros [= <-].
Qed.

Lemma raises_only_assert_timeout ids :
  only_expected (_assert_timeout b TIMEOUT ids).
Proof.
  unfold _assert_timeout.
  do 3 (apply raises_only_seq; [apply raises_only_time_time|intros ?]).
  destruct (_ <? _)%float; [apply raises_only_ret|].
  apply raises_only_hard_terminate. now left.
Qed.

Lemma raises_only_check_success_rate n ids stats :
  is_tally_of_at_most n stats -> Z.of_nat n < 2 ^ 53 ->
  only_expected (check_success_rate self ids stats).
Proof.
  intros (answers & d & -> & Hlen) Hn w e. unfold check_success_rate.
  destruct (Z.of_nat (size (cycle_tally answers d).1) >? 0) eqn:Hsize;
    [|discriminate].
  pose proof (failure_rate_tally answers d w Hsize) as Hrate.
  assert (Hlen' : Z.of_nat (length answers) < 2 ^ 53) by lia.
  destruct (tally_count_bounds answers d Hsize Hlen') as [Hf Ht].
  destruct (py_int_returns _ w (float_percent_cases _ _ Hf Ht)) as [pct Hpct].
  unfold _assert_success.
  rewrite (bind_ret_eq _ _ _ _ _ Hrate). cbv beta.
  destruct (_ <=? _)%float; [discriminate|].
  rewrite (bind_ret_eq _ _ _ _ _ Hpct). cbn.
  intros [= <-]. cbn. eauto.
Qed.

Lemma raises_only_poll_jobs ids acc : only_expected (poll_jobs b ids acc).
Proof.
  revert acc. induction ids as [|id ids IH]; intros acc; cbn [poll_jobs].
  - apply raises_only_ret.
  - apply raises_only_seq; [apply raises_only_get_job_status|auto].
Qed.

Lemma poll_jobs_at_most ids : forall n acc w acc' w',
  is_tally_of_at_most n acc.1 ->
  poll_jobs b ids acc w = (Ret acc', w') ->
  is_tally_of_at_most (n + length ids) acc'.1.
Proof.
  induction ids as [|id ids IH]; intros n acc w acc' w' Ht H; cbn in H.
  - inversion H; subst. now rewrite Nat.add_0_r.
  - apply bind_inv in H as [(s & w1 & _ & H)|[(e & _ & ?)|[_ ?]]]; try easy.
    cbn [length]. rewrite Nat.add_succ_r.
    apply (IH (S n) (tally_status id s acc) _ _ _
             (is_tally_of_at_most_tally_status n id s acc Ht) H).
Qed.

Lemma raises_only_monitor_cycle ids d :
  Z.of_nat (length ids) < 2 ^ 53 ->
  only_expected (monitor_cycle b self TIMEOUT ids d).
Proof.
  intros Hlen. unfold monitor_cycle.
  apply raises_only_seq; [apply raises_only_assert_timeout|intros _].
  apply (raises_only_bind _ _ _
           (fun acc => is_tally_of_at_most (length ids) acc.1));
    [apply raises_only_poll_jobs| |].
  - intros w acc w' H.
    apply (poll_jobs_at_most ids 0 (∅, d) _ _ _ is_tally_of_at_most_empty H).
  - intros acc Ht.
    apply raises_only_seq;
      [now apply (raises_only_check_success_rate (length ids))|intros _].
    apply raises_only_seq; [|intros _; apply raises_only_ret].
    apply raises_only_time_sleep.
Qed.

Lemma raises_only_monitor_while fuel ids : forall d,
  Z.of_nat (length ids) < 2 ^ 53 ->
  only_expected (monitor_while b self TIMEOUT fuel ids d).
Proof.
  induction fuel as [|fuel IH]; intros d Hlen; cbn [monitor_while].
  - intros w e H. discriminate H.
  - destruct (jobs_pending ids d); [|apply raises_only_ret].
    apply raises_only_seq; [now apply raises_only_monitor_cycle|auto].
Qed.

Lemma raises_only_last_check_jobs ids :
  forall acc, only_expected (last_check_jobs b ids acc).
Proof.
  induction ids as [|id ids IH]; intros acc; cbn [last_check_jobs].
  - apply raises_only_ret.
  - apply raises_only_seq; [apply raises_only_get_job_status|intros s].
    destruct (negb (is_terminal s)); [|apply IH].
    apply raises_only_seq; [|intros _; apply IH].
    intros w e H. discriminate H.
Qed.

Lemma last_check_jobs_at_most ids : forall n acc w acc' w',
  is_tally_of_at_most n acc.1 ->
  last_check_jobs b ids acc w = (Ret acc', w') ->
  is_tally_of_at_most (n + length ids) acc'.1.
Proof.
  induction ids as [|id ids IH]; intros n acc w acc' w' Ht H; cbn in H.
  - inversion H; subst. now rewrite Nat.add_0_r.
  - apply bind_inv in H as [(s & w1 & _ & H)|[(e & _ & ?)|[_ ?]]]; try easy.
    cbn [length]. rewrite Nat.add_succ_r.
    destruct (is_terminal s) eqn:Hs; cbn [negb] in H.
    + apply (IH (S n) (dd_incr s acc.1, acc.2) _ _ _
               (is_tally_of_at_most_incr n s _ Hs Ht) H).
    + apply bind_inv in H as [(u & w2 & _ & H)|[(e & _ & ?)|[_ ?]]];
        try easy.
      apply (IH (S n) (acc.1, true) _ _ _
               (is_tally_of_at_most_le n (S n) _ (Nat.le_succ_diag_r n) Ht) H).
Qed.

Lemma raises_only_last_check ids :
  Z.of_nat (length ids) < 2 ^ 53 ->
  only_expected (last_check b self ids).
Proof.
  intros Hlen. unfold last_check.
  apply (raises_only_bind _ _ _
           (fun acc => is_tally_of_at_most (length ids) acc.1));
    [apply raises_only_last_check_jobs| |].
  - intros w acc w' H.
    apply (last_check_jobs_at_most ids 0 (∅, false) _ _ _
             is_tally_of_at_most_empty H).
  - intros acc Ht. destruct acc.2.
    + apply raises_only_raise. cbn. tauto.
    + now apply (raises_only_check_success_rate (length ids)).
Qed.

Lemma raises_only_monitor_batch_jobs fuel ids :
  Z.of_nat (length ids) < 2 ^ 53 ->
  only_expected (_monitor_batch_jobs b self TIMEOUT fuel ids).
Proof.
  intros Hlen. unfold _monitor_batch_jobs.
  apply raises_only_seq; [now apply raises_only_monitor_while|intros _].
  now apply raises_only_last_check.
Qed.

Lemma raises_only_submit_jobs a s ts job_params : forall i ids,
  only_expected (submit_jobs b self TIMEOUT a s ts i job_params ids).
Proof.
  induction job_params as [|params rest IH]; intros i ids; cbn [submit_jobs].
  - apply raises_only_ret.
  - apply raises_only_seq; [apply raises_only_assert_timeout|intros _].
    apply raises_only_seq.
    + unfold is_done. destruct (dict_get "done" params);
        [apply raises_only_ret|now apply raises_only_raise].
    + intros skip. destruct skip; [apply IH|].
      destruct (max_runs_reached self i); [apply raises_only_ret|].
      apply raises_only_seq; [apply raises_only_submit_job|auto].
Qed.

Lemma not_done_positions_length job_params : forall i,
  (length (not_done_positions i job_params) <= length job_params)%nat.
Proof.
  induction job_params as [|params rest IH]; intros i; cbn; [lia|].
  specialize (IH (S i)). destruct (not_done params); cbn; lia.
Qed.

(** There are no more handles than descriptors. *)
Lemma submit_jobs_length a s ts job_params w job_ids :
  (submit_jobs b self TIMEOUT a s ts 0 job_params [] w).1 = Ret job_ids ->
  (length job_ids <= length job_params)%nat.
Proof.
  intros Hret.
  pose proof (proj2 (proj2 (submit_jobs_spec b self TIMEOUT a s ts
                job_params 0 [] w)) job_ids Hret) as Hids.
  destruct (submit_jobs_ret b self TIMEOUT a s ts job_params 0 [] w job_ids
              Hret) as [Hs Hh].
  cbn [app] in Hids. rewrite Hids, length_fmap.
  rewrite <- (length_fmap fst), Hh, Hs.
  etransitivity; [apply length_filter|apply not_done_positions_length].
Qed.

Lemma raises_only_execute fuel job_params ts :
  Z.of_nat (length job_params) < 2 ^ 53 ->
  only_expected (execute b self TIMEOUT fuel job_params ts).
Proof.
  intros Hlen. unfold execute.
  apply raises_only_seq; [apply raises_only_command_line|intros a].
  apply raises_only_seq; [apply raises_only_command_line|intros s].
  apply (raises_only_bind _ _ _
           (fun ids => (length ids <= length job_params)%nat));
    [apply raises_only_submit_jobs| |].
  - intros w ids w' H. apply (submit_jobs_length a s ts job_params w).
    now rewrite H.
  - intros ids Hids. apply raises_only_monitor_batch_jobs. lia.
Qed.

End Exceptions.

(** X15: the exceptions of [execute].  When [execute] raises, the exception
    is [CalledProcessError], [UnicodeDecodeError] or [IndexError] (the
    commands that read the credentials), [KeyError] for the key [done] (a
    descriptor without the field), an error of the batch client (a
    submission or a status query), [BatchJobException] with the reason of
    the deadline, of the last check or of the failure rate, or an exception
    of [time.sleep]: [ValueError] only when [poll_time] is negative,
    [OverflowError] only when it is beyond [max_sleep] in absolute value.
    In particular the computation of the failure rate and of its percentage
    raises nothing: there is no division by zero and no conversion of an
    infinite or undefined rate. *)
Theorem execute_raises_only_expected_exceptions (b : backend) (self : task)
  (TIMEOUT : float) (fuel : nat) (job_params : list pydict) (ts : string)
  (w : world) (e : exn) :
  Z.of_nat (length job_params) < 2 ^ 53 ->
  (execute b self TIMEOUT fuel job_params ts w).1 = Raise e ->
  is_execute_exception self e.
Proof. intros Hlen. now apply raises_only_execute. Qed.

Lemma execute_raises_only_expected_exceptions_witness :
  is_execute_exception (example_task default_success_rate None)
    (BackendError "ClientException").
Proof.
  apply (execute_raises_only_expected_exceptions (refusing 6)
           (example_task default_success_rate None) example_deadline 5
           [descriptor false "s3://out/0"; descriptor false "s3://out/1"]
           "20180801" initial_world).
  - vm_compute. reflexivity.
  - vm_compute. reflexivity.
Defined.

(** ** No descriptor is submitted twice *)

Section AtMostOnce.

Variable b : backend.
Variable self : task.
Variable TIMEOUT : float.

Lemma submit_jobs_increasing a s ts job_params : forall i ids0 w,
  submissions_of (events_of (submit_jobs b self TIMEOUT a s ts i job_params
                               ids0) w)
  `sublist_of` seq i (length job_params).
Proof.
  induction job_params as [|params rest IH]; intros i ids0 w;
    cbn [submit_jobs length seq].
  - rewrite events_of_nil by easy. constructor.
  - set (k1 := fun _ : unit =>
      skip <- is_done params;;
      (if skip : bool
       then submit_jobs b self TIMEOUT a s ts (S i) rest ids0
       else if max_runs_reached self i then ret ids0
       else id_ <- submit_job b i (job_of self a s ts params);;
            submit_jobs b self TIMEOUT a s ts (S i) rest (ids0 ++ [id_]))).
    pose proof (bind_run (_assert_timeout b TIMEOUT ids0) k1 w
      ltac:(appends_tac) ltac:(subst k1; appends_tac)) as Hrun.
    pose proof (assert_timeout_no_submit b TIMEOUT ids0 w) as Hns.
    apply no_submit_events in Hns as [Hns _].
    fold k1.
    destruct (_assert_timeout b TIMEOUT ids0 w) as [[[]|e|] w1];
      destruct Hrun as [_ He]; rewrite He; clear He.
    2,3: rewrite Hns; apply sublist_nil_l.
    rewrite submissions_of_app, Hns. cbn [app].
    unfold k1.
    destruct (dict_get "done" params) as [v|] eqn:Hdone.
    2:{ assert (Hk : forall m : bool -> M (list string),
                  bind (is_done params) m = raise (KeyError "done")).
        { intros m. unfold is_done. now rewrite Hdone. }
        rewrite !Hk. rewrite (events_of_nil _ w1) by easy.
        apply sublist_nil_l. }
    assert (Hk : forall m : bool -> M (list string),
               bind (is_done params) m = m (truthy v)).
    { intros m. unfold is_done. now rewrite Hdone. }
    rewrite !Hk. clear Hk.
    destruct (truthy v).
    + apply sublist_cons, IH.
    + destruct (max_runs_reached self i).
      * rewrite (events_of_nil _ w1) by easy. apply sublist_nil_l.
      * set (job := job_of self a s ts params).
        set (k2 := fun id_ : string =>
          submit_jobs b self TIMEOUT a s ts (S i) rest (ids0 ++ [id_])).
        pose proof (bind_run (submit_job b i job) k2 w1
          ltac:(appends_tac) ltac:(subst k2; appends_tac)) as Hrun.
        rewrite events_of_submit_job, submit_job_eq in Hrun.
        destruct (submit_reply b (tick w1) job) as [id_|msg];
          destruct Hrun as [_ He]; rewrite He; clear He;
          cbn [app submissions_of].
        -- apply sublist_skip, IH.
        -- apply sublist_skip, sublist_nil_l.
Qed.

End AtMostOnce.

(** X16: [execute] goes through the descriptors once, in order: the
    positions of its submissions, taken in the order of the calls, are
    increasing positions of the list.  In particular no descriptor is
    submitted twice and there are no more submissions than descriptors,
    also when the run is cut short by a failure. *)
Theorem execute_submits_each_descriptor_at_most_once (b : backend)
  (self : task) (TIMEOUT : float) (fuel : nat) (job_params : list pydict)
  (ts : string) (w : world) :
  submissions_of (events_of (execute b self TIMEOUT fuel job_params ts) w)
  `sublist_of` seq 0 (length job_params).
Proof.
  destruct (execute_phases b self TIMEOUT fuel job_params ts w)
    as [(e & _ & _ & Hcmd)|(a & s & w1 & w2 & r1 & r2 & _ & _ & Hev & _)].
  { replace (submissions_of _) with (@nil nat); [apply sublist_nil_l|].
    symmetry. apply no_submit_events.
    eapply Forall_impl; [exact Hcmd|]. now intros ev (? & ? & ->). }
  rewrite Hev. clear Hev. cbn [submissions_of].
  rewrite submissions_of_app.
  set (loop := submit_jobs b self TIMEOUT a s ts 0 job_params []) in *.
  assert (Hnone : submissions_of
            match (loop w2).1 with
            | Ret ids =>
                events_of (_monitor_batch_jobs b self TIMEOUT fuel ids)
                  (loop w2).2
            | _ => []
            end = []).
  { destruct (loop w2).1 as [job_ids|e|]; [|reflexivity..].
    apply monitor_events_no_submit, monitor_batch_jobs_events. }
  rewrite Hnone, app_nil_r. apply submit_jobs_increasing.
Qed.

(** ** What a monitoring that returns has seen *)

Lemma is_terminal_cases s :
  is_terminal s = true <-> s = SUCCEEDED \/ s = FAILED.
Proof.
  unfold is_terminal. rewrite orb_true_iff, !bool_decide_eq_true. tauto.
Qed.

Lemma tally_terminal answers : forall stats d,
  Forall (fun p : string * string => is_terminal p.2 = true) answers ->
  (foldl (fun acc p => tally_status p.1 p.2 acc) (stats, d) answers).1
  = foldl (fun st p => dd_incr p.2 st) stats answers.
Proof.
  induction answers as [|[id s] answers IH]; intros stats d Hall;
    [reflexivity|].
  apply Forall_cons in Hall as [Hs Hall]. cbn [foldl fst snd] in *.
  assert (Ht : tally_status id s (stats, d)
               = (dd_incr s stats, {[id]} ∪ d)).
  { unfold tally_status, is_tallied. unfold is_terminal in Hs. rewrite Hs.
    cbn [negb]. apply is_terminal_cases in Hs.
    destruct (bool_decide_reflect (s = RUNNING)) as [->|]; [|reflexivity].
    destruct Hs as [Hs|Hs]; discriminate Hs. }
  rewrite Ht. now apply IH.
Qed.

Lemma tally_terminal_not_empty answers d :
  Forall (fun p : string * string => is_terminal p.2 = true) answers ->
  answers <> [] ->
  (Z.of_nat (size (cycle_tally answers d).1) >? 0) = true.
Proof.
  intros Hall Hne. destruct answers as [|[id s] answers]; [easy|].
  apply Forall_cons in Hall as [Hs _]. cbn [snd] in Hs.
  destruct (cycle_tally_counts ((id, s) :: answers) d) as (Hget & _).
  specialize (Hget s).
  assert (Htal : is_tallied s = true).
  { unfold is_tallied. unfold is_terminal in Hs. now rewrite Hs. }
  rewrite Htal in Hget.
  assert (Hcount : 0 < count_status s ((id, s) :: answers)).
  { unfold count_status. rewrite filter_cons_True by reflexivity. cbn. lia. }
  apply Z.gtb_lt.
  destruct (size (cycle_tally ((id, s) :: answers) d).1) eqn:Hsize; [|lia].
  apply map_size_empty_iff in Hsize. rewrite Hsize in Hget.
  unfold dd_get in Hget. rewrite lookup_empty in Hget. cbn in Hget. lia.
Qed.

Section Returned.

Variable b : backend.
Variable self : task.
Variable TIMEOUT : float.

Lemma last_check_jobs_ret ids : forall acc w acc' w',
  last_check_jobs b ids acc w = (Ret acc', w') ->
  let answers := answers_of (events_of (last_check_jobs b ids acc) w) in
  answers.*1 = ids /\
  (acc'.2 = false ->
   acc.2 = false /\
   Forall (fun p => is_terminal p.2 = true) answers /\
   acc'.1 = foldl (fun st p => dd_incr p.2 st) acc.1 answers).
Proof.
  induction ids as [|id ids IH]; intros acc w acc' w' Hret; cbn zeta;
    cbn [last_check_jobs] in *.
  - rewrite events_of_nil by easy. injection Hret as <- _.
    now repeat split.
  - set (k := fun status : string =>
      if negb (is_terminal status)
      then terminate_job id reason_unexplained ;;;
           last_check_jobs b ids (acc.1, true)
      else last_check_jobs b ids (dd_incr status acc.1, acc.2)) in *.
    pose proof (bind_run (get_job_status b id) k w
      ltac:(appends_tac) ltac:(subst k; appends_tac)) as Hrun.
    rewrite events_of_get_job_status, get_job_status_eq in Hrun.
    destruct (status_reply b (tick w) id) as [s|msg];
      destruct Hrun as [Hb He]; rewrite Hb in Hret; rewrite He; clear Hb He;
      [|discriminate Hret].
    cbn [app answers_of fmap list_fmap fst].
    set (w1 := emit (EvQuery id (inl s)) w) in *.
    unfold k in *. destruct (is_terminal s) eqn:Hs; cbn [negb] in *.
    + destruct (IH _ _ _ _ Hret) as [Hids Hall]. cbn zeta in *.
      split; [now rewrite Hids|].
      intros Hflag. destruct (Hall Hflag) as (Hacc & Hterm & Htally).
      split; [exact Hacc|]. split; [now constructor|exact Htally].
    + set (k2 := fun _ : unit => last_check_jobs b ids (acc.1, true)) in *.
      pose proof (bind_run (terminate_job id reason_unexplained) k2 w1
        ltac:(appends_tac) ltac:(subst k2; appends_tac)) as Hrun.
      change (terminate_job id reason_unexplained w1)
        with (@Ret unit tt, emit (EvTerminate id reason_unexplained) w1)
        in Hrun.
      cbv beta iota in Hrun. destruct Hrun as [Hb He].
      replace (events_of (terminate_job id reason_unexplained) w1)
        with [EvTerminate id reason_unexplained] in He
        by (symmetry; now apply events_of_spec).
      rewrite Hb in Hret. rewrite He. unfold k2 in *.
      cbn [app answers_of fmap list_fmap fst].
      destruct (IH _ _ _ _ Hret) as [Hids Hall]. cbn zeta in *.
      split; [now rewrite Hids|].
      intros Hflag. destruct (Hall Hflag) as (Hacc & _). discriminate Hacc.
Qed.

End Returned.

(** X17: when the monitoring returns, the last check has queried every job
    once and has found each of them [SUCCEEDED] or [FAILED]; and, when there
    is a job at all, the share of the failed ones among them is at most
    [1 - success_rate].  A monitoring that cannot establish this ends with
    an exception. *)
Theorem monitoring_returns_only_when_every_job_has_ended (b : backend)
  (self : task) (TIMEOUT : float) (fuel : nat) (job_ids : list string)
  (w w' : world) :
  _monitor_batch_jobs b self TIMEOUT fuel job_ids w = (Ret tt, w') ->
  exists d w1,
    monitor_while b self TIMEOUT fuel job_ids ∅ w = (Ret d, w1) /\
    let answers := answers_of (events_of (last_check b self job_ids) w1) in
    answers.*1 = job_ids /\
    Forall (fun p => is_terminal p.2 = true) answers /\
    (job_ids <> [] -> Z.of_nat (length job_ids) < 2 ^ 53 ->
     (float_of_int (count_status FAILED answers)
      / float_of_int (count_status SUCCEEDED answers
                      + count_status FAILED answers)
      <=? 1 - success_rate self)%float = true).
Proof.
  intros Hret. unfold _monitor_batch_jobs in Hret.
  apply bind_inv in Hret as [(d & w1 & Hloop & Hlast)|[(e & _ & ?)|[_ ?]]];
    try easy.
  exists d, w1. split; [exact Hloop|]. cbn zeta.
  unfold last_check in *.
  set (k := fun acc : gmap string Z * bool =>
    if acc.2 then raise (BatchJobException reason_unexplained)
    else check_success_rate self job_ids acc.1) in *.
  pose proof (bind_run (last_check_jobs b job_ids (∅, false)) k w1
    ltac:(appends_tac) ltac:(subst k; appends_tac)) as Hrun.
  pose proof (last_check_jobs_ret b job_ids (∅, false) w1) as Hjobs.
  destruct (last_check_jobs b job_ids (∅, false) w1) as [[acc|e|] w2];
    destruct Hrun as [Hb He]; rewrite Hb in Hlast; [|discriminate Hlast..].
  rewrite He, answers_of_app. clear Hb He.
  destruct (Hjobs acc w2 eq_refl) as [Hids Hall]. cbn zeta in Hids, Hall.
  clear Hjobs.
  set (answers := answers_of (events_of (last_check_jobs b job_ids (∅, false))
                                w1)) in *.
  unfold k in *. destruct acc as [stats flag]. cbn [fst snd] in *.
  destruct flag; [discriminate Hlast|].
  destruct (Hall eq_refl) as (_ & Hterm & Hstats). clear Hall.
  pose proof (check_success_rate_no_query self job_ids stats w2) as Hnq.
  apply no_query_events in Hnq as [_ Hnq]. rewrite Hnq, app_nil_r.
  split; [exact Hids|]. split; [exact Hterm|].
  intros Hne Hlen.
  assert (Htally : stats = (cycle_tally answers ∅).1).
  { rewrite Hstats. unfold cycle_tally. symmetry. now apply tally_terminal. }
  assert (Hnonempty : answers <> []).
  { intros Hnil. rewrite Hnil in Hids. now apply Hne. }
  pose proof (tally_terminal_not_empty answers ∅ Hterm Hnonempty) as Hsize.
  assert (Hlen' : Z.of_nat (length answers) < 2 ^ 53).
  { rewrite <- (length_fmap fst), Hids. exact Hlen. }
  pose proof (failure_rate_tally answers ∅ w2 Hsize) as Hrate.
  destruct (tally_count_bounds answers ∅ Hsize Hlen') as [Hf Ht].
  assert (Hrunning : count_status RUNNING answers = 0).
  { apply count_status_none. eapply Forall_impl; [exact Hterm|].
    intros p Hp Heq. apply is_terminal_cases in Hp.
    rewrite Heq in Hp. destruct Hp as [Hp|Hp]; discriminate Hp. }
  rewrite Hrunning, Z.add_0_r in Hrate, Ht.
  rewrite Htally in Hlast. unfold check_success_rate in Hlast.
  rewrite Hsize in Hlast. unfold _assert_success in Hlast.
  rewrite (bind_ret_eq _ _ _ _ _ Hrate) in Hlast. cbv beta in Hlast.
  destruct (_ <=? _)%float eqn:Hleb; [reflexivity|].
  assert (Hpct : exists s,
             Prim2SF (float_of_int (count_status FAILED answers)
                      / float_of_int (count_status SUCCEEDED answers
                                      + count_status FAILED answers) * 100)
             = S754_zero s \/
             exists m e,
               Prim2SF (float_of_int (count_status FAILED answers)
                        / float_of_int (count_status SUCCEEDED answers
                                        + count_status FAILED answers) * 100)
               = S754_finite s m e) by now apply float_percent_cases.
  destruct (py_int_returns _ w2 Hpct) as [pct Hint].
  rewrite (bind_ret_eq _ _ _ _ _ Hint) in Hlast. discriminate Hlast.
Qed.

Lemma monitoring_returns_only_when_every_job_has_ended_witness :
  exists d w1,
    monitor_while (scripted both_succeed)
      (example_task default_success_rate None) example_deadline 5
      ["a"; "b"] ∅ initial_world = (Ret d, w1) /\
    let answers :=
      answers_of
        (events_of
           (last_check (scripted both_succeed)
              (example_task default_success_rate None) ["a"; "b"]) w1) in
    answers.*1 = ["a"; "b"] /\
    Forall (fun p => is_terminal p.2 = true) answers.
Proof.
  destruct (monitoring_returns_only_when_every_job_has_ended
              (scripted both_succeed) (example_task default_success_rate None)
              example_deadline 5 ["a"; "b"] initial_world
              (_monitor_batch_jobs (scripted both_succeed)
                 (example_task default_success_rate None) example_deadline 5
                 ["a"; "b"] initial_world).2)
    as (d & w1 & Hloop & Hids & Hterm & _).
  - vm_compute. reflexivity.
  - exists d, w1. split; [exact Hloop|]. split; [exact Hids|exact Hterm].
Defined.
